(** * A backtracking Sudoku solver with domain pruning (sudoku.js)

    The solver keeps a 9x9 board of [Square]s.  Every square has a value
    (0 = empty) and a domain, the array of digits still possible for it.
    [updateDomains] prunes the domains of the peers of a square,
    [backtrack] is the depth-first search, [solve] is the entry point.

    The first part of the file is a state-passing embedding: a board is a
    list of rows, each function that mutates a board returns the new
    board, and [None] stands for a call that does not return a value (a
    TypeError raised by indexing [undefined], or, for [backtrack], fuel
    that ran out).  The second part embeds the same functions on a heap
    of objects, where arrays and squares are shared by reference as in
    the source.  The properties of propagation and of the search are
    proved of the state-passing program, the properties of copying and of
    what a call may write are proved of the heap program, and the last
    part shows that the heap program follows the state-passing one step
    by step, so that what is proved of either holds of the source.

    The file goes on with what the functions guarantee beyond that: the
    scans, the shape of a copy, what propagation keeps and finds, that
    the search is complete and returns the solution that reads smallest,
    and what a click on Solve (controller.js) shows. *)

From Stdlib Require Import ZArith Lia ZifyNat.
From stdpp Require Import base numbers option strings list.

(** ** JavaScript arrays of numbers *)

(** [l.indexOf(x)]; [None] is the source's [-1]. *)
Fixpoint indexOf (x : Z) (l : list Z) : option nat :=
  match l with
  | [] => None
  | y :: l' => if decide (y = x) then Some 0 else S <$> indexOf x l'
  end.

(** [l.splice(k, 1)]: the array without its element at index [k]. *)
Definition splice1 (k : nat) (l : list Z) : list Z := take k l ++ drop (S k) l.

(** [l.slice(0)]: a copy of the whole array. *)
Definition slice0 (l : list Z) : list Z := drop 0 l.

(** ** The data model *)

Record Square := mkSquare { row : Z; col : Z; value : Z; domain : list Z }.

Global Instance Square_eq_dec : EqDecision Square.
Proof. solve_decision. Defined.

Abbreviation Squares := (list (list Square)).

Record SudokuCSP := mkCSP { squares : Squares; failure : bool }.

Global Instance SudokuCSP_eq_dec : EqDecision SudokuCSP.
Proof. solve_decision. Defined.

(** [squares[i][j]]; [None] when either index is out of range, where the
    source goes on to read a property of [undefined]. *)
Definition at2 (s : Squares) (i j : nat) : option Square :=
  s !! i ≫= λ r, r !! j.

(** Apply [f] to the square at [(i,j)], in place. *)
Definition upd (s : Squares) (i j : nat) (f : Square → Square) : Squares :=
  alter (alter f j) i s.

Definition with_value (v : Z) (q : Square) : Square :=
  mkSquare (row q) (col q) v (domain q).

Definition with_domain (d : list Z) (q : Square) : Square :=
  mkSquare (row q) (col q) (value q) d.

(** [squares[i][j].value = v] *)
Definition set_value (s : Squares) (i j : nat) (v : Z) : option Squares :=
  _ ← at2 s i j; Some (upd s i j (with_value v)).

(** [squares[i][j].domain = d] *)
Definition set_domain (s : Squares) (i j : nat) (d : list Z) : option Squares :=
  _ ← at2 s i j; Some (upd s i j (with_domain d)).

(** An array index held in a number: a negative one reads [undefined]. *)
Definition idx (z : Z) : option nat :=
  if (z <? 0)%Z then None else Some (Z.to_nat z).

(** ** Loops with an early [return] *)

Inductive flow (St R : Type) : Type :=
| Next (s : St)
| Return (r : R).
Arguments Next {St R} s.
Arguments Return {St R} r.

(** [for (i of ixs) body]: the body either hands on the state or returns
    from the enclosing function. *)
Fixpoint for_ {St R : Type} (ixs : list nat) (body : nat → St → option (flow St R))
    (s : St) : option (flow St R) :=
  match ixs with
  | [] => Some (Next s)
  | i :: ixs' =>
      match body i s with
      | None => None
      | Some (Return r) => Some (Return r)
      | Some (Next s') => for_ ixs' body s'
      end
  end.

(** ** copySquares *)

Definition copySquare (s : Square) : Square :=
  mkSquare (row s) (col s) (value s) (slice0 (domain s)).

Definition copySquares (squares : Squares) : option Squares :=
  let n := length squares in
  mapM (λ i, mapM (λ j, s ← at2 squares i j; Some (copySquare s)) (seq 0 n))
       (seq 0 n).

(** [new SudokuCSP(squares, failure)] *)
Definition new_SudokuCSP (squares : Squares) (failure : bool) : option SudokuCSP :=
  sq ← copySquares squares; Some (mkCSP sq failure).

(** ** isFull and getEmptySquare *)

Definition isFull (squares : Squares) : option bool :=
  let n := length squares in
  r ← for_ (seq 0 n) (λ i (u : unit),
         for_ (seq 0 n) (λ j (u : unit),
           s ← at2 squares i j;
           if (value s =? 0)%Z then Some (Return false) else Some (Next u)) u) ();
  match r with
  | Return b => Some b
  | Next _ => Some true
  end.

Definition getEmptySquare (squares : Squares) : option Square :=
  let n := length squares in
  r ← for_ (seq 0 n) (λ i (u : unit),
         for_ (seq 0 n) (λ j (u : unit),
           s ← at2 squares i j;
           if (value s =? 0)%Z then Some (Return s) else Some (Next u)) u) ();
  match r with
  | Return s => Some s
  | Next _ => Some (mkSquare (-1) (-1) (-1) [])
  end.

(** ** updateDomains *)

(** [index = squares[i][j].domain.indexOf(v); if (index != -1 && cond) squares[i][j].domain.splice(index, 1)] *)
Definition prune (s : Squares) (i j : nat) (v : Z) (cond : bool) : option Squares :=
  q ← at2 s i j;
  match indexOf v (domain q) with
  | Some index =>
      if cond then Some (upd s i j (with_domain (splice1 index (domain q))))
      else Some s
  | None => Some s
  end.

(** [squares[i][j].domain.length == 0] *)
Definition domain_empty (s : Squares) (i j : nat) : option bool :=
  q ← at2 s i j; Some (length (domain q) =? 0).

(** The top-left corner of the 3x3 box, as the three [if]s compute it. *)
Definition box_start (x : nat) : nat :=
  let r := 0 in
  let r := if (0 <=? x) && (x <=? 2) then 0 else r in
  let r := if (3 <=? x) && (x <=? 5) then 3 else r in
  let r := if (6 <=? x) && (x <=? 8) then 6 else r in
  r.

Definition updateDomains (squares : Squares) (row col : nat) : option (bool * Squares) :=
  q ← at2 squares row col;
  let newValue := value q in
  if (newValue =? 0)%Z then Some (true, squares) else
  squares ← set_domain squares row col [newValue];
  r ← for_ (seq 0 (length squares)) (λ i (squares : Squares),
         squares ← prune squares row i newValue (negb (i =? col));
         squares ← prune squares i col newValue (negb (i =? row));
         e1 ← domain_empty squares row i;
         if (e1 : bool) then Some (Return (false, squares)) else
         e2 ← domain_empty squares i col;
         if (e2 : bool) then Some (Return (false, squares)) else Some (Next squares))
       squares;
  match r with
  | Return b => Some b
  | Next squares =>
      let r := box_start row in
      let c := box_start col in
      r ← for_ (seq r 3) (λ i (squares : Squares),
             for_ (seq c 3) (λ j (squares : Squares),
               squares ← prune squares i j newValue (negb ((i =? row) && (j =? col)));
               e ← domain_empty squares i j;
               if (e : bool) then Some (Return (false, squares)) else Some (Next squares))
             squares)
           squares;
      match r with
      | Return b => Some b
      | Next squares => Some (true, squares)
      end
  end.

(** ** updateAllDomains *)

Definition updateAllDomains (squares : Squares) : option (bool * Squares) :=
  let n := length squares in
  r ← for_ (seq 0 n) (λ i (squares : Squares),
         for_ (seq 0 n) (λ j (squares : Squares),
           '(valid, squares) ← updateDomains squares i j;
           if negb valid then Some (Return (false, squares)) else Some (Next squares))
         squares)
       squares;
  match r with
  | Return b => Some b
  | Next squares => Some (true, squares)
  end.

(** ** backtrack and solve *)

(** The recursion of the source is unbounded; [fuel] bounds its depth and
    [None] is also the answer when the fuel runs out. *)
Fixpoint backtrack (fuel : nat) (sudoku : SudokuCSP) : option SudokuCSP :=
  match fuel with
  | 0 => None
  | S fuel' =>
      full ← isFull (squares sudoku);
      if full : bool then Some sudoku else
      square ← getEmptySquare (squares sudoku);
      r ← for_ (seq 0 (length (domain square))) (λ i (u : unit),
             newSquares ← copySquares (squares sudoku);
             value ← domain square !! i;
             r ← idx (row square);
             c ← idx (col square);
             newSquares ← set_value newSquares r c value;
             '(success, newSquares) ← updateDomains newSquares r c;
             if success : bool then
               csp ← new_SudokuCSP newSquares false;
               result ← backtrack fuel' csp;
               if negb (failure result) then Some (Return result) else Some (Next u)
             else Some (Next u)) ();
      match r with
      | Return result => Some result
      | Next _ => new_SudokuCSP (squares sudoku) true
      end
  end.

Definition solve (fuel : nat) (squares : Squares) : option SudokuCSP :=
  newSquares ← copySquares squares;
  '(_, newSquares) ← updateAllDomains newSquares;
  csp ← new_SudokuCSP newSquares false;
  backtrack fuel csp.

(** ** The caller's board (controller.js) *)

(** The page builds every square once with the domain 1..9 and, on each
    click, stores the digits read from the form as the values. *)
Definition full_domain : list Z := [1; 2; 3; 4; 5; 6; 7; 8; 9]%Z.

Definition mkBoard (g : list (list Z)) : Squares :=
  imap (λ i r, imap (λ j v, mkSquare (Z.of_nat i) (Z.of_nat j) v full_domain) r) g.

Definition values (s : Squares) : list (list Z) := map (map value) s.

Definition empty_grid : list (list Z) := replicate 9 (replicate 9 0%Z).


(** A grid as the page reads it from the form: 9 rows of 9 numbers, each
    a digit or 0. *)
Definition wf_grid (g : list (list Z)) : Prop :=
  length g = 9 ∧ Forall (λ r : list Z, length r = 9 ∧ Forall (λ v, 0 ≤ v ≤ 9)%Z r) g.

Global Instance wf_grid_dec g : Decision (wf_grid g).
Proof. unfold wf_grid. apply _. Defined.

(** ** Boards, peers and solutions, as the properties speak of them *)

Definition dummy : Square := mkSquare 0 0 0 [].

(** The square at [(i,j)] of a board that has one there. *)
Definition cell (s : Squares) (i j : nat) : Square := default dummy (at2 s i j).

Definition shape9 (s : Squares) : Prop :=
  length s = 9 ∧ Forall (λ r : list Square, length r = 9) s.

(** Every in-range position satisfies [P]. *)
Definition all_cells (P : nat → nat → Prop) : Prop :=
  Forall (λ i, Forall (λ j, P i j) (seq 0 9)) (seq 0 9).

(** [remove the first occurrence of v]: one [indexOf] and [splice]. *)
Definition del1 (v : Z) (l : list Z) : list Z :=
  match indexOf v l with
  | Some k => splice1 k l
  | None => l
  end.

Definition prune_cell (v : Z) (cond : bool) (q : Square) : Square :=
  if cond then with_domain (del1 v (domain q)) q else q.

(** A square of a board in play: it knows its own position, its value is
    a digit or 0, and its domain is a duplicate-free array of digits. *)
Definition wf_square (i j : nat) (q : Square) : Prop :=
  row q = Z.of_nat i ∧ col q = Z.of_nat j ∧ (0 ≤ value q ≤ 9)%Z ∧
  NoDup (domain q) ∧ Forall (λ d, 1 ≤ d ≤ 9)%Z (domain q).

Definition wf_board (s : Squares) : Prop :=
  shape9 s ∧ all_cells (λ i j, wf_square i j (cell s i j)).

(** A board as the page hands it to [solve]: digits or 0 as values, and
    the domain 1..9 everywhere. *)
Definition wf_input (s : Squares) : Prop :=
  shape9 s ∧
  all_cells (λ i j, row (cell s i j) = Z.of_nat i ∧ col (cell s i j) = Z.of_nat j ∧
                    (0 ≤ value (cell s i j) ≤ 9)%Z ∧ domain (cell s i j) = full_domain).

Definition same_box (r c r' c' : nat) : Prop := r / 3 = r' / 3 ∧ c / 3 = c' / 3.

(** Another square of the same row, column or 3x3 box. *)
Definition peer (r c r' c' : nat) : Prop :=
  (r ≠ r' ∨ c ≠ c') ∧ (r = r' ∨ c = c' ∨ same_box r c r' c').

(** [s'] is [s] with some occurrences of [v] spliced out of some domains:
    positions, values and the board's shape are the same. *)
Definition pruned (v : Z) (s s' : Squares) : Prop :=
  shape9 s' ∧
  ∀ i j, i < 9 → j < 9 →
    row (cell s' i j) = row (cell s i j) ∧
    col (cell s' i j) = col (cell s i j) ∧
    value (cell s' i j) = value (cell s i j) ∧
    ∃ n, domain (cell s' i j) = Nat.iter n (del1 v) (domain (cell s i j)).

(** Where [updateDomains] stands while it walks the peers of [(r,c)]:
    [s0] is the board once the domain of [(r,c)] has been set, [V] the
    peers visited so far. *)
Definition trackP (s0 : Squares) (r c : nat) (v : Z)
    (V : nat → nat → Prop) (s : Squares) : Prop :=
  pruned v s0 s ∧
  (∀ a b, a < 9 → b < 9 → ¬ peer r c a b → cell s a b = cell s0 a b) ∧
  (∀ a b, a < 9 → b < 9 → peer r c a b → V a b →
     NoDup (domain (cell s0 a b)) → v ∉ domain (cell s a b)).

Definition trackN (r c : nat) (V : nat → nat → Prop) (s : Squares) : Prop :=
  ∀ a b, a < 9 → b < 9 → peer r c a b → V a b → domain (cell s a b) ≠ [].

(** The state in which [updateDomains] executes a [return false]. *)
Definition stopped (s0 : Squares) (r c : nat) (v : Z) (res : bool * Squares) : Prop :=
  res.1 = false ∧ trackP s0 r c v (λ _ _, False) res.2 ∧
  ∃ a b, a < 9 ∧ b < 9 ∧ peer r c a b ∧ domain (cell res.2 a b) = [].

(** Positions, values and shape agree. *)
Definition same_frame (s s' : Squares) : Prop :=
  shape9 s' ∧
  ∀ i j, i < 9 → j < 9 →
    row (cell s' i j) = row (cell s i j) ∧
    col (cell s' i j) = col (cell s i j) ∧
    value (cell s' i j) = value (cell s i j).

(** Every value that is set in [s] is the same in [s']. *)
Definition keeps_givens (s s' : Squares) : Prop :=
  ∀ i j, i < 9 → j < 9 →
    value (cell s i j) ≠ 0%Z → value (cell s' i j) = value (cell s i j).

Definition full (s : Squares) : Prop :=
  all_cells (λ i j, value (cell s i j) ≠ 0%Z).

(** The 81 positions, row by row. *)
Definition positions : list (nat * nat) :=
  i ← seq 0 9; j ← seq 0 9; [(i, j)].

(** The number of squares with value 0. *)
Definition count_empty (s : Squares) : nat :=
  length (filter (λ p, value (cell s p.1 p.2) = 0%Z) positions).

Definition occurrences (d : Z) (l : list Z) : nat :=
  length (filter (λ x, x = d) l).

Definition each_digit_once (l : list Z) : Prop :=
  Forall (λ d, occurrences d l = 1) full_domain.

Definition row_values (s : Squares) (i : nat) : list Z :=
  (λ j, value (cell s i j)) <$> seq 0 9.

Definition col_values (s : Squares) (j : nat) : list Z :=
  (λ i, value (cell s i j)) <$> seq 0 9.

Definition box_values (s : Squares) (k : nat) : list Z :=
  (λ m, value (cell s (3 * (k / 3) + m / 3) (3 * (k mod 3) + m mod 3))) <$> seq 0 9.

(** Every row, every column and every 3x3 box holds each of the digits
    1..9 exactly once. *)
Definition solved (s : Squares) : Prop :=
  Forall (λ k, each_digit_once (row_values s k) ∧
               each_digit_once (col_values s k) ∧
               each_digit_once (box_values s k)) (seq 0 9).

(** Two peers hold the same nonzero value. *)
Definition duplicate_at (s : Squares) (r c r' c' : nat) : Prop :=
  r < 9 ∧ c < 9 ∧ r' < 9 ∧ c' < 9 ∧ peer r c r' c' ∧
  value (cell s r c) ≠ 0%Z ∧ value (cell s r c) = value (cell s r' c').

(** One iteration of the candidate loop of [backtrack], up to the board
    it hands to the recursive call. *)
Definition trial (squares : Squares) (square : Square) (value : Z) : option (bool * Squares) :=
  newSquares ← copySquares squares;
  r ← idx (row square);
  c ← idx (col square);
  newSquares ← set_value newSquares r c value;
  updateDomains newSquares r c.

(** All of these are decidable, so they can be checked on a given board. *)
Global Instance shape9_dec s : Decision (shape9 s).
Proof. unfold shape9. apply _. Defined.

Global Instance all_cells_dec (P : nat → nat → Prop) `{∀ i j, Decision (P i j)} :
  Decision (all_cells P).
Proof. unfold all_cells. apply _. Defined.

Global Instance wf_square_dec i j q : Decision (wf_square i j q).
Proof. unfold wf_square. apply _. Defined.

Global Instance wf_board_dec s : Decision (wf_board s).
Proof. unfold wf_board. apply _. Defined.

Global Instance wf_input_dec s : Decision (wf_input s).
Proof. unfold wf_input. apply _. Defined.

Global Instance full_dec s : Decision (full s).
Proof. unfold full. apply _. Defined.

Global Instance peer_dec r c r' c' : Decision (peer r c r' c').
Proof. unfold peer, same_box. apply _. Defined.

Global Instance solved_dec s : Decision (solved s).
Proof. unfold solved, each_digit_once. apply _. Defined.

Global Instance duplicate_at_dec s r c r' c' : Decision (duplicate_at s r c r' c').
Proof. unfold duplicate_at. apply _. Defined.

(** The domains of a board are arrays without repetition. *)
Definition nodup_domains (s : Squares) : Prop :=
  all_cells (λ i j, NoDup (domain (cell s i j))).

(** ** Boards used as examples *)

(** Two 5s in the first row, nothing else. *)
Definition dup_grid : list (list Z) :=
  [5; 5; 0; 0; 0; 0; 0; 0; 0]%Z :: replicate 8 (replicate 9 0%Z).

(** The board [updateAllDomains] has reached on [dup_grid] when it turns
    to the second 5: the first one has been propagated. *)
Definition dup_board_1 : Squares :=
  default [] (snd <$> updateDomains (mkBoard dup_grid) 0 0).

(** The grid the solver finds for the empty board. *)
Definition solved_grid : list (list Z) :=
  [ [1; 2; 3; 4; 5; 6; 7; 8; 9];
    [4; 5; 6; 7; 8; 9; 1; 2; 3];
    [7; 8; 9; 1; 2; 3; 4; 5; 6];
    [2; 1; 4; 3; 6; 5; 8; 9; 7];
    [3; 6; 5; 8; 9; 7; 2; 1; 4];
    [8; 9; 7; 2; 1; 4; 3; 6; 5];
    [5; 3; 1; 6; 4; 2; 9; 7; 8];
    [6; 4; 2; 9; 7; 8; 5; 3; 1];
    [9; 7; 8; 5; 3; 1; 6; 4; 2] ]%Z.

(** [solved_grid] with its second digit overwritten by a second 1. *)
Definition full_dup_grid : list (list Z) :=
  <[0 := [1; 1; 3; 4; 5; 6; 7; 8; 9]%Z]> solved_grid.

(** [full_dup_grid] with its last square left empty. *)
Definition open_dup_grid : list (list Z) :=
  <[8 := [9; 7; 8; 5; 3; 1; 6; 4; 0]%Z]> full_dup_grid.

(** [solved_grid] with its last square left empty. *)
Definition open_grid : list (list Z) :=
  <[8 := [9; 7; 8; 5; 3; 1; 6; 4; 0]%Z]> solved_grid.

(** [solved_grid] without its two corner digits, on a board where the
    domain of the first corner is down to two candidates and the domain
    of the last corner is exhausted. *)
Definition dead_end_board : Squares :=
  upd (upd (mkBoard (<[0 := [0; 2; 3; 4; 5; 6; 7; 8; 9]%Z]>
                     (<[8 := [9; 7; 8; 5; 3; 1; 6; 4; 0]%Z]> solved_grid)))
           0 0 (with_domain [1; 2]%Z))
      8 8 (with_domain []).

(** * The same program on a heap of objects

    In the source a board is an array of arrays of references to [Square]
    objects, each of which refers to its domain array, and every function
    works on such references.  The module below embeds the program once
    more with the heap explicit, so that sharing can be stated: a heap is
    the list of the objects allocated so far, a location is an index in
    it, and [None] stands for a run outside the model: a TypeError, fuel
    that ran out, or a loop bound that changed under the loop. *)

Module Heap.

(** A location is an index in the heap. *)
Abbreviation loc := nat.

Inductive obj : Type :=
| ONums (xs : list Z)                         (* an array of numbers *)
| ORefs (xs : list loc)                       (* an array of references *)
| OSquare (row col value : Z) (domain : loc)  (* a Square *)
| OCSP (squares : loc) (failure : bool).      (* a SudokuCSP *)

Global Instance obj_eq_dec : EqDecision obj.
Proof. solve_decision. Defined.

Abbreviation heap := (list obj).

Definition M (A : Type) : Type := heap → option (A * heap).

Definition ret {A} (a : A) : M A := λ h, Some (a, h).

Definition bind {A B} (m : M A) (f : A → M B) : M B :=
  λ h, match m h with
       | Some (a, h') => f a h'
       | None => None
       end.

Definition throw {A} : M A := λ _, None.

Notation "'let*' x ':=' m 'in' k" := (bind m (λ x, k))
  (at level 10, x name, m at level 100, k at level 200).

(** *** Objects *)

Definition alloc (o : obj) : M loc := λ h, Some (length h, h ++ [o]).

Definition load (l : loc) : M obj :=
  λ h, match h !! l with
       | Some o => Some (o, h)
       | None => None
       end.

Definition store (l : loc) (o : obj) : M unit :=
  λ h, if decide (l < length h) then Some ((), <[l := o]> h) else None.

Definition get_nums (l : loc) : M (list Z) :=
  let* o := load l in
  match o with ONums xs => ret xs | _ => throw end.

Definition get_refs (l : loc) : M (list loc) :=
  let* o := load l in
  match o with ORefs xs => ret xs | _ => throw end.

(** [a.length] *)
Definition nums_length (a : loc) : M nat :=
  let* xs := get_nums a in ret (length xs).

Definition refs_length (a : loc) : M nat :=
  let* xs := get_refs a in ret (length xs).

(** [a[i]], read before a property of it is read: out of range is a
    TypeError. *)
Definition nums_at (a : loc) (i : nat) : M Z :=
  let* xs := get_nums a in
  match xs !! i with Some x => ret x | None => throw end.

Definition refs_at (a : loc) (i : nat) : M loc :=
  let* xs := get_refs a in
  match xs !! i with Some x => ret x | None => throw end.

(** [a[i] = x], for an index inside the array or just behind it. *)
Definition refs_set (a : loc) (i : nat) (x : loc) : M unit :=
  let* xs := get_refs a in
  if decide (i < length xs) then store a (ORefs (<[i := x]> xs))
  else if decide (i = length xs) then store a (ORefs (xs ++ [x]))
  else throw.

(** [a.indexOf(v)], [a.splice(k, 1)], [a.slice(0)] *)
Definition nums_indexOf (a : loc) (v : Z) : M (option nat) :=
  let* xs := get_nums a in ret (indexOf v xs).

Definition nums_splice (a : loc) (k : nat) : M unit :=
  let* xs := get_nums a in store a (ONums (splice1 k xs)).

Definition nums_slice0 (a : loc) : M loc :=
  let* xs := get_nums a in alloc (ONums (slice0 xs)).

(** The properties of a Square and of a SudokuCSP. *)
Definition sq_row (s : loc) : M Z :=
  let* o := load s in match o with OSquare r _ _ _ => ret r | _ => throw end.

Definition sq_col (s : loc) : M Z :=
  let* o := load s in match o with OSquare _ c _ _ => ret c | _ => throw end.

Definition sq_value (s : loc) : M Z :=
  let* o := load s in match o with OSquare _ _ v _ => ret v | _ => throw end.

Definition sq_domain (s : loc) : M loc :=
  let* o := load s in match o with OSquare _ _ _ d => ret d | _ => throw end.

Definition set_sq_value (s : loc) (v : Z) : M unit :=
  let* o := load s in
  match o with OSquare r c _ d => store s (OSquare r c v d) | _ => throw end.

Definition set_sq_domain (s : loc) (d : loc) : M unit :=
  let* o := load s in
  match o with OSquare r c v _ => store s (OSquare r c v d) | _ => throw end.

Definition csp_squares (p : loc) : M loc :=
  let* o := load p in match o with OCSP s _ => ret s | _ => throw end.

Definition csp_failure (p : loc) : M bool :=
  let* o := load p in match o with OCSP _ f => ret f | _ => throw end.

(** [squares[i][j]] *)
Definition at2 (squares : loc) (i j : nat) : M loc :=
  let* r := refs_at squares i in refs_at r j.

(** *** Loops *)

(** [for (i of ixs) body] *)
Fixpoint for_in {R : Type} (ixs : list nat) (body : nat → M (flow unit R)) : M (flow unit R) :=
  match ixs with
  | [] => ret (Next ())
  | i :: ixs' =>
      let* r := body i in
      match r with
      | Return x => ret (Return x)
      | Next _ => for_in ixs' body
      end
  end.

(** The loop below, unrolled over the indices under the bound [n] it read
    first; the bound is read again before every test. *)
Fixpoint for_guard {R : Type} (bound : M nat) (n : nat) (ixs : list nat)
    (body : nat → M (flow unit R)) : M (flow unit R) :=
  let* b := bound in
  if negb (b =? n) then throw else
  match ixs with
  | [] => ret (Next ())
  | i :: ixs' =>
      let* r := body i in
      match r with
      | Return x => ret (Return x)
      | Next _ => for_guard bound n ixs' body
      end
  end.

(** [for (var i = 0; i < bound; i++) body] *)
Definition for_to {R : Type} (bound : M nat) (body : nat → M (flow unit R)) : M (flow unit R) :=
  let* n := bound in for_guard bound n (seq 0 n) body.

(** *** The functions of sudoku.js *)

Definition copySquares (squares : loc) : M loc :=
  let* newSquares := alloc (ORefs []) in
  let* _ := for_to (R := unit) (refs_length squares) (λ i,
      let* newRow := alloc (ORefs []) in
      let* _ := refs_set newSquares i newRow in
      for_to (refs_length squares) (λ j,
        let* s := at2 squares i j in
        let* target := refs_at newSquares i in
        let* r := sq_row s in
        let* c := sq_col s in
        let* v := sq_value s in
        let* d := sq_domain s in
        let* d' := nums_slice0 d in
        let* s' := alloc (OSquare r c v d') in
        let* _ := refs_set target j s' in
        ret (Next ()))) in
  ret newSquares.

(** [new SudokuCSP(squares, failure)] *)
Definition new_SudokuCSP (squares : loc) (failure : bool) : M loc :=
  let* copy := copySquares squares in
  alloc (OCSP copy failure).

Definition isFull (squares : loc) : M bool :=
  let* r := for_to (refs_length squares) (λ i,
      for_to (refs_length squares) (λ j,
        let* s := at2 squares i j in
        let* v := sq_value s in
        if (v =? 0)%Z then ret (Return false) else ret (Next ()))) in
  match r with
  | Return b => ret b
  | Next _ => ret true
  end.

Definition getEmptySquare (squares : loc) : M loc :=
  let* r := for_to (refs_length squares) (λ i,
      for_to (refs_length squares) (λ j,
        let* s := at2 squares i j in
        let* v := sq_value s in
        if (v =? 0)%Z then
          let* s := at2 squares i j in ret (Return s)
        else ret (Next ()))) in
  match r with
  | Return s => ret s
  | Next _ =>
      let* d := alloc (ONums []) in
      alloc (OSquare (-1) (-1) (-1) d)
  end.

(** [index = squares[i][j].domain.indexOf(v); if (index != -1 && cond) squares[i][j].domain.splice(index, 1)] *)
Definition prune (squares : loc) (i j : nat) (v : Z) (cond : bool) : M unit :=
  let* s := at2 squares i j in
  let* d := sq_domain s in
  let* index := nums_indexOf d v in
  match index with
  | Some k =>
      if cond then
        let* s := at2 squares i j in
        let* d := sq_domain s in
        nums_splice d k
      else ret ()
  | None => ret ()
  end.

(** [squares[i][j].domain.length == 0] *)
Definition domain_empty (squares : loc) (i j : nat) : M bool :=
  let* s := at2 squares i j in
  let* d := sq_domain s in
  let* n := nums_length d in
  ret (n =? 0).

Definition updateDomains (squares : loc) (row col : nat) : M bool :=
  let* s := at2 squares row col in
  let* newValue := sq_value s in
  if (newValue =? 0)%Z then ret true else
  let* s := at2 squares row col in
  let* d := alloc (ONums [newValue]) in
  let* _ := set_sq_domain s d in
  let* r := for_to (refs_length squares) (λ i,
      let* _ := prune squares row i newValue (negb (i =? col)) in
      let* _ := prune squares i col newValue (negb (i =? row)) in
      let* e1 := domain_empty squares row i in
      if (e1 : bool) then ret (Return false) else
      let* e2 := domain_empty squares i col in
      if (e2 : bool) then ret (Return false) else ret (Next ())) in
  match r with
  | Return b => ret b
  | Next _ =>
      let r := box_start row in
      let c := box_start col in
      let* r := for_in (seq r 3) (λ i,
          for_in (seq c 3) (λ j,
            let* _ := prune squares i j newValue (negb ((i =? row) && (j =? col))) in
            let* e := domain_empty squares i j in
            if (e : bool) then ret (Return false) else ret (Next ()))) in
      match r with
      | Return b => ret b
      | Next _ => ret true
      end
  end.

Definition updateAllDomains (squares : loc) : M bool :=
  let* r := for_to (refs_length squares) (λ i,
      for_to (refs_length squares) (λ j,
        let* valid := updateDomains squares i j in
        if negb valid then ret (Return false) else ret (Next ()))) in
  match r with
  | Return b => ret b
  | Next _ => ret true
  end.

(** An index held in a property of a Square. *)
Definition index_of (z : Z) : M nat :=
  match idx z with Some i => ret i | None => throw end.

Fixpoint backtrack (fuel : nat) (sudoku : loc) : M loc :=
  match fuel with
  | 0 => throw
  | S fuel' =>
      let* sq := csp_squares sudoku in
      let* full := isFull sq in
      if full : bool then ret sudoku else
      let* sq := csp_squares sudoku in
      let* square := getEmptySquare sq in
      let* r := for_to (let* d := sq_domain square in nums_length d) (λ i,
          let* sq := csp_squares sudoku in
          let* newSquares := copySquares sq in
          let* d := sq_domain square in
          let* value := nums_at d i in
          let* r := sq_row square in
          let* r := index_of r in
          let* c := sq_col square in
          let* c := index_of c in
          let* target := at2 newSquares r c in
          let* _ := set_sq_value target value in
          let* r := sq_row square in
          let* r := index_of r in
          let* c := sq_col square in
          let* c := index_of c in
          let* success := updateDomains newSquares r c in
          if success : bool then
            let* csp := new_SudokuCSP newSquares false in
            let* result := backtrack fuel' csp in
            let* failed := csp_failure result in
            if negb failed then ret (Return result) else ret (Next ())
          else ret (Next ())) in
      match r with
      | Return result => ret result
      | Next _ =>
          let* sq := csp_squares sudoku in
          new_SudokuCSP sq true
      end
  end.

Definition solve (fuel : nat) (squares : loc) : M loc :=
  let* newSquares := copySquares squares in
  let* _ := updateAllDomains newSquares in
  let* csp := new_SudokuCSP newSquares false in
  backtrack fuel csp.

(** *** The caller's board (controller.js) *)

(** [new Square(i, j, 0, [])] with the digits 1..9 pushed on its domain,
    and then the value read from the form. *)
Definition page_square (i j : nat) (v : Z) : M loc :=
  let* d := alloc (ONums []) in
  let* s := alloc (OSquare (Z.of_nat i) (Z.of_nat j) 0 d) in
  let* _ := for_in (R := unit) (seq 1 9) (λ k,
      let* d := sq_domain s in
      let* xs := get_nums d in
      let* _ := store d (ONums (xs ++ [Z.of_nat k])) in
      ret (Next ())) in
  let* _ := set_sq_value s v in
  ret s.

Fixpoint page_row (i j : nat) (vs : list Z) : M (list loc) :=
  match vs with
  | [] => ret []
  | v :: vs' =>
      let* s := page_square i j v in
      let* ss := page_row i (S j) vs' in
      ret (s :: ss)
  end.

Fixpoint page_rows (i : nat) (g : list (list Z)) : M (list loc) :=
  match g with
  | [] => ret []
  | vs :: g' =>
      let* ss := page_row i 0 vs in
      let* r := alloc (ORefs ss) in
      let* rs := page_rows (S i) g' in
      ret (r :: rs)
  end.

Definition page_board (g : list (list Z)) : M loc :=
  let* rs := page_rows 0 g in alloc (ORefs rs).

(** *** Reading a board off the heap *)

Definition read_square (h : heap) (s : loc) : option Square :=
  match h !! s with
  | Some (OSquare r c v d) =>
      match h !! d with
      | Some (ONums xs) => Some (mkSquare r c v xs)
      | _ => None
      end
  | _ => None
  end.

Definition read_row (h : heap) (r : loc) : option (list Square) :=
  match h !! r with
  | Some (ORefs cells) => mapM (read_square h) cells
  | _ => None
  end.

(** The board of values that the array at [b] stands for. *)
Definition read_board (h : heap) (b : loc) : option Squares :=
  match h !! b with
  | Some (ORefs rows) => mapM (read_row h) rows
  | _ => None
  end.

(** The locations a board is made of: the array of rows, the rows, the
    squares and their domain arrays. *)
Definition square_locs (h : heap) (s : loc) : list loc :=
  match h !! s with
  | Some (OSquare _ _ _ d) => [s; d]
  | _ => [s]
  end.

Definition row_locs (h : heap) (r : loc) : list loc :=
  match h !! r with
  | Some (ORefs cells) => r :: (cells ≫= square_locs h)
  | _ => [r]
  end.

Definition footprint (h : heap) (b : loc) : list loc :=
  match h !! b with
  | Some (ORefs rows) => b :: (rows ≫= row_locs h)
  | _ => [b]
  end.

(** The references an object holds. *)
Definition refs (o : obj) : list loc :=
  match o with
  | ONums _ => []
  | ORefs xs => xs
  | OSquare _ _ _ d => [d]
  | OCSP s _ => [s]
  end.

End Heap.

(** ** What a run may touch *)

(** [n0] is the size of the heap at some earlier point: the locations
    below it are old, the others new. *)
Definition is_new (n0 : nat) (l : Heap.loc) : Prop := n0 ≤ l.

(** The heap [h0] of that earlier point is intact in [h], and the new
    objects refer to new objects only. *)
Definition good (h0 h : list Heap.obj) : Prop :=
  h0 `prefix_of` h ∧
  ∀ l o, is_new (length h0) l → h !! l = Some o →
         Forall (is_new (length h0)) (Heap.refs o).

(** [m] keeps the heap [good], and what it returns satisfies [P]. *)
Definition pres {A} (h0 : list Heap.obj) (P : A → Prop) (m : Heap.M A) : Prop :=
  ∀ h a h', good h0 h → m h = Some (a, h') → good h0 h' ∧ P a.

Definition flowP {R} (P : R → Prop) (r : flow unit R) : Prop :=
  match r with
  | Next _ => True
  | Return x => P x
  end.

Definition anything {A} : A → Prop := λ _, True.

(** [h'] holds the same objects as [h] at the locations [L]. *)
Definition agree (L : list Heap.loc) (h h' : list Heap.obj) : Prop :=
  ∀ l, l ∈ L → h' !! l = h !! l.

(** An [n] by [n] board. *)
Definition square_grid (n : nat) (B : Squares) : Prop :=
  length B = n ∧ Forall (λ r : list Square, length r = n) B.

Global Instance square_grid_dec n B : Decision (square_grid n B).
Proof. unfold square_grid. apply _. Defined.

(** A board under construction at [nb] in [hh], on top of the heap [h]:
    it stands for [X], and the objects it is made of are new since [h]
    and pairwise distinct. *)
Definition building (h : list Heap.obj) (nb : Heap.loc) (X : Squares)
    (hh : list Heap.obj) : Prop :=
  h `prefix_of` hh ∧
  Heap.read_board hh nb = Some X ∧
  Forall (λ l, length h ≤ l < length hh) (Heap.footprint hh nb) ∧
  NoDup (Heap.footprint hh nb).

(** ** The invariant of the search *)

(** The square at [(i,j)], if it holds a value, has that value as its
    only candidate, and none of its peers has it as a candidate. *)
Definition settled (s : Squares) (i j : nat) : Prop :=
  value (cell s i j) ≠ 0%Z →
  domain (cell s i j) = [value (cell s i j)] ∧
  ∀ a b, a < 9 → b < 9 → peer i j a b → value (cell s i j) ∉ domain (cell s a b).

Definition consistent (s : Squares) : Prop :=
  wf_board s ∧ ∀ i j, i < 9 → j < 9 → settled s i j.

(** No two peers hold the same nonzero value. *)
Definition no_duplicate (s : Squares) : Prop :=
  all_cells (λ r c, all_cells (λ r' c',
    peer r c r' c' → value (cell s r c) ≠ 0%Z →
    value (cell s r c) ≠ value (cell s r' c'))).

Global Instance no_duplicate_dec s : Decision (no_duplicate s).
Proof. unfold no_duplicate. apply _. Defined.

(** The square at [(a,b)] is empty and has no candidate left. *)
Definition dead_at (a b : nat) (s : Squares) : Prop :=
  a < 9 ∧ b < 9 ∧ value (cell s a b) = 0%Z ∧ domain (cell s a b) = [].

(** ** A board on the heap, square by square *)

(** Where the board at [b] keeps its square [(i,j)], and where a square
    keeps its domain. *)
Definition sq_at (h : list Heap.obj) (b : Heap.loc) (i j : nat) : option Heap.loc :=
  match h !! b with
  | Some (Heap.ORefs rows) =>
      r ← rows !! i;
      match h !! r with
      | Some (Heap.ORefs cells) => cells !! j
      | _ => None
      end
  | _ => None
  end.

Definition dom_at (h : list Heap.obj) (s : Heap.loc) : option Heap.loc :=
  match h !! s with
  | Some (Heap.OSquare _ _ _ d) => Some d
  | _ => None
  end.

(** The array at [b] is an [n] by [n] board that stands for [B], no
    Square object sits at two positions and no domain array belongs to
    two squares. *)
Definition is_board (n : nat) (h : list Heap.obj) (b : Heap.loc) (B : Squares) : Prop :=
  square_grid n B ∧
  (∃ rows, h !! b = Some (Heap.ORefs rows) ∧ length rows = n ∧
     ∀ r, r ∈ rows → ∃ cells, h !! r = Some (Heap.ORefs cells) ∧ length cells = n) ∧
  (∀ i j q, at2 B i j = Some q →
     ∃ s d, sq_at h b i j = Some s ∧
       h !! s = Some (Heap.OSquare (row q) (col q) (value q) d) ∧
       h !! d = Some (Heap.ONums (domain q))) ∧
  (∀ i j i' j' s, sq_at h b i j = Some s → sq_at h b i' j' = Some s → i = i' ∧ j = j') ∧
  (∀ i j i' j' s s' d, sq_at h b i j = Some s → sq_at h b i' j' = Some s' →
     dom_at h s = Some d → dom_at h s' = Some d → i = i' ∧ j = j').

(** How an iteration of a loop of the state-passing program and one of
    the heap program end: both go on, in related states, or both return,
    with related values. *)
Definition flow_rel {St R R'} (Rel : St → list Heap.obj → Prop)
    (RelR : R → R' → list Heap.obj → Prop)
    (fl : flow St R) (fl' : flow unit R') (h : list Heap.obj) : Prop :=
  match fl, fl' with
  | Next s, Next _ => Rel s h
  | Return x, Return y => RelR x y h
  | _, _ => False
  end.

(** [dead_end_board] on the heap, under a SudokuCSP: the board of the
    page, with the two domains replaced. *)
Definition dead_end_heap : option (Heap.loc * list Heap.obj) :=
  Heap.bind (Heap.page_board (<[0 := [0; 2; 3; 4; 5; 6; 7; 8; 9]%Z]>
                              (<[8 := [9; 7; 8; 5; 3; 1; 6; 4; 0]%Z]> solved_grid))) (λ b,
  Heap.bind (Heap.at2 b 0 0) (λ s,
  Heap.bind (Heap.alloc (Heap.ONums [1; 2]%Z)) (λ d,
  Heap.bind (Heap.set_sq_domain s d) (λ _,
  Heap.bind (Heap.at2 b 8 8) (λ s,
  Heap.bind (Heap.alloc (Heap.ONums [])) (λ d,
  Heap.bind (Heap.set_sq_domain s d) (λ _,
  Heap.alloc (Heap.OCSP b false)))))))) [].

(** ** Solutions, the reading order and more boards *)

(** [t] is a solution of the puzzle [s]: a solved grid that holds the
    givens of [s]. *)
Definition solution_of (s t : Squares) : Prop :=
  shape9 t ∧ solved t ∧ keeps_givens s t.

Global Instance keeps_givens_dec s s' : Decision (keeps_givens s s').
Proof.
  destruct (decide (all_cells (λ i j, value (cell s i j) ≠ 0%Z →
                                value (cell s' i j) = value (cell s i j)))) as [H|H].
  - left. intros i j Hi Hj. unfold all_cells in H. rewrite Forall_forall in H.
    specialize (H i ltac:(apply elem_of_seq; lia)). rewrite Forall_forall in H.
    apply H, elem_of_seq. lia.
  - right. intros Hk. apply H. apply Forall_forall. intros i [_ Hi]%elem_of_seq.
    apply Forall_forall. intros j [_ Hj]%elem_of_seq. apply Hk; lia.
Defined.

Global Instance solution_of_dec s t : Decision (solution_of s t).
Proof. unfold solution_of. apply _. Defined.

(** [(a,b)] comes before [(i,j)] in the order of the two nested loops. *)
Definition before (a b i j : nat) : Prop := a < i ∨ (a = i ∧ b < j).

(** The square [getEmptySquare] returns when there is no empty one. *)
Definition no_square : Square := mkSquare (-1) (-1) (-1) [].

(** A board with three rows, of which the last is too short. *)
Definition ragged_board : Squares :=
  [ [dummy; dummy; dummy]; [dummy; dummy; dummy]; [dummy; dummy] ].

(** A board with two rows of three squares. *)
Definition wide_board : Squares :=
  [ [mkSquare 0 0 1 [1]; mkSquare 0 1 2 [2]; mkSquare 0 2 3 [3]];
    [mkSquare 1 0 4 [4]; mkSquare 1 1 5 [5]; mkSquare 1 2 6 [6]] ]%Z.

(** A grid without two equal peers and without a solution: the square
    [(6,5)] can only take 8, which its column holds already. *)
Definition stuck_grid : list (list Z) :=
  <[6 := [5; 3; 1; 6; 4; 0; 9; 7; 2]%Z]>
    (<[8 := [9; 7; 8; 5; 3; 1; 6; 4; 0]%Z]> solved_grid).

(** A full board with a duplicate under a SudokuCSP flagged as a
    failure, on the heap. *)
Definition full_dup_heap : option (Heap.loc * list Heap.obj) :=
  Heap.bind (Heap.page_board full_dup_grid) (λ b, Heap.alloc (Heap.OCSP b true)) [].






(** ** The click on Solve (controller.js) *)

Module Page.
Import Heap.

(** The form: its 81 number fields as the numbers they hold.  The click
    reads a field as [0] when it is empty and with [parseInt] otherwise,
    and writes the digits of the result back with [toString]. *)
Abbreviation form := (list (list Z)).

(** [document.getElementById(i.toString() + j.toString()).value], read
    and written; a field that does not exist is a TypeError. *)
Definition field (f : form) (i j : nat) : M Z :=
  match f !! i ≫= (.!! j) with
  | Some v => ret v
  | None => throw
  end.

Definition set_field (f : form) (i j : nat) (v : Z) : M form :=
  match f !! i ≫= (.!! j) with
  | Some _ => ret (alter (<[j := v]>) i f)
  | None => throw
  end.

(** A loop that runs to its end and writes the form. *)
Fixpoint for_form (ixs : list nat) (body : nat → form → M form) (f : form) : M form :=
  match ixs with
  | [] => ret f
  | i :: ixs' => let* f' := body i f in for_form ixs' body f'
  end.

(** [solveButtonClick()], on the squares of the page: the form after the
    click and the text under it. *)
Definition solveButtonClick (fuel : nat) (squares : loc) (f : form) : M (form * string) :=
  let* _ := for_in (R := unit) (seq 0 9) (λ i,
      for_in (seq 0 9) (λ j,
        let* value := field f i j in
        let* s := at2 squares i j in
        let* _ := set_sq_value s value in
        ret (Next ()))) in
  let* result := solve fuel squares in
  let* failed := csp_failure result in
  if negb failed then
    let* f := for_form (seq 0 9) (λ i f,
        for_form (seq 0 9) (λ j f,
          let* rs := csp_squares result in
          let* s := at2 rs i j in
          let* value := sq_value s in
          set_field f i j value) f) f in
    ret (f, "Success!" : string)
  else ret (f, "No solution exists!" : string).

End Page.

(** The number in the field [(i,j)] of a form. *)
Definition number (f : list (list Z)) (i j : nat) : Z :=
  default 0%Z (f !! i ≫= (.!! j)).

(** The board of the page between two clicks: a 9x9 array of squares at
    their positions, each with the domain 1..9, and no row, Square or
    domain array in two places. *)
Definition page_ready (h : list Heap.obj) (b : Heap.loc) : Prop :=
  (∃ g, Heap.read_board h b = Some (mkBoard g) ∧
        length g = 9 ∧ Forall (λ r : list Z, length r = 9) g) ∧
  NoDup (Heap.footprint h b).

(** ** Lemmas on arrays of numbers *)

Lemma indexOf_Some x l k : indexOf x l = Some k → l !! k = Some x ∧ x ∉ take k l.
Proof.
  revert k. induction l as [|y l IH]; intros k; simpl; [done|].
  destruct (decide (y = x)) as [->|Hne].
  - intros [= <-]. split; [done|]. simpl. apply not_elem_of_nil.
  - destruct (indexOf x l) as [k'|]; simpl; [|done].
    intros [= <-]. destruct (IH k' eq_refl) as [H1 H2]. split; [done|].
    simpl. rewrite elem_of_cons. intros [?|?]; [congruence|done].
Qed.

Lemma indexOf_None x l : indexOf x l = None ↔ x ∉ l.
Proof.
  induction l as [|y l IH]; simpl.
  - split; [intros _; apply not_elem_of_nil|done].
  - destruct (decide (y = x)) as [->|Hne].
    + split; [done|]. intros H. exfalso. apply H. by left.
    + rewrite elem_of_cons. destruct (indexOf x l); simpl.
      * split; [done|]. intros H. exfalso. apply H. right. by apply dec_stable; intros ?%IH.
      * split; [|done]. intros _ [?|?]; [congruence|]. by apply IH.
Qed.

Lemma del1_nil v : del1 v [] = [].
Proof. done. Qed.

Lemma del1_cons v y l :
  del1 v (y :: l) = if decide (y = v) then l else y :: del1 v l.
Proof.
  unfold del1. simpl. destruct (decide (y = v)); [done|].
  destruct (indexOf v l); simpl; done.
Qed.

Lemma del1_notin v l : v ∉ l → del1 v l = l.
Proof. intros H. unfold del1. by apply indexOf_None in H as ->. Qed.

Lemma del1_sublist v l : sublist (del1 v l) l.
Proof.
  induction l as [|y l IH]; [done|]. rewrite del1_cons.
  destruct (decide (y = v)); [by apply sublist_cons|by apply sublist_skip].
Qed.

Lemma elem_of_del1_ne v x l : x ≠ v → x ∈ del1 v l ↔ x ∈ l.
Proof.
  intros Hne. induction l as [|y l IH]; [done|]. rewrite del1_cons.
  destruct (decide (y = v)) as [->|]; rewrite !elem_of_cons; [|rewrite IH; tauto].
  split; [by right|]. intros [?|?]; [congruence|done].
Qed.

Lemma del1_NoDup v l : NoDup l → NoDup (del1 v l).
Proof. intros H. eapply sublist_NoDup; [done|apply del1_sublist]. Qed.

Lemma not_elem_of_del1 v l : NoDup l → v ∉ del1 v l.
Proof.
  induction l as [|y l IH]; [intros _; apply not_elem_of_nil|].
  intros [Hy Hl]%NoDup_cons. rewrite del1_cons.
  destruct (decide (y = v)) as [->|]; [done|].
  rewrite elem_of_cons. intros [?|?]; [congruence|]. by apply IH.
Qed.

Lemma del1_length_le v l : length (del1 v l) ≤ length l.
Proof. apply sublist_length, del1_sublist. Qed.

(** ** The loop rule *)

Lemma for_seq_inv {St R : Type} (I : nat → St → Prop) (Q : R → Prop)
    (body : nat → St → option (flow St R)) (a n : nat) (s0 : St) :
  I a s0 →
  (∀ k s, a ≤ k < a + n → I k s →
     match body k s with
     | Some (Next s') => I (S k) s'
     | Some (Return r) => Q r
     | None => False
     end) →
  match for_ (seq a n) body s0 with
  | Some (Next s') => I (a + n) s'
  | Some (Return r) => Q r
  | None => False
  end.
Proof.
  revert a s0. induction n as [|n IH]; intros a s0 H0 Hstep; simpl.
  - by rewrite Nat.add_0_r.
  - specialize (Hstep a s0 ltac:(lia) H0) as Hb.
    destruct (body a s0) as [[s1|r]|]; [|done|done].
    replace (a + S n) with (S a + n) by lia.
    apply IH; [done|]. intros k s Hk. apply Hstep. lia.
Qed.

(** ** Reading and writing squares *)

Lemma shape9_at2 s i j : shape9 s → i < 9 → j < 9 → at2 s i j = Some (cell s i j).
Proof.
  intros [Hl Hr] Hi Hj. unfold cell, at2.
  destruct (lookup_lt_is_Some_2 s i) as [r Hri]; [lia|].
  rewrite Hri. simpl.
  rewrite Forall_lookup in Hr. specialize (Hr _ _ Hri).
  destruct (lookup_lt_is_Some_2 r j) as [q Hq]; [lia|]. by rewrite Hq.
Qed.

Lemma shape9_upd s i j f : shape9 s → shape9 (upd s i j f).
Proof.
  intros [Hl Hr]. unfold upd. split; [by rewrite length_alter|].
  rewrite Forall_lookup in Hr |- *. intros k r.
  destruct (decide (k = i)) as [->|Hne].
  - rewrite list_lookup_alter_eq. destruct (s !! i) as [r0|] eqn:E; simpl; [|done].
    intros [= <-]. rewrite length_alter. by eapply Hr.
  - rewrite list_lookup_alter_ne by done. apply Hr.
Qed.

Lemma cell_upd s i j f a b :
  shape9 s → i < 9 → j < 9 →
  cell (upd s i j f) a b = if decide ((a, b) = (i, j)) then f (cell s i j) else cell s a b.
Proof.
  intros Hs Hi Hj. unfold cell at 1. unfold at2, upd.
  destruct (decide (a = i)) as [->|Hne].
  - rewrite list_lookup_alter_eq.
    pose proof (shape9_at2 s i j Hs Hi Hj) as Hij. unfold at2 in Hij.
    destruct (s !! i) as [r|] eqn:E; simpl in *; [|done].
    destruct (decide (b = j)) as [->|Hne].
    + rewrite list_lookup_alter_eq, Hij. simpl. by rewrite decide_True.
    + rewrite list_lookup_alter_ne by done. rewrite decide_False by congruence.
      unfold cell, at2. by rewrite E.
  - rewrite list_lookup_alter_ne by done. rewrite decide_False by congruence. done.
Qed.

Lemma all_cells_spec P : all_cells P ↔ ∀ i j, i < 9 → j < 9 → P i j.
Proof.
  unfold all_cells. rewrite Forall_forall. setoid_rewrite Forall_forall.
  setoid_rewrite elem_of_seq. split.
  - intros H i j Hi Hj. apply H; lia.
  - intros H i Hi j Hj. apply H; lia.
Qed.

Lemma board_ext s s' :
  shape9 s → shape9 s' → (∀ i j, i < 9 → j < 9 → cell s i j = cell s' i j) → s = s'.
Proof.
  intros Hs Hs' H.
  apply (list_eq_same_length _ _ 9); [apply Hs'|apply Hs|].
  intros i r r' Hi Hr Hr'.
  destruct Hs as [_ Hs], Hs' as [_ Hs'].
  rewrite Forall_lookup in Hs, Hs'.
  apply (list_eq_same_length _ _ 9); [by eapply Hs'|by eapply Hs|].
  intros j q q' Hj Hq Hq'.
  specialize (H i j Hi Hj). unfold cell, at2 in H.
  rewrite Hr, Hr' in H. simpl in H. by rewrite Hq, Hq' in H.
Qed.

Lemma upd_id s i j f :
  shape9 s → i < 9 → j < 9 → f (cell s i j) = cell s i j → upd s i j f = s.
Proof.
  intros Hs Hi Hj Hf. apply board_ext; [by apply shape9_upd|done|].
  intros a b Ha Hb. rewrite cell_upd by done. case_decide as E; [|done].
  injection E as -> ->. done.
Qed.

Lemma upd_ext s i j f g :
  shape9 s → i < 9 → j < 9 → f (cell s i j) = g (cell s i j) → upd s i j f = upd s i j g.
Proof.
  intros Hs Hi Hj Hf. apply board_ext; [by apply shape9_upd..|].
  intros a b Ha Hb. rewrite !cell_upd by done. by case_decide.
Qed.

Lemma with_domain_same q : with_domain (domain q) q = q.
Proof. by destruct q. Qed.

Lemma prune_eq s i j v cond :
  shape9 s → i < 9 → j < 9 → prune s i j v cond = Some (upd s i j (prune_cell v cond)).
Proof.
  intros Hs Hi Hj. unfold prune. rewrite shape9_at2 by done. simpl.
  destruct cond.
  - destruct (indexOf v (domain (cell s i j))) as [k|] eqn:E.
    + f_equal. apply upd_ext; [done..|]. unfold prune_cell, del1. by rewrite E.
    + f_equal. symmetry. apply upd_id; [done..|]. unfold prune_cell, del1.
      rewrite E. apply with_domain_same.
  - assert (upd s i j (prune_cell v false) = s) as -> by by apply upd_id.
    by destruct (indexOf v (domain (cell s i j))).
Qed.

Lemma domain_empty_eq s i j :
  shape9 s → i < 9 → j < 9 →
  domain_empty s i j = Some (bool_decide (domain (cell s i j) = [])).
Proof.
  intros Hs Hi Hj. unfold domain_empty. rewrite shape9_at2 by done. simpl.
  f_equal. by destruct (domain (cell s i j)).
Qed.

Lemma set_domain_eq s i j d :
  shape9 s → i < 9 → j < 9 → set_domain s i j d = Some (upd s i j (with_domain d)).
Proof. intros Hs Hi Hj. unfold set_domain. by rewrite shape9_at2. Qed.

Lemma set_value_eq s i j v :
  shape9 s → i < 9 → j < 9 → set_value s i j v = Some (upd s i j (with_value v)).
Proof. intros Hs Hi Hj. unfold set_value. by rewrite shape9_at2. Qed.

(** *** The relation [pruned] *)

Lemma pruned_shape v s s' : pruned v s s' → shape9 s'.
Proof. by intros [? _]. Qed.

Lemma pruned_refl v s : shape9 s → pruned v s s.
Proof. intros Hs. split; [done|]. intros i j _ _. repeat split. by exists 0. Qed.

Lemma pruned_trans v s1 s2 s3 : pruned v s1 s2 → pruned v s2 s3 → pruned v s1 s3.
Proof.
  intros [_ H12] [Hs3 H23]. split; [done|]. intros i j Hi Hj.
  destruct (H12 i j Hi Hj) as (Hr & Hc & Hv & n & Hd).
  destruct (H23 i j Hi Hj) as (Hr' & Hc' & Hv' & m & Hd').
  repeat split; [congruence..|]. exists (m + n).
  by rewrite Nat.iter_add, <- Hd.
Qed.

Lemma pruned_upd v s i j cond :
  shape9 s → i < 9 → j < 9 → pruned v s (upd s i j (prune_cell v cond)).
Proof.
  intros Hs Hi Hj. split; [by apply shape9_upd|]. intros a b Ha Hb.
  rewrite cell_upd by done. case_decide as E.
  - injection E as -> ->. destruct cond; simpl; repeat split; first [by exists 1|by exists 0].
  - repeat split. by exists 0.
Qed.

Lemma iter_del1_NoDup v n l : NoDup l → NoDup (Nat.iter n (del1 v) l).
Proof. intros H. induction n; simpl; [done|by apply del1_NoDup]. Qed.

Lemma iter_del1_sublist v n l : sublist (Nat.iter n (del1 v) l) l.
Proof.
  induction n; simpl; [done|]. etrans; [apply del1_sublist|done].
Qed.

Lemma elem_of_iter_del1_ne v n x l : x ≠ v → x ∈ Nat.iter n (del1 v) l ↔ x ∈ l.
Proof. intros Hne. induction n; simpl; [done|]. by rewrite elem_of_del1_ne. Qed.

(** *** Walking the peers *)

Ltac Zify.zify_post_hook ::= Z.div_mod_to_equations.

Arguments for_ : simpl never.

Lemma box_start_eq x : x < 9 → box_start x = 3 * (x / 3).
Proof. intros H. do 9 (destruct x as [|x]; [done|]). lia. Qed.

Lemma bind_Some {A B} (x : A) (f : A → option B) : Some x ≫= f = f x.
Proof. done. Qed.

(** Hand a loop rule its two premises: the step, the start, then go on. *)
Ltac feed_loop H :=
  cbv beta in H;
  lapply H; [clear H; intros H; lapply H; [clear H; intros H|]|]; cycle 1.

(** Case analysis on the outcome of the loop in the goal. *)
Tactic Notation "destruct_loop" "as" simple_intropattern(pat) :=
  match goal with
  | |- context [for_ ?l ?body ?s] => destruct (for_ l body s) as pat
  end.

Section walk.
Context (s0 : Squares) (r c : nat) (v : Z).
Context (Hs0 : shape9 s0) (Hr : r < 9) (Hc : c < 9).
Context (Hv : domain (cell s0 r c) = [v]).

Lemma trackP_start : trackP s0 r c v (λ _ _, False) s0.
Proof. split; [by apply pruned_refl|]. split; [done|]. by intros. Qed.

Lemma trackP_mono (V V' : nat → nat → Prop) s :
  (∀ a b, a < 9 → b < 9 → peer r c a b → V' a b → V a b) →
  trackP s0 r c v V s → trackP s0 r c v V' s.
Proof.
  intros HV (H1 & H2 & H3). split; [done|split; [done|]].
  intros a b Ha Hb Hp HV' Hnd. apply H3; auto.
Qed.

Lemma trackN_mono (V V' : nat → nat → Prop) s :
  (∀ a b, a < 9 → b < 9 → peer r c a b → V' a b → V a b) →
  trackN r c V s → trackN r c V' s.
Proof. intros HV H a b Ha Hb Hp HV'. apply H; auto. Qed.

Lemma trackP_visit (V : nat → nat → Prop) s i j cond :
  trackP s0 r c v V s → i < 9 → j < 9 →
  (cond = true ↔ (r ≠ i ∨ c ≠ j)) →
  (r = i ∨ c = j ∨ same_box r c i j) →
  trackP s0 r c v (λ a b, V a b ∨ (a = i ∧ b = j)) (upd s i j (prune_cell v cond)).
Proof.
  intros (H1 & H2 & H3) Hi Hj Hcond Hij.
  pose proof (pruned_shape _ _ _ H1) as Hs.
  split; [|split].
  - eapply pruned_trans; [done|]. by apply pruned_upd.
  - intros a b Ha Hb Hp. rewrite cell_upd by done. case_decide as E; [|by apply H2].
    injection E as -> ->. rewrite <- H2 by done.
    destruct cond; [|done]. exfalso. apply Hp. split; [by apply Hcond|done].
  - intros a b Ha Hb Hp HV Hnd. rewrite cell_upd by done. case_decide as E.
    + injection E as -> ->. destruct Hp as [Hne _].
      apply Hcond in Hne as ->. simpl. apply not_elem_of_del1.
      destruct H1 as [_ H1]. destruct (H1 i j Hi Hj) as (_ & _ & _ & n & ->).
      by apply iter_del1_NoDup.
    + destruct HV as [HV|[-> ->]]; [|done]. by apply H3.
Qed.

Lemma trackN_frame (V : nat → nat → Prop) s i j f :
  shape9 s → i < 9 → j < 9 → trackN r c V s →
  trackN r c (λ a b, V a b ∧ ¬ (a = i ∧ b = j)) (upd s i j f).
Proof.
  intros Hs Hi Hj H a b Ha Hb Hp [HV Hne]. rewrite cell_upd by done.
  case_decide as E; [|by apply H]. injection E as -> ->. by destruct Hne.
Qed.

Lemma trackN_check (V : nat → nat → Prop) s i j :
  trackN r c V s → domain (cell s i j) ≠ [] →
  trackN r c (λ a b, V a b ∨ (a = i ∧ b = j)) s.
Proof. intros H Hne a b Ha Hb Hp [HV|[-> ->]]; [by apply H|done]. Qed.

Lemma self_nonempty (V : nat → nat → Prop) s :
  trackP s0 r c v V s → domain (cell s r c) ≠ [].
Proof.
  intros (_ & H2 & _). rewrite H2, Hv; [done..|]. intros [[?|?] _]; done.
Qed.

Lemma stopped_intro (V : nat → nat → Prop) s i j :
  trackP s0 r c v V s → i < 9 → j < 9 →
  (r = i ∨ c = j ∨ same_box r c i j) →
  domain (cell s i j) = [] → stopped s0 r c v (false, s).
Proof.
  intros HP Hi Hj Hij He. split; [done|].
  split; [eapply trackP_mono; [|exact HP]; by intros|].
  exists i, j. repeat split; [done..| |done|done].
  destruct (decide (r = i)) as [<-|]; [|by left].
  destruct (decide (c = j)) as [<-|]; [|by right].
  by apply self_nonempty in HP.
Qed.

End walk.

(** The verdict and the board [updateDomains] leaves, for a square that
    holds a value. *)
Lemma updateDomains_spec s r c :
  shape9 s → r < 9 → c < 9 → value (cell s r c) ≠ 0%Z →
  let v := value (cell s r c) in
  let s0 := upd s r c (with_domain [v]) in
  ∃ b s', updateDomains s r c = Some (b, s') ∧
    trackP s0 r c v (λ _ _, b = true) s' ∧
    if b then trackN r c (λ _ _, True) s'
    else ∃ a b', a < 9 ∧ b' < 9 ∧ peer r c a b' ∧ domain (cell s' a b') = [].
Proof.
  intros Hs Hr Hc Hv0 v s0.
  assert (shape9 s0) as Hs0 by by apply shape9_upd.
  assert (domain (cell s0 r c) = [v]) as Hv.
  { unfold s0. rewrite cell_upd by done. by rewrite decide_True. }
  assert (∀ res, stopped s0 r c v res →
    ∃ b s', Some res = Some (b, s') ∧
      trackP s0 r c v (λ _ _, b = true) s' ∧
      if b then trackN r c (λ _ _, True) s'
      else ∃ a b', a < 9 ∧ b' < 9 ∧ peer r c a b' ∧ domain (cell s' a b') = [])
    as Hstop.
  { intros [b s'] (Hb & HP & He). simpl in *. subst b. exists false, s'.
    split; [done|]. split; [|done]. eapply trackP_mono; [|done]. done. }
  unfold updateDomains. rewrite shape9_at2 by done. rewrite bind_Some.
  apply Z.eqb_neq in Hv0 as ->. fold v.
  rewrite set_domain_eq by done. rewrite bind_Some. fold s0.
  replace (length s0) with 9 by (symmetry; apply Hs0).
  rewrite !box_start_eq by done.
  set (V1 := λ k a b, (a = r ∧ b < k) ∨ (b = c ∧ a < k)).
  match goal with |- context [for_ (seq 0 9) ?body s0] =>
    pose proof (for_seq_inv
      (λ k s1, trackP s0 r c v (V1 k) s1 ∧ trackN r c (V1 k) s1)
      (stopped s0 r c v) body 0 9 s0) as Hloop
  end.
  feed_loop Hloop.
  { intros k s1 Hk [HP HN].
    pose proof (pruned_shape _ _ _ (proj1 HP)) as Hs1.
    assert (k < 9) as Hk9 by lia.
    rewrite prune_eq, bind_Some by done.
    rewrite prune_eq, bind_Some by (by try apply shape9_upd).
    rewrite (domain_empty_eq _ r k), bind_Some by (by repeat apply shape9_upd).
    set (sB := upd (upd s1 r k _) k c _).
    assert (trackP s0 r c v (λ a b, (V1 k a b ∨ (a = r ∧ b = k)) ∨ (a = k ∧ b = c)) sB) as HPB.
    { apply trackP_visit; [|done|done| |by right; left].
      - apply trackP_visit; [done|done|done| |by left].
        rewrite negb_true_iff, Nat.eqb_neq. lia.
      - rewrite negb_true_iff, Nat.eqb_neq. lia. }
    assert (trackN r c (λ a b, (V1 k a b ∧ ¬ (a = r ∧ b = k)) ∧ ¬ (a = k ∧ b = c)) sB) as HNB.
    { apply trackN_frame; [by apply shape9_upd|done..|]. by apply trackN_frame. }
    case_bool_decide as E1.
    { by apply (stopped_intro s0 r c v Hr Hc Hv _ sB r k HPB); [..|left|]. }
    rewrite (domain_empty_eq _ k c), bind_Some by (done || by repeat apply shape9_upd).
    case_bool_decide as E2.
    { by apply (stopped_intro s0 r c v Hr Hc Hv _ sB k c HPB); [..|right; left|]. }
    split.
    - eapply trackP_mono; [|done]. unfold V1. intros a b _ _ _ ?. lia.
    - eapply trackN_mono; [|apply (trackN_check _ _ _ _ k c (trackN_check _ _ _ _ r k HNB E1) E2)].
      unfold V1, peer. intros a b _ _ ? ?. lia. }
  { split; [|by intros a b _ _ _ [[_ ?]|[_ ?]]; lia].
    eapply trackP_mono; [|by apply trackP_start]. intros a b _ _ _ [[_ ?]|[_ ?]]; lia. }
  destruct (for_ (seq 0 9) _ s0) as [[s1|res]|]; [|by apply Hstop|done].
  rewrite bind_Some. destruct Hloop as [HP1 HN1].
  set (V2 := λ i a b, V1 9 a b ∨ (3 * (r / 3) ≤ a < i ∧ 3 * (c / 3) ≤ b < 3 * (c / 3) + 3)).
  match goal with |- context [for_ (seq (3 * (r / 3)) 3) ?body s1] =>
    pose proof (for_seq_inv
      (λ i s2, trackP s0 r c v (V2 i) s2 ∧ trackN r c (V2 i) s2)
      (stopped s0 r c v) body (3 * (r / 3)) 3 s1) as Hloop
  end.
  feed_loop Hloop.
  { intros i s2 Hi [HP2 HN2].
    set (V3 := λ j a b, V2 i a b ∨ (a = i ∧ 3 * (c / 3) ≤ b < j)).
    match goal with |- context [for_ (seq (3 * (c / 3)) 3) ?body s2] =>
      pose proof (for_seq_inv
        (λ j s3, trackP s0 r c v (V3 j) s3 ∧ trackN r c (V3 j) s3)
        (stopped s0 r c v) body (3 * (c / 3)) 3 s2) as Hin
    end.
    feed_loop Hin.
    { intros j s3 Hj [HP3 HN3].
      pose proof (pruned_shape _ _ _ (proj1 HP3)) as Hs3.
      assert (i < 9) as Hi9 by lia. assert (j < 9) as Hj9 by lia.
      rewrite prune_eq, bind_Some by done.
      rewrite domain_empty_eq, bind_Some by (by try apply shape9_upd).
      set (sC := upd s3 i j _).
      assert (trackP s0 r c v (λ a b, V3 j a b ∨ (a = i ∧ b = j)) sC) as HPC.
      { apply trackP_visit; [done|done|done| |].
        - rewrite negb_true_iff, andb_false_iff, !Nat.eqb_neq. lia.
        - right; right. unfold same_box. lia. }
      assert (trackN r c (λ a b, V3 j a b ∧ ¬ (a = i ∧ b = j)) sC) as HNC.
      { by apply trackN_frame. }
      case_bool_decide as E; simpl.
      { apply (stopped_intro s0 r c v Hr Hc Hv _ sC i j HPC); [done|done| |done].
        right; right. unfold same_box. lia. }
      split.
      - eapply trackP_mono; [|done]. unfold V3, V2, V1. intros a b _ _ _ ?. lia.
      - eapply trackN_mono; [|apply (trackN_check _ _ _ _ i j HNC E)].
        unfold V3, V2, V1. intros a b _ _ _ ?. lia. }
    { split.
      - eapply trackP_mono; [|done]. unfold V3, V2, V1. intros a b _ _ _ ?. lia.
      - eapply trackN_mono; [|done]. unfold V3, V2, V1. intros a b _ _ _ ?. lia. }
    destruct (for_ (seq (3 * (c / 3)) 3) _ s2) as [[s3|res]|]; [|done|done].
    destruct Hin as [HP3 HN3]. split.
    - eapply trackP_mono; [|done]. unfold V3, V2, V1. intros a b _ _ _ ?. lia.
    - eapply trackN_mono; [|done]. unfold V3, V2, V1. intros a b _ _ _ ?. lia. }
  { split.
    - eapply trackP_mono; [|done]. unfold V2, V1. intros a b _ _ _ ?. lia.
    - eapply trackN_mono; [|done]. unfold V2, V1. intros a b _ _ _ ?. lia. }
  destruct (for_ (seq (3 * (r / 3)) 3) _ s1) as [[s2|res]|]; [|by apply Hstop|done].
  rewrite bind_Some. destruct Hloop as [HP2 HN2].
  exists true, s2. split; [done|]. split.
  - eapply trackP_mono; [|done]. unfold V2, V1, peer, same_box. intros a b ? ? ? _. lia.
  - eapply trackN_mono; [|done]. unfold V2, V1, peer, same_box. intros a b ? ? ? _. lia.
Qed.

(** *** Boards in play stay boards in play *)

Lemma Forall_sublist_of {A} (P : A → Prop) (l k : list A) :
  sublist l k → Forall P k → Forall P l.
Proof.
  induction 1 as [|x l k _ IH|x l k _ IH]; intros H; [done|..];
    apply Forall_cons in H as [??]; [apply Forall_cons|]; auto.
Qed.

Lemma wf_board_shape s : wf_board s → shape9 s.
Proof. by intros [? _]. Qed.

Lemma wf_board_cell s i j : wf_board s → i < 9 → j < 9 → wf_square i j (cell s i j).
Proof. intros [_ H] Hi Hj. rewrite all_cells_spec in H. by apply H. Qed.

Lemma wf_board_upd s i j f :
  wf_board s → i < 9 → j < 9 → wf_square i j (f (cell s i j)) → wf_board (upd s i j f).
Proof.
  intros Hwf Hi Hj Hf. pose proof (wf_board_shape _ Hwf) as Hs.
  split; [by apply shape9_upd|]. apply all_cells_spec. intros a b Ha Hb.
  rewrite cell_upd by done. case_decide as E; [|by apply wf_board_cell].
  by injection E as -> ->.
Qed.

Lemma pruned_wf v s s' : pruned v s s' → wf_board s → wf_board s'.
Proof.
  intros [Hs' H] Hwf. split; [done|]. apply all_cells_spec. intros i j Hi Hj.
  destruct (H i j Hi Hj) as (Hr & Hc & Hv & n & Hd).
  destruct (wf_board_cell s i j Hwf Hi Hj) as (? & ? & ? & Hnd & Hdig).
  unfold wf_square. rewrite Hr, Hc, Hv, Hd. split_and!; try (done || lia).
  - by apply iter_del1_NoDup.
  - eapply Forall_sublist_of; [apply iter_del1_sublist|done].
Qed.

Lemma pruned_same_frame v s s' : pruned v s s' → same_frame s s'.
Proof.
  intros [Hs' H]. split; [done|]. intros i j Hi Hj.
  destruct (H i j Hi Hj) as (? & ? & ? & _). done.
Qed.

Lemma same_frame_refl s : shape9 s → same_frame s s.
Proof. intros Hs. split; [done|]. by intros. Qed.

Lemma same_frame_trans s1 s2 s3 : same_frame s1 s2 → same_frame s2 s3 → same_frame s1 s3.
Proof.
  intros [_ H12] [Hs3 H23]. split; [done|]. intros i j Hi Hj.
  destruct (H12 i j Hi Hj) as (? & ? & ?), (H23 i j Hi Hj) as (? & ? & ?).
  split_and!; congruence.
Qed.

Lemma same_frame_upd_domain s i j d :
  shape9 s → i < 9 → j < 9 → same_frame s (upd s i j (with_domain d)).
Proof.
  intros Hs Hi Hj. split; [by apply shape9_upd|]. intros a b Ha Hb.
  rewrite cell_upd by done. case_decide as E; [|done]. by injection E as -> ->.
Qed.

Lemma wf_input_board s : wf_input s → wf_board s.
Proof.
  intros [Hs H]. split; [done|]. rewrite all_cells_spec in H |- *.
  intros i j Hi Hj. destruct (H i j Hi Hj) as (? & ? & ? & Hd).
  unfold wf_square. rewrite Hd. split_and!; try (done || lia).
  - by apply (bool_decide_unpack _).
  - by apply (bool_decide_unpack _).
Qed.

Lemma updateDomains_zero s r c :
  shape9 s → r < 9 → c < 9 → value (cell s r c) = 0%Z →
  updateDomains s r c = Some (true, s).
Proof.
  intros Hs Hr Hc Hv. unfold updateDomains. rewrite shape9_at2 by done.
  rewrite bind_Some, Hv. done.
Qed.

Lemma updateDomains_wf s r c :
  wf_board s → r < 9 → c < 9 →
  ∃ b s', updateDomains s r c = Some (b, s') ∧ wf_board s' ∧ same_frame s s'.
Proof.
  intros Hwf Hr Hc. pose proof (wf_board_shape _ Hwf) as Hs.
  destruct (decide (value (cell s r c) = 0%Z)) as [Hv|Hv].
  - exists true, s. rewrite updateDomains_zero by done.
    split; [done|]. split; [done|]. by apply same_frame_refl.
  - destruct (updateDomains_spec s r c Hs Hr Hc Hv) as (b & s' & -> & [HP _] & _).
    exists b, s'. split; [done|].
    destruct (wf_board_cell s r c Hwf Hr Hc) as (Hrow & Hcol & Hval & _).
    split.
    + eapply pruned_wf; [done|]. apply wf_board_upd; [done..|].
      split_and!; simpl; try (done || lia).
      * apply NoDup_singleton.
      * apply Forall_singleton. lia.
    + eapply same_frame_trans; [|by eapply pruned_same_frame].
      by apply same_frame_upd_domain.
Qed.

(** *** copySquares, isFull, getEmptySquare *)

Lemma copySquare_id q : copySquare q = q.
Proof. by destruct q. Qed.

Lemma copySquares_id s : shape9 s → copySquares s = Some s.
Proof.
  intros Hs. unfold copySquares. replace (length s) with 9 by (symmetry; apply Hs).
  apply mapM_Some_2, Forall2_same_length_lookup_2.
  { rewrite length_seq. symmetry. apply Hs. }
  intros i i' r [-> Hi]%lookup_seq Hr. change (0 + i) with i.
  destruct Hs as [Hl Hrows]. rewrite Forall_lookup in Hrows.
  apply mapM_Some_2, Forall2_same_length_lookup_2.
  { rewrite length_seq. symmetry. by eapply Hrows. }
  intros j j' q [-> Hj]%lookup_seq Hq. change (0 + j) with j.
  unfold at2. rewrite Hr. simpl. rewrite Hq. simpl. by rewrite copySquare_id.
Qed.

Lemma new_SudokuCSP_eq s f : shape9 s → new_SudokuCSP s f = Some (mkCSP s f).
Proof. intros Hs. unfold new_SudokuCSP. by rewrite copySquares_id. Qed.

(** The two scanning loops find the first square with value 0, row by
    row, or run to the end when there is none. *)
Lemma scan_spec {R : Type} (ret : Square → R) s :
  shape9 s →
  let res := for_ (seq 0 9) (λ i (u : unit),
               for_ (seq 0 9) (λ j (u : unit),
                 q ← at2 s i j;
                 if (value q =? 0)%Z then Some (Return (ret q)) else Some (Next u)) u) () in
  (res = Some (Next ()) ∧ full s) ∨
  (∃ i j, i < 9 ∧ j < 9 ∧ res = Some (Return (ret (cell s i j))) ∧
          value (cell s i j) = 0%Z ∧
          ∀ a b, a < 9 → b < 9 → a < i ∨ (a = i ∧ b < j) → value (cell s a b) ≠ 0%Z).
Proof.
  intros Hs res.
  set (Q := λ x : R, ∃ i j, i < 9 ∧ j < 9 ∧ x = ret (cell s i j) ∧
          value (cell s i j) = 0%Z ∧
          ∀ a b, a < 9 → b < 9 → a < i ∨ (a = i ∧ b < j) → value (cell s a b) ≠ 0%Z).
  match goal with res := for_ _ ?body _ |- _ =>
    pose proof (for_seq_inv
      (λ i (_ : unit), ∀ a b, a < 9 → b < 9 → a < i → value (cell s a b) ≠ 0%Z)
      Q body 0 9 ()) as Hloop
  end.
  feed_loop Hloop.
  { intros i [] Hi HI.
    match goal with |- context [for_ _ ?body _] =>
      pose proof (for_seq_inv
        (λ j (_ : unit), ∀ b, b < j → value (cell s i b) ≠ 0%Z) Q body 0 9 ()) as Hin
    end.
    feed_loop Hin.
    { intros j [] Hj HJ. rewrite shape9_at2, bind_Some by (done || lia).
      destruct (value (cell s i j) =? 0)%Z eqn:E.
      - apply Z.eqb_eq in E. exists i, j. split_and!; [lia|lia|done|done|].
        intros a b Ha Hb [?|[-> ?]]; [by apply HI|by apply HJ].
      - apply Z.eqb_neq in E. intros b Hb.
        destruct (decide (b = j)) as [->|]; [done|]. apply HJ. lia. }
    { intros b Hb. lia. }
    destruct_loop as [[[]|x]|]; [|done|done].
    intros a b Ha Hb Hai. destruct (decide (a = i)) as [->|]; [by apply Hin|].
    apply HI; lia. }
  { intros a b _ _ Ha. lia. }
  fold res in Hloop. destruct res as [[[]|x]|]; [|right|done].
  - left. split; [done|]. apply all_cells_spec. intros i j Hi Hj. by apply Hloop.
  - destruct Hloop as (i & j & Hi & Hj & -> & Hv & Hfirst). by exists i, j.
Qed.

Lemma isFull_spec s :
  shape9 s →
  (isFull s = Some true ∧ full s) ∨
  (isFull s = Some false ∧ ∃ i j, i < 9 ∧ j < 9 ∧ value (cell s i j) = 0%Z).
Proof.
  intros Hs. unfold isFull. replace (length s) with 9 by (symmetry; apply Hs).
  pose proof (scan_spec (λ _, false) s Hs) as H. cbv beta zeta in H.
  destruct H as [[-> Hfull]|(i & j & Hi & Hj & -> & Hv & _)]; [by left|right].
  split; [done|]. by exists i, j.
Qed.

Lemma getEmptySquare_spec s :
  shape9 s → ¬ full s →
  ∃ i j, i < 9 ∧ j < 9 ∧ getEmptySquare s = Some (cell s i j) ∧
         value (cell s i j) = 0%Z ∧
         ∀ a b, a < 9 → b < 9 → a < i ∨ (a = i ∧ b < j) → value (cell s a b) ≠ 0%Z.
Proof.
  intros Hs Hnf. unfold getEmptySquare. replace (length s) with 9 by (symmetry; apply Hs).
  pose proof (scan_spec (λ q, q) s Hs) as H. cbv beta zeta in H.
  destruct H as [[_ Hfull]|(i & j & Hi & Hj & -> & Hv & Hfirst)]; [done|].
  by exists i, j.
Qed.

Lemma full_not_empty s i j : full s → i < 9 → j < 9 → value (cell s i j) ≠ 0%Z.
Proof. unfold full. rewrite all_cells_spec. auto. Qed.

(** *** updateAllDomains *)

Lemma updateAllDomains_wf s :
  wf_board s →
  ∃ b s', updateAllDomains s = Some (b, s') ∧ wf_board s' ∧ same_frame s s'.
Proof.
  intros Hwf. pose proof (wf_board_shape _ Hwf) as Hs.
  unfold updateAllDomains. replace (length s) with 9 by (symmetry; apply Hs).
  set (Q := λ res : bool * Squares, wf_board res.2 ∧ same_frame s res.2).
  match goal with |- context [for_ _ ?body s] =>
    pose proof (for_seq_inv (λ _ s', wf_board s' ∧ same_frame s s') Q body 0 9 s) as Hloop
  end.
  feed_loop Hloop.
  { intros i s1 Hi HI.
    match goal with |- context [for_ _ ?body s1] =>
      pose proof (for_seq_inv (λ _ s', wf_board s' ∧ same_frame s s') Q body 0 9 s1) as Hin
    end.
    feed_loop Hin.
    { intros j s2 Hj [Hwf2 Hfr2].
      destruct (updateDomains_wf s2 i j Hwf2) as (b & s3 & -> & Hwf3 & Hfr3); [lia..|].
      rewrite bind_Some. simpl.
      assert (same_frame s s3) by by eapply same_frame_trans.
      by destruct b. }
    { done. }
    by destruct_loop as [[s2|x]|]. }
  { split; [done|]. by apply same_frame_refl. }
  destruct_loop as [[s1|[b s1]]|]; [| |done]; rewrite bind_Some.
  - by exists true, s1.
  - by exists b, s1.
Qed.

(** *** Counting the empty squares *)

Lemma filter_length_ext {A} (P Q : A → Prop) `{∀ x, Decision (P x), ∀ x, Decision (Q x)}
    (l : list A) :
  (∀ x, x ∈ l → P x ↔ Q x) → length (filter P l) = length (filter Q l).
Proof.
  induction l as [|x l IH]; intros HPQ; [done|].
  rewrite !filter_cons.
  assert (P x ↔ Q x) as Hx by (apply HPQ; by left).
  assert (length (filter P l) = length (filter Q l)) as Hl.
  { apply IH. intros y Hy. apply HPQ. by right. }
  destruct (decide (P x)), (decide (Q x)); simpl; auto; tauto.
Qed.

Lemma filter_length_lt {A} (P Q : A → Prop) `{∀ x, Decision (P x), ∀ x, Decision (Q x)}
    (l : list A) (x0 : A) :
  (∀ x, x ∈ l → P x → Q x) → x0 ∈ l → Q x0 → ¬ P x0 →
  length (filter P l) < length (filter Q l).
Proof.
  induction l as [|x l IH]; intros HPQ Hin HQ0 HP0; [by apply elem_of_nil in Hin|].
  rewrite !filter_cons.
  assert (length (filter P l) ≤ length (filter Q l)) as Hle.
  { clear IH Hin. induction l as [|y l IHl]; [done|]. rewrite !filter_cons.
    assert (P y → Q y) by (apply HPQ; right; by left).
    assert (length (filter P l) ≤ length (filter Q l)).
    { apply IHl. intros z Hz. apply HPQ. apply elem_of_cons in Hz as [->|Hz]; [by left|].
      right. by right. }
    destruct (decide (P y)), (decide (Q y)); simpl; try lia. tauto. }
  assert (P x → Q x) by (apply HPQ; by left).
  apply elem_of_cons in Hin as [<-|Hin].
  - destruct (decide (P x0)), (decide (Q x0)); simpl; try tauto. lia.
  - assert (length (filter P l) < length (filter Q l)).
    { apply IH; [|done..]. intros y Hy. apply HPQ. by right. }
    destruct (decide (P x)), (decide (Q x)); simpl; try lia. tauto.
Qed.

Lemma elem_of_positions i j : (i, j) ∈ positions ↔ i < 9 ∧ j < 9.
Proof.
  unfold positions. rewrite list_elem_of_bind. setoid_rewrite list_elem_of_bind.
  setoid_rewrite elem_of_seq. setoid_rewrite list_elem_of_singleton. split.
  - intros (a & (b & [= -> ->] & Hb) & Ha). lia.
  - intros [Hi Hj]. exists i. split; [|lia]. exists j. split; [done|lia].
Qed.

Lemma count_empty_le s : count_empty s ≤ 81.
Proof. unfold count_empty. etrans; [apply length_filter|]. done. Qed.

Lemma count_empty_same_frame s s' : same_frame s s' → count_empty s' = count_empty s.
Proof.
  intros [_ H]. unfold count_empty. apply filter_length_ext.
  intros [i j] [Hi Hj]%elem_of_positions. simpl.
  destruct (H i j Hi Hj) as (_ & _ & ->). done.
Qed.

Lemma count_empty_set_value s i j v :
  shape9 s → i < 9 → j < 9 → value (cell s i j) = 0%Z → v ≠ 0%Z →
  count_empty (upd s i j (with_value v)) < count_empty s.
Proof.
  intros Hs Hi Hj H0 Hv. unfold count_empty.
  apply (filter_length_lt _ _ _ (i, j)).
  - intros [a b] [Ha Hb]%elem_of_positions. simpl.
    rewrite cell_upd by done. case_decide as E; [|done]. by injection E as -> ->.
  - by apply elem_of_positions.
  - done.
  - simpl. rewrite cell_upd by done. by rewrite decide_True.
Qed.

(** *** One candidate *)

Lemma idx_of_nat i : idx (Z.of_nat i) = Some i.
Proof.
  unfold idx. destruct (Z.ltb_spec (Z.of_nat i) 0); [lia|]. by rewrite Nat2Z.id.
Qed.

Lemma trial_eq s i j v :
  wf_board s → i < 9 → j < 9 →
  trial s (cell s i j) v = updateDomains (upd s i j (with_value v)) i j.
Proof.
  intros Hwf Hi Hj. pose proof (wf_board_shape _ Hwf) as Hs.
  destruct (wf_board_cell s i j Hwf Hi Hj) as (Hrow & Hcol & _).
  unfold trial. rewrite copySquares_id, bind_Some by done.
  rewrite Hrow, Hcol, !idx_of_nat, !bind_Some.
  by rewrite set_value_eq, bind_Some by done.
Qed.

Lemma wf_board_candidate s i j v :
  wf_board s → i < 9 → j < 9 → v ∈ domain (cell s i j) →
  (1 ≤ v ≤ 9)%Z ∧ wf_board (upd s i j (with_value v)).
Proof.
  intros Hwf Hi Hj Hv.
  destruct (wf_board_cell s i j Hwf Hi Hj) as (Hrow & Hcol & Hval & Hnd & Hdig).
  pose proof (proj1 (Forall_forall _ _) Hdig v Hv) as Hvd. simpl in Hvd.
  split; [done|]. apply wf_board_upd; [done..|].
  unfold wf_square. simpl. split_and!; done || lia.
Qed.

Lemma trial_wf s i j v :
  wf_board s → i < 9 → j < 9 →
  value (cell s i j) = 0%Z → v ∈ domain (cell s i j) →
  ∃ b s', trial s (cell s i j) v = Some (b, s') ∧ wf_board s' ∧
          same_frame (upd s i j (with_value v)) s' ∧
          count_empty s' < count_empty s.
Proof.
  intros Hwf Hi Hj H0 Hv. pose proof (wf_board_shape _ Hwf) as Hs.
  destruct (wf_board_candidate s i j v Hwf Hi Hj Hv) as [Hdig Hwf1].
  rewrite trial_eq by done.
  destruct (updateDomains_wf _ i j Hwf1 Hi Hj) as (b & s' & -> & Hwf' & Hfr).
  exists b, s'. split_and!; [done..|].
  rewrite (count_empty_same_frame _ _ Hfr). apply count_empty_set_value; [done..|lia].
Qed.

(** *** The search *)

Lemma backtrack_S fuel sudoku :
  backtrack (S fuel) sudoku =
    full ← isFull (squares sudoku);
    if full : bool then Some sudoku else
    square ← getEmptySquare (squares sudoku);
    r ← for_ (seq 0 (length (domain square))) (λ i (u : unit),
           newSquares ← copySquares (squares sudoku);
           value ← domain square !! i;
           r ← idx (row square);
           c ← idx (col square);
           newSquares ← set_value newSquares r c value;
           '(success, newSquares) ← updateDomains newSquares r c;
           if success : bool then
             csp ← new_SudokuCSP newSquares false;
             result ← backtrack fuel csp;
             if negb (failure result) then Some (Return result) else Some (Next u)
           else Some (Next u)) ();
    match r with
    | Return result => Some result
    | Next _ => new_SudokuCSP (squares sudoku) true
    end.
Proof. done. Qed.

Lemma not_full_intro s i j : i < 9 → j < 9 → value (cell s i j) = 0%Z → ¬ full s.
Proof. intros Hi Hj H0 Hf. by apply (full_not_empty s i j Hf). Qed.

(** What one iteration of the candidate loop computes, once the reads
    that cannot fail on a board in play are out of the way. *)
Lemma candidate_step fuel s i j k v (u : unit) :
  wf_board s → i < 9 → j < 9 → domain (cell s i j) !! k = Some v →
  (newSquares ← copySquares s;
   value ← domain (cell s i j) !! k;
   r ← idx (row (cell s i j));
   c ← idx (col (cell s i j));
   newSquares ← set_value newSquares r c value;
   '(success, newSquares) ← updateDomains newSquares r c;
   if success : bool then
     csp ← new_SudokuCSP newSquares false;
     result ← backtrack fuel csp;
     if negb (failure result) then Some (Return result) else Some (Next u)
   else Some (Next u)) =
  ('(success, newSquares) ← trial s (cell s i j) v;
   if success : bool then
     csp ← new_SudokuCSP newSquares false;
     result ← backtrack fuel csp;
     if negb (failure result) then Some (Return result) else Some (Next u)
   else Some (Next u)).
Proof.
  intros Hwf Hi Hj Hk. pose proof (wf_board_shape _ Hwf) as Hs.
  destruct (wf_board_cell s i j Hwf Hi Hj) as (Hrow & Hcol & _).
  unfold trial. rewrite copySquares_id, !bind_Some by done.
  rewrite Hk, bind_Some, Hrow, Hcol, !idx_of_nat, !bind_Some.
  by rewrite set_value_eq, !bind_Some by done.
Qed.

(** The search maintains any invariant of boards in play that every
    successful trial maintains, and returns within the fuel that the
    number of empty squares asks for. *)
Lemma backtrack_inv (Inv : Squares → Prop) :
  (∀ s, Inv s → wf_board s) →
  (∀ s i j v s', Inv s → i < 9 → j < 9 → value (cell s i j) = 0%Z →
     (∀ a b, a < 9 → b < 9 → a < i ∨ (a = i ∧ b < j) → value (cell s a b) ≠ 0%Z) →
     v ∈ domain (cell s i j) →
     trial s (cell s i j) v = Some (true, s') → Inv s') →
  ∀ fuel csp, Inv (squares csp) → count_empty (squares csp) < fuel →
  ∃ res, backtrack fuel csp = Some res ∧
    ((full (squares csp) ∧ res = csp) ∨
     (¬ full (squares csp) ∧
      (res = mkCSP (squares csp) true ∨
       (failure res = false ∧ full (squares res) ∧ Inv (squares res))))).
Proof.
  intros Hwf Hstep fuel. induction fuel as [|fuel IH]; intros csp HI Hfuel; [lia|].
  pose proof (Hwf _ HI) as Hwfs. pose proof (wf_board_shape _ Hwfs) as Hs.
  rewrite backtrack_S.
  destruct (isFull_spec _ Hs) as [[-> Hfull]|[-> (i0 & j0 & Hi0 & Hj0 & H0)]];
    rewrite bind_Some.
  { exists csp. split; [done|]. by left. }
  pose proof (not_full_intro _ _ _ Hi0 Hj0 H0) as Hnf.
  destruct (getEmptySquare_spec _ Hs Hnf) as (i & j & Hi & Hj & -> & Hv0 & Hfirst).
  rewrite bind_Some.
  set (Q := λ res : SudokuCSP, failure res = false ∧ full (squares res) ∧ Inv (squares res)).
  match goal with |- context [for_ ?l ?body ()] =>
    pose proof (for_seq_inv (λ _ _, True) Q body 0 (length (domain (cell (squares csp) i j))) ())
      as Hloop
  end.
  feed_loop Hloop.
  { intros k [] Hk _.
    destruct (lookup_lt_is_Some_2 (domain (cell (squares csp) i j)) k) as [v Hkv]; [lia|].
    rewrite (candidate_step _ _ _ _ _ _ _ Hwfs Hi Hj Hkv).
    assert (v ∈ domain (cell (squares csp) i j)) as Hvin by by eapply list_elem_of_lookup_2.
    destruct (trial_wf _ i j v Hwfs Hi Hj Hv0 Hvin) as (b & s' & Ht & Hwf' & Hfr & Hcnt).
    rewrite Ht, bind_Some. destruct b; [|done].
    rewrite new_SudokuCSP_eq, bind_Some by by apply wf_board_shape.
    pose proof (Hstep (squares csp) i j v s' HI Hi Hj Hv0 Hfirst Hvin Ht) as HI'.
    destruct (IH (mkCSP s' false) HI') as (res & -> & Hres); [simpl; lia|].
    rewrite bind_Some. destruct (failure res) eqn:Hf; simpl; [done|].
    destruct Hres as [[Hfull ->]|[_ [->|(_ & Hfull & HIr)]]]; done. }
  { done. }
  destruct_loop as [[[]|res]|]; [| |done]; rewrite bind_Some.
  - rewrite new_SudokuCSP_eq by done. eexists. split; [done|]. right. split; [done|]. by left.
  - exists res. split; [done|]. right. split; [done|]. by right.
Qed.

(** * The properties of the specification *)

(** ** Propagation *)

(** C6. On every 9x9 board and for every square [(r,c)] that holds a
    value, [updateDomains] returns, and it returns [true] exactly when
    every peer of [(r,c)] (same row, column or box) has a nonempty domain
    on the board it leaves; it returns [false] exactly when some peer's
    domain is empty there. *)
Theorem updateDomains_verdict s r c :
  shape9 s → r < 9 → c < 9 → value (cell s r c) ≠ 0%Z →
  ∃ b s', updateDomains s r c = Some (b, s') ∧
    (b = true ↔ ∀ a b', a < 9 → b' < 9 → peer r c a b' → domain (cell s' a b') ≠ []) ∧
    (b = false ↔ ∃ a b', a < 9 ∧ b' < 9 ∧ peer r c a b' ∧ domain (cell s' a b') = []).
Proof.
  intros Hs Hr Hc Hv.
  destruct (updateDomains_spec s r c Hs Hr Hc Hv) as (b & s' & Heq & _ & Hb).
  exists b, s'. split; [done|]. destruct b.
  - split; split; try done.
    + intros _ a b' Ha Hb' Hp. by apply Hb.
    + intros (a & b' & Ha & Hb' & Hp & He). by apply Hb in He.
  - destruct Hb as (a & b' & Ha & Hb' & Hp & He). split; split; try done.
    + intros H. by apply H in He.
    + intros _. by exists a, b'.
Qed.

Lemma updateDomains_verdict_witness :
  ∃ b s', updateDomains (mkBoard dup_grid) 0 0 = Some (b, s') ∧
    (b = true ↔ ∀ a b', a < 9 → b' < 9 → peer 0 0 a b' → domain (cell s' a b') ≠ []) ∧
    (b = false ↔ ∃ a b', a < 9 ∧ b' < 9 ∧ peer 0 0 a b' ∧ domain (cell s' a b') = []).
Proof.
  apply (updateDomains_verdict (mkBoard dup_grid) 0 0).
  - apply (bool_decide_unpack _). vm_compute. reflexivity.
  - lia.
  - lia.
  - vm_compute. discriminate.
Defined.

(** C3, as stated, fails: on the board reached after the first 5 of
    [dup_grid] has been propagated, [updateDomains] at the second 5 finds
    the domain of the first one empty, returns [false] in the first
    iteration and leaves 5 in the domain of the peer [(3,1)]. *)
Lemma updateDomains_stops_early :
  shape9 dup_board_1 ∧ nodup_domains dup_board_1 ∧
  value (cell dup_board_1 0 1) = 5%Z ∧ peer 0 1 3 1 ∧
  ∃ s', updateDomains dup_board_1 0 1 = Some (false, s') ∧
        5%Z ∈ domain (cell s' 3 1).
Proof.
  split_and!.
  - apply (bool_decide_unpack _). vm_compute. reflexivity.
  - apply (bool_decide_unpack _). vm_compute. reflexivity.
  - vm_compute. reflexivity.
  - apply (bool_decide_unpack _). vm_compute. reflexivity.
  - eexists. split; [vm_compute; reflexivity|].
    apply (bool_decide_unpack _). vm_compute. reflexivity.
Qed.

(** C3, amended. On every 9x9 board whose domains have no repetition and
    for every square [(r,c)] that holds a value [v], [updateDomains]
    returns and leaves [[v]] as the domain of [(r,c)]; when it returns
    [true], no peer of [(r,c)] retains [v] in its domain. *)
Theorem updateDomains_propagates s r c :
  shape9 s → nodup_domains s → r < 9 → c < 9 → value (cell s r c) ≠ 0%Z →
  ∃ b s', updateDomains s r c = Some (b, s') ∧
    domain (cell s' r c) = [value (cell s r c)] ∧
    (b = true → ∀ a b', a < 9 → b' < 9 → peer r c a b' →
       value (cell s r c) ∉ domain (cell s' a b')).
Proof.
  intros Hs Hnd Hr Hc Hv.
  destruct (updateDomains_spec s r c Hs Hr Hc Hv) as (b & s' & Heq & HP & _).
  exists b, s'. split; [done|]. destruct HP as (_ & Hsame & Hgone). split.
  - rewrite Hsame by (done || by intros [[?|?] _]).
    rewrite cell_upd by done. by rewrite decide_True.
  - intros Hb a b' Ha Hb' Hp. apply Hgone; [done..|].
    rewrite cell_upd by done. rewrite decide_False.
    + unfold nodup_domains in Hnd. rewrite all_cells_spec in Hnd. by apply Hnd.
    + intros [= -> ->]. by destruct Hp as [[?|?] _].
Qed.

Lemma updateDomains_propagates_witness :
  ∃ b s', updateDomains (mkBoard dup_grid) 0 0 = Some (b, s') ∧
    domain (cell s' 0 0) = [value (cell (mkBoard dup_grid) 0 0)] ∧
    (b = true → ∀ a b', a < 9 → b' < 9 → peer 0 0 a b' →
       value (cell (mkBoard dup_grid) 0 0) ∉ domain (cell s' a b')).
Proof.
  apply (updateDomains_propagates (mkBoard dup_grid) 0 0).
  - apply (bool_decide_unpack _). vm_compute. reflexivity.
  - apply (bool_decide_unpack _). vm_compute. reflexivity.
  - lia.
  - lia.
  - vm_compute. discriminate.
Defined.

(** ** More fuel changes nothing *)

Arguments backtrack : simpl never.

Lemma for_cons {St R : Type} (body : nat → St → option (flow St R)) i l s :
  for_ (i :: l) body s =
    match body i s with
    | None => None
    | Some (Return r) => Some (Return r)
    | Some (Next s') => for_ l body s'
    end.
Proof. done. Qed.

Lemma for_mono {St R : Type} (body body' : nat → St → option (flow St R)) l s y :
  (∀ i s x, body i s = Some x → body' i s = Some x) →
  for_ l body s = Some y → for_ l body' s = Some y.
Proof.
  intros Hb. revert s. induction l as [|i l IH]; intros s; [done|].
  rewrite !for_cons. destruct (body i s) as [x|] eqn:E; [|done].
  rewrite (Hb _ _ _ E). destruct x; [apply IH|done].
Qed.

Lemma bind_mono {A B} (m : option A) (f g : A → option B) y :
  (∀ x, f x = Some y → g x = Some y) → m ≫= f = Some y → m ≫= g = Some y.
Proof. intros H. destruct m; simpl; [apply H|done]. Qed.

Lemma bind_mono_l {A B} (m m' : option A) (f : A → option B) y :
  (∀ x, m = Some x → m' = Some x) → m ≫= f = Some y → m' ≫= f = Some y.
Proof. intros H. destruct m as [x|]; [|done]. by rewrite (H x). Qed.

Lemma backtrack_mono fuel csp res :
  backtrack fuel csp = Some res → backtrack (S fuel) csp = Some res.
Proof.
  revert csp res. induction fuel as [|fuel IH]; intros csp res; [done|].
  rewrite (backtrack_S (S fuel)), (backtrack_S fuel).
  apply bind_mono. intros []; [done|].
  apply bind_mono. intros sq.
  apply bind_mono_l. intros r. apply for_mono. clear r. intros i u r.
  do 5 (apply bind_mono; intros ?).
  apply bind_mono. intros [[] ?]; [|done].
  apply bind_mono. intros ?. apply bind_mono_l. intros ?. apply IH.
Qed.

Lemma backtrack_mono_le fuel fuel' csp res :
  fuel ≤ fuel' → backtrack fuel csp = Some res → backtrack fuel' csp = Some res.
Proof.
  induction 1 as [|fuel' _ IH]; [done|]. intros H. by apply backtrack_mono, IH.
Qed.

(** ** Boards and grids of values *)

Lemma values_ext s s' :
  shape9 s → shape9 s' →
  (∀ i j, i < 9 → j < 9 → value (cell s i j) = value (cell s' i j)) →
  values s = values s'.
Proof.
  intros Hs Hs' H. unfold values.
  apply (list_eq_same_length _ _ 9); [rewrite length_map; apply Hs'|rewrite length_map; apply Hs|].
  intros i r r' Hi. rewrite !list_lookup_fmap.
  destruct (s !! i) as [x|] eqn:Hx, (s' !! i) as [x'|] eqn:Hx'; simpl; try done.
  intros [= <-] [= <-].
  destruct Hs as [_ Hrows], Hs' as [_ Hrows']. rewrite Forall_lookup in Hrows, Hrows'.
  apply (list_eq_same_length _ _ 9);
    [rewrite length_map; by eapply Hrows'|rewrite length_map; by eapply Hrows|].
  intros j v v' Hj. rewrite !list_lookup_fmap.
  specialize (H i j Hi Hj). unfold cell, at2 in H. rewrite Hx, Hx' in H. simpl in H.
  destruct (x !! j), (x' !! j); simpl in *; try done. by intros [= <-] [= <-].
Qed.

(** ** The search and the entry point *)

Lemma solve_unfold fuel s :
  wf_input s →
  ∃ b s1, updateAllDomains s = Some (b, s1) ∧ wf_board s1 ∧ same_frame s s1 ∧
          solve fuel s = backtrack fuel (mkCSP s1 false).
Proof.
  intros Hin. pose proof (wf_input_board _ Hin) as Hwf.
  destruct (updateAllDomains_wf s Hwf) as (b & s1 & Hu & Hwf1 & Hfr).
  exists b, s1. split_and!; [done..|].
  unfold solve. rewrite copySquares_id, bind_Some by by apply wf_board_shape.
  rewrite Hu, bind_Some. by rewrite new_SudokuCSP_eq by by apply wf_board_shape.
Qed.

Lemma trial_keeps_givens s0 s i j v s' :
  wf_board s → keeps_givens s0 s → i < 9 → j < 9 →
  value (cell s i j) = 0%Z → v ∈ domain (cell s i j) →
  trial s (cell s i j) v = Some (true, s') →
  wf_board s' ∧ keeps_givens s0 s'.
Proof.
  intros Hwf Hk Hi Hj H0 Hv Ht.
  destruct (trial_wf s i j v Hwf Hi Hj H0 Hv) as (b & s'' & Ht' & Hwf' & [_ Hfr] & _).
  rewrite Ht in Ht'. injection Ht' as <- <-. split; [done|].
  intros a b Ha Hb Hg. destruct (Hfr a b Ha Hb) as (_ & _ & ->).
  rewrite cell_upd by (done || by apply wf_board_shape).
  case_decide as E; [|by apply Hk]. injection E as -> ->.
  rewrite <- (Hk i j Hi Hj Hg) in Hg. done.
Qed.
Lemma same_frame_keeps s s' : same_frame s s' → keeps_givens s s'.
Proof. intros [_ H] i j Hi Hj _. by destruct (H i j Hi Hj) as (_ & _ & ?). Qed.

Lemma domain_length_le l :
  NoDup l → Forall (λ d, 1 ≤ d ≤ 9)%Z l → length l ≤ 9.
Proof.
  intros Hnd Hdig. change 9 with (length full_domain).
  apply submseteq_length, NoDup_submseteq; [done|].
  intros d Hd. rewrite Forall_forall in Hdig. specialize (Hdig d Hd). simpl in Hdig.
  assert (d = 1 ∨ d = 2 ∨ d = 3 ∨ d = 4 ∨ d = 5 ∨ d = 6 ∨ d = 7 ∨ d = 8 ∨ d = 9)%Z
    as Hcases by lia.
  unfold full_domain. rewrite !elem_of_cons. tauto.
Qed.

(** C9. [backtrack] terminates on every board in play.  Each board handed
    to a recursive call has strictly fewer squares of value 0 than the
    caller's, so a recursion depth of one more than the number of empty
    squares is enough for a result, and that number is at most 81; the
    candidate loop of a node runs over the domain of one square, of at
    most 9 entries. *)
Theorem backtrack_terminates csp :
  wf_board (squares csp) →
  (∀ fuel, count_empty (squares csp) < fuel → ∃ res, backtrack fuel csp = Some res) ∧
  count_empty (squares csp) ≤ 81 ∧
  (∀ i j, i < 9 → j < 9 → length (domain (cell (squares csp) i j)) ≤ 9) ∧
  (∀ i j v, i < 9 → j < 9 → value (cell (squares csp) i j) = 0%Z →
     v ∈ domain (cell (squares csp) i j) →
     ∃ b s', trial (squares csp) (cell (squares csp) i j) v = Some (b, s') ∧
             wf_board s' ∧ count_empty s' < count_empty (squares csp)).
Proof.
  intros Hwf. split_and!.
  - intros fuel Hfuel.
    destruct (backtrack_inv wf_board) with (fuel := fuel) (csp := csp)
      as (res & Hres & _); [done| |done|done|by exists res].
    intros s i j v s' Hs Hi Hj H0 _ Hv Ht.
    destruct (trial_wf s i j v Hs Hi Hj H0 Hv) as (b & s'' & Ht' & Hwf' & _).
    rewrite Ht in Ht'. by injection Ht' as <- <-.
  - apply count_empty_le.
  - intros i j Hi Hj.
    destruct (wf_board_cell _ i j Hwf Hi Hj) as (_ & _ & _ & Hnd & Hdig).
    by apply domain_length_le.
  - intros i j v Hi Hj H0 Hv.
    destruct (trial_wf _ i j v Hwf Hi Hj H0 Hv) as (b & s' & Ht & Hwf' & _ & Hlt).
    by exists b, s'.
Qed.

Lemma backtrack_terminates_witness :
  wf_board (mkBoard dup_grid) ∧
  ∃ res, backtrack 82 (mkCSP (mkBoard dup_grid) false) = Some res.
Proof.
  assert (wf_board (mkBoard dup_grid)) as Hwf
    by (apply (bool_decide_unpack _); vm_compute; reflexivity).
  split; [exact Hwf|].
  destruct (backtrack_terminates (mkCSP (mkBoard dup_grid) false) Hwf) as [Hres _].
  apply Hres. pose proof (count_empty_le (mkBoard dup_grid)). simpl. lia.
Defined.

(** C4. On every board the page can hand over, [solve] returns a result
    (a recursion depth of 82 is enough), and whenever the result has
    [failure = false], every square that held a nonzero value in the
    input holds the same value in the returned grid. *)
Theorem solve_keeps_givens s :
  wf_input s →
  (∀ fuel, 81 < fuel → ∃ res, solve fuel s = Some res) ∧
  (∀ fuel res, solve fuel s = Some res → failure res = false →
     keeps_givens s (squares res)).
Proof.
  intros Hin.
  set (Inv := λ x : Squares, wf_board x ∧ keeps_givens s x).
  assert (∀ fuel, 81 < fuel → ∃ b s1 res,
    updateAllDomains s = Some (b, s1) ∧ same_frame s s1 ∧
    solve fuel s = Some res ∧
    (res = mkCSP s1 false ∨ res = mkCSP s1 true ∨ (failure res = false ∧ Inv (squares res))))
    as Hmain.
  { intros fuel Hfuel.
    destruct (solve_unfold fuel s Hin) as (b & s1 & Hu & Hwf1 & Hfr & ->).
    assert (Inv s1) as HI1.
    { split; [done|]. by apply same_frame_keeps. }
    destruct (backtrack_inv Inv) with (fuel := fuel) (csp := mkCSP s1 false)
      as (res & Hres & Hcases).
    - by intros x [? _].
    - intros x i j v s' [Hx Hk] Hi Hj H0 _ Hv Ht.
      exact (trial_keeps_givens s x i j v s' Hx Hk Hi Hj H0 Hv Ht).
    - done.
    - simpl. pose proof (count_empty_le s1). lia.
    - exists b, s1, res. split_and!; [done..|].
      destruct Hcases as [[_ ->]|[_ [->|[? [_ ?]]]]]; auto. }
  split.
  - intros fuel Hfuel. destruct (Hmain fuel Hfuel) as (b & s1 & res & _ & _ & Hres & _).
    by exists res.
  - intros fuel res Hres Hok.
    destruct (Hmain (fuel + 82)) as (b & s1 & res' & Hu & Hfr & Hres' & Hcases); [lia|].
    assert (res' = res) as ->.
    { destruct (solve_unfold fuel s Hin) as (b2 & s2 & Hu2 & _ & _ & H2).
      destruct (solve_unfold (fuel + 82) s Hin) as (b3 & s3 & Hu3 & _ & _ & H3).
      rewrite Hu2 in Hu3. injection Hu3 as <- <-.
      rewrite H2 in Hres. rewrite H3 in Hres'.
      apply (backtrack_mono_le fuel (fuel + 82)) in Hres; [|lia]. congruence. }
    destruct Hcases as [->|[->|[_ [_ Hk]]]]; [|done|done].
    by apply same_frame_keeps.
Qed.

Lemma solve_keeps_givens_witness :
  (∀ fuel, 81 < fuel → ∃ res, solve fuel (mkBoard open_dup_grid) = Some res) ∧
  (∀ fuel res, solve fuel (mkBoard open_dup_grid) = Some res → failure res = false →
     keeps_givens (mkBoard open_dup_grid) (squares res)).
Proof.
  apply (solve_keeps_givens (mkBoard open_dup_grid)).
  apply (bool_decide_unpack _). vm_compute. reflexivity.
Defined.

Lemma full_same_frame s s' : same_frame s s' → full s → full s'.
Proof.
  intros [_ H] Hf. apply all_cells_spec. intros i j Hi Hj.
  destruct (H i j Hi Hj) as (_ & _ & ->). by apply full_not_empty.
Qed.

Lemma backtrack_full fuel csp :
  shape9 (squares csp) → full (squares csp) → backtrack (S fuel) csp = Some csp.
Proof.
  intros Hs Hf. rewrite backtrack_S.
  destruct (isFull_spec _ Hs) as [[-> _]|[_ (i & j & Hi & Hj & H0)]]; [done|].
  by apply full_not_empty in H0.
Qed.

(** A full board comes back as it is, whatever it holds. *)
Lemma solve_full s :
  wf_input s → full s →
  ∀ fuel, 0 < fuel →
  ∃ res, solve fuel s = Some res ∧ failure res = false ∧
         values (squares res) = values s.
Proof.
  intros Hin Hfull fuel Hfuel.
  destruct (solve_unfold fuel s Hin) as (b & s1 & _ & Hwf1 & Hfr & ->).
  destruct fuel as [|fuel]; [lia|].
  exists (mkCSP s1 false). split_and!; [|done|].
  - apply backtrack_full; [by apply wf_board_shape|by eapply full_same_frame].
  - simpl. apply values_ext; [by apply wf_board_shape|apply Hin|].
    intros i j Hi Hj. by destruct Hfr as [_ Hfr], (Hfr i j Hi Hj) as (_ & _ & ?).
Qed.

(** C5. On every input grid that is completely filled and satisfies the
    Sudoku constraints, [solve] returns a result with [failure = false]
    whose values are those of the input. *)
Theorem solve_solved_input s :
  wf_input s → full s → solved s →
  ∀ fuel, 0 < fuel →
  ∃ res, solve fuel s = Some res ∧ failure res = false ∧
         values (squares res) = values s.
Proof.
  intros Hin Hfull _ fuel Hfuel.
  destruct (solve_unfold fuel s Hin) as (b & s1 & _ & Hwf1 & Hfr & ->).
  destruct fuel as [|fuel]; [lia|].
  exists (mkCSP s1 false). split_and!; [|done|].
  - rewrite backtrack_S. cbn [squares].
    destruct (isFull_spec s1) as [[-> _]|[_ (i & j & Hi & Hj & H0)]];
      [by apply wf_board_shape|done|].
    destruct Hfr as [_ Hfr]. destruct (Hfr i j Hi Hj) as (_ & _ & Hv).
    rewrite Hv in H0. by apply full_not_empty in H0.
  - simpl. apply values_ext; [by apply wf_board_shape|apply Hin|].
    intros i j Hi Hj. by destruct Hfr as [_ Hfr], (Hfr i j Hi Hj) as (_ & _ & ?).
Qed.

Lemma solve_solved_input_witness :
  ∃ res, solve 82 (mkBoard solved_grid) = Some res ∧ failure res = false ∧
         values (squares res) = values (mkBoard solved_grid).
Proof.
  apply (solve_solved_input (mkBoard solved_grid)).
  - apply (bool_decide_unpack _). vm_compute. reflexivity.
  - apply (bool_decide_unpack _). vm_compute. reflexivity.
  - apply (bool_decide_unpack _). vm_compute. reflexivity.
  - lia.
Defined.

(** On a board in play that is not full, if every candidate in the
    domain of the chosen empty square is tried without success, the
    state-passing [backtrack] returns the board it was entered with,
    with [failure = true]. *)
Lemma backtrack_fails fuel csp square :
  wf_board (squares csp) →
  isFull (squares csp) = Some false →
  getEmptySquare (squares csp) = Some square →
  (∀ v, v ∈ domain square →
     ∃ b s', trial (squares csp) square v = Some (b, s') ∧
       (b = true → ∃ r, backtrack fuel (mkCSP s' false) = Some r ∧ failure r = true)) →
  backtrack (S fuel) csp = Some (mkCSP (squares csp) true).
Proof.
  intros Hwf Hnfull Hsq Hall. pose proof (wf_board_shape _ Hwf) as Hs.
  assert (¬ full (squares csp)) as Hnf.
  { intros Hf. destruct (isFull_spec _ Hs) as [[E _]|[_ (i & j & Hi & Hj & H0)]].
    - congruence.
    - by apply full_not_empty in H0. }
  destruct (getEmptySquare_spec _ Hs Hnf) as (i & j & Hi & Hj & Hsq' & H0 & _).
  rewrite Hsq in Hsq'. injection Hsq' as ->.
  rewrite backtrack_S, Hnfull, bind_Some, Hsq, bind_Some.
  match goal with |- context [for_ ?l ?body ()] =>
    pose proof (for_seq_inv (λ _ (_ : unit), True) (λ _ : SudokuCSP, False) body
                  0 (length (domain (cell (squares csp) i j))) ()) as Hloop
  end.
  feed_loop Hloop.
  { intros k [] Hk _.
    destruct (lookup_lt_is_Some_2 (domain (cell (squares csp) i j)) k) as [v Hkv]; [lia|].
    rewrite (candidate_step _ _ _ _ _ _ _ Hwf Hi Hj Hkv).
    assert (v ∈ domain (cell (squares csp) i j)) as Hvin by by eapply list_elem_of_lookup_2.
    destruct (Hall v Hvin) as (b & s' & Ht & Hrec).
    destruct (trial_wf _ i j v Hwf Hi Hj H0 Hvin) as (b' & s'' & Ht' & Hwf' & _).
    rewrite Ht in Ht'. injection Ht' as <- <-.
    rewrite Ht, bind_Some. destruct b; [|done].
    rewrite new_SudokuCSP_eq, bind_Some by by apply wf_board_shape.
    destruct (Hrec eq_refl) as (r & -> & Hr). rewrite bind_Some, Hr. done. }
  { done. }
  destruct_loop as [[[]|res]|]; [|done|done].
  rewrite bind_Some. by apply new_SudokuCSP_eq.
Qed.

Lemma backtrack_fails_dead_end :
  backtrack 2 (mkCSP dead_end_board false) = Some (mkCSP dead_end_board true).
Proof.
  apply (backtrack_fails 1 (mkCSP dead_end_board false) (cell dead_end_board 0 0)).
  - apply (bool_decide_unpack _). vm_compute. reflexivity.
  - vm_compute. reflexivity.
  - vm_compute. reflexivity.
  - intros v Hv. change (v ∈ [1; 2]%Z) in Hv.
    apply elem_of_cons in Hv as [->|Hv]; [|apply elem_of_cons in Hv as [->|Hv]].
    + eexists true, _. split; [vm_compute; reflexivity|]. intros _.
      eexists. split; [vm_compute; reflexivity|reflexivity].
    + eexists true, _. split; [vm_compute; reflexivity|]. intros _.
      eexists. split; [vm_compute; reflexivity|reflexivity].
    + by apply elem_of_nil in Hv.
Qed.

(** ** Soundness of the search *)

Lemma peer_sym r c r' c' : peer r c r' c' → peer r' c' r c.
Proof. unfold peer, same_box. lia. Qed.

Lemma peer_irrefl r c : ¬ peer r c r c.
Proof. unfold peer. lia. Qed.

Lemma iter_del1_nil v n : Nat.iter n (del1 v) [] = [].
Proof. induction n as [|n IH]; simpl; [done|]. by rewrite IH. Qed.

Lemma iter_del1_singleton v w n : w ≠ v → Nat.iter n (del1 v) [w] = [w].
Proof.
  intros Hne. induction n as [|n IH]; simpl; [done|]. rewrite IH.
  rewrite del1_cons. by rewrite decide_False.
Qed.

Lemma iter_del1_self v n : Nat.iter (S n) (del1 v) [v] = [].
Proof.
  induction n as [|n IH].
  - simpl. by rewrite del1_cons, decide_True.
  - change (del1 v (Nat.iter (S n) (del1 v) [v]) = []). by rewrite IH.
Qed.

Lemma not_elem_of_iter_del1 v n x l : x ∉ l → x ∉ Nat.iter n (del1 v) l.
Proof.
  intros Hx Hin. apply Hx. eapply elem_of_sublist; [done|]. apply iter_del1_sublist.
Qed.

(** What a successful propagation from [(r,c)] establishes. *)
Lemma updateDomains_settles (P : nat → nat → Prop) s r c s' :
  wf_board s → r < 9 → c < 9 → value (cell s r c) ≠ 0%Z →
  updateDomains s r c = Some (true, s') →
  (∀ a b, a < 9 → b < 9 → P a b → (a ≠ r ∨ b ≠ c) → settled s a b) →
  ∀ a b, a < 9 → b < 9 → P a b ∨ (a = r ∧ b = c) → settled s' a b.
Proof.
  intros Hwf Hr Hc Hv Hrun HP.
  pose proof (wf_board_shape _ Hwf) as Hs.
  destruct (updateDomains_spec s r c Hs Hr Hc Hv) as (b0 & s'' & Hrun' & HT & HN).
  rewrite Hrun in Hrun'. injection Hrun' as <- <-.
  set (v := value (cell s r c)) in *.
  set (s0 := upd s r c (with_domain [v])) in *.
  destruct HT as ([Hs' Hpr] & Hsame & Hgone).
  assert (∀ a b, a < 9 → b < 9 → (a ≠ r ∨ b ≠ c) → cell s0 a b = cell s a b) as Hother.
  { intros a b Ha Hb Hne. unfold s0. rewrite cell_upd by done.
    rewrite decide_False; [done|]. intros [= -> ->]. lia. }
  assert (cell s' r c = with_domain [v] (cell s r c)) as Hself.
  { rewrite Hsame by (done || apply peer_irrefl). unfold s0.
    rewrite cell_upd by done. by rewrite decide_True. }
  assert (∀ a b, a < 9 → b < 9 → peer r c a b → v ∉ domain (cell s' a b)) as Hpruned.
  { intros a b Ha Hb Hp. apply Hgone; [done..|].
    rewrite Hother by (done || (unfold peer in Hp; lia)).
    by destruct (wf_board_cell s a b Hwf Ha Hb) as (_ & _ & _ & ? & _). }
  intros a b Ha Hb Hab.
  destruct (decide (a = r ∧ b = c)) as [[-> ->]|Hne].
  { intros _. rewrite Hself. simpl. split; [done|]. fold v. apply Hpruned. }
  assert (a ≠ r ∨ b ≠ c) as Hne' by lia.
  destruct Hab as [Hab|?]; [|done].
  destruct (Hpr a b Ha Hb) as (_ & _ & Hval & n & Hdom).
  rewrite Hother in Hval, Hdom by done.
  intros Hw. rewrite Hval in Hw |- *.
  destruct (HP a b Ha Hb Hab Hne' Hw) as [Hd Hpeers].
  set (w := value (cell s a b)) in *.
  assert (peer r c a b → w ≠ v) as Hwv.
  { intros Hp ->. pose proof (Hpruned a b Ha Hb Hp) as Hnot.
    assert (domain (cell s' a b) ≠ []) as Hnonempty by (by apply HN).
    rewrite Hdom, Hd in Hnot, Hnonempty.
    destruct n as [|n].
    - apply Hnot. by left.
    - by rewrite iter_del1_self in Hnonempty. }
  split.
  - destruct (decide (peer r c a b)) as [Hp|Hnp].
    + rewrite Hdom, Hd. apply iter_del1_singleton. by apply Hwv.
    + rewrite Hsame, Hother by done. done.
  - intros a' b' Ha' Hb' Hp'.
    destruct (decide (a' = r ∧ b' = c)) as [[-> ->]|Hne2].
    + rewrite Hself. simpl. intros Hin%list_elem_of_singleton.
      by apply Hwv; [apply peer_sym|].
    + destruct (Hpr a' b' Ha' Hb') as (_ & _ & _ & m & ->).
      rewrite Hother by (done || lia).
      apply not_elem_of_iter_del1. by apply Hpeers.
Qed.

Lemma settled_set_value s i j v a b :
  shape9 s → i < 9 → j < 9 → a < 9 → b < 9 → value (cell s i j) = 0%Z →
  (a ≠ i ∨ b ≠ j) → settled s a b → settled (upd s i j (with_value v)) a b.
Proof.
  intros Hs Hi Hj Ha Hb H0 Hne Hset. unfold settled.
  rewrite cell_upd by done. rewrite decide_False by (intros [= -> ->]; lia).
  intros Hw. destruct (Hset Hw) as [Hd Hpeers]. split; [done|].
  intros a' b' Ha' Hb' Hp. rewrite cell_upd by done.
  case_decide as E; [|by apply Hpeers]. injection E as -> ->. simpl. by apply Hpeers.
Qed.

(** A successful trial keeps the board consistent. *)
Lemma trial_consistent s i j v s' :
  consistent s → i < 9 → j < 9 → value (cell s i j) = 0%Z →
  v ∈ domain (cell s i j) →
  trial s (cell s i j) v = Some (true, s') → consistent s'.
Proof.
  intros [Hwf Hall] Hi Hj H0 Hv Ht. pose proof (wf_board_shape _ Hwf) as Hs.
  destruct (trial_wf s i j v Hwf Hi Hj H0 Hv) as (b & s'' & Ht' & Hwf' & _).
  rewrite Ht in Ht'. injection Ht' as <- <-. split; [done|].
  rewrite trial_eq in Ht by done.
  destruct (wf_board_candidate s i j v Hwf Hi Hj Hv) as [Hdig Hwf1].
  intros a b Ha Hb.
  apply (updateDomains_settles (λ a b, a ≠ i ∨ b ≠ j) _ i j s' Hwf1 Hi Hj); try done.
  - rewrite cell_upd by done. rewrite decide_True by done. simpl. lia.
  - intros a' b' Ha' Hb' Hne _. apply settled_set_value; auto.
  - lia.
Qed.

(** The nested loop of [updateAllDomains], with an invariant of the
    caller's choice. *)
Lemma updateAllDomains_inv (I : nat → nat → Squares → Prop) (Q : Squares → Prop) s :
  wf_board s →
  I 0 0 s →
  (∀ i j s1 b s2, i < 9 → j < 9 → wf_board s1 → same_frame s s1 → I i j s1 →
     updateDomains s1 i j = Some (b, s2) → if b : bool then I i (S j) s2 else Q s2) →
  (∀ i s1, i < 9 → I i 9 s1 → I (S i) 0 s1) →
  ∃ b s', updateAllDomains s = Some (b, s') ∧ wf_board s' ∧ same_frame s s' ∧
          if b : bool then I 9 0 s' else Q s'.
Proof.
  intros Hwf H0 Hstep Hrow. pose proof (wf_board_shape _ Hwf) as Hs.
  unfold updateAllDomains. replace (length s) with 9 by (symmetry; apply Hs).
  set (QQ := λ res : bool * Squares,
         res.1 = false ∧ wf_board res.2 ∧ same_frame s res.2 ∧ Q res.2).
  match goal with |- context [for_ _ ?body s] =>
    pose proof (for_seq_inv
      (λ i s', wf_board s' ∧ same_frame s s' ∧ I i 0 s') QQ body 0 9 s) as Hloop
  end.
  feed_loop Hloop.
  { intros i s1 Hi (Hwf1 & Hfr1 & HI1).
    match goal with |- context [for_ _ ?body s1] =>
      pose proof (for_seq_inv
        (λ j s', wf_board s' ∧ same_frame s s' ∧ I i j s') QQ body 0 9 s1) as Hin
    end.
    feed_loop Hin.
    { intros j s2 Hj (Hwf2 & Hfr2 & HI2).
      destruct (updateDomains_wf s2 i j Hwf2) as (b & s3 & Hrun & Hwf3 & Hfr3); [lia..|].
      rewrite Hrun, bind_Some. simpl.
      assert (same_frame s s3) by by eapply same_frame_trans.
      pose proof (Hstep i j s2 b s3 ltac:(lia) ltac:(lia) Hwf2 Hfr2 HI2 Hrun) as Hb.
      by destruct b. }
    { done. }
    destruct_loop as [[s2|x]|]; [|done|done].
    destruct Hin as (? & ? & ?). split_and!; [done..|]. apply Hrow; [lia|done]. }
  { split_and!; [done| |done]. by apply same_frame_refl. }
  destruct_loop as [[s1|[b s1]]|]; [| |done]; rewrite bind_Some.
  - exists true, s1. by destruct Hloop as (? & ? & ?).
  - destruct Hloop as (Hb & ? & ? & ?). simpl in *. subst b. by exists false, s1.
Qed.

(** When [updateAllDomains] reports [true], the board is consistent. *)
Lemma updateAllDomains_consistent s s' :
  wf_board s → updateAllDomains s = Some (true, s') → consistent s'.
Proof.
  intros Hwf Hrun.
  destruct (updateAllDomains_inv
    (λ i j s1, ∀ a b, a < 9 → b < 9 → a < i ∨ (a = i ∧ b < j) → settled s1 a b)
    (λ _, True) s Hwf) as (b & s'' & Hrun' & Hwf' & _ & Hb).
  - intros a b _ _ ?. lia.
  - intros i j s1 b s2 Hi Hj Hwf1 _ HI Hud. destruct b; [|done].
    destruct (decide (value (cell s1 i j) = 0%Z)) as [Hz|Hnz].
    + rewrite updateDomains_zero in Hud by (done || by apply wf_board_shape).
      injection Hud as <-. intros a b Ha Hb Hab.
      destruct (decide (a = i ∧ b = j)) as [[-> ->]|]; [by intros ?|].
      apply HI; [done..|lia].
    + intros a b Ha Hb Hab.
      apply (updateDomains_settles (λ a b, a < i ∨ (a = i ∧ b < j)) s1 i j s2); try done.
      * intros a' b' Ha' Hb' Hab' _. by apply HI.
      * lia.
  - intros i s1 Hi HI a b Ha Hb Hab. apply HI; [done..|lia].
  - rewrite Hrun in Hrun'. injection Hrun' as <- <-. split; [done|].
    intros i j Hi Hj. apply Hb; [done..|lia].
Qed.

(** *** A full consistent board is a solution *)

Lemma consistent_peers_differ s i j a b :
  consistent s → full s → i < 9 → j < 9 → a < 9 → b < 9 → peer i j a b →
  value (cell s i j) ≠ value (cell s a b).
Proof.
  intros [_ Hall] Hfull Hi Hj Ha Hb Hp Heq.
  destruct (Hall i j Hi Hj (full_not_empty _ _ _ Hfull Hi Hj)) as [_ Hpeers].
  destruct (Hall a b Ha Hb (full_not_empty _ _ _ Hfull Ha Hb)) as [Hd _].
  apply (Hpeers a b Ha Hb Hp). rewrite Hd, Heq. by left.
Qed.

Lemma each_digit_once_intro l :
  length l = 9 → NoDup l → Forall (λ d, 1 ≤ d ≤ 9)%Z l → each_digit_once l.
Proof.
  intros Hlen Hnd Hdig.
  assert (l ≡ₚ full_domain) as Hperm.
  { apply submseteq_length_Permutation; [|by rewrite Hlen].
    apply NoDup_submseteq; [done|]. intros d Hd.
    rewrite Forall_forall in Hdig. specialize (Hdig d Hd). simpl in Hdig.
    assert (d = 1 ∨ d = 2 ∨ d = 3 ∨ d = 4 ∨ d = 5 ∨ d = 6 ∨ d = 7 ∨ d = 8 ∨ d = 9)%Z
      as Hcases by lia.
    unfold full_domain. rewrite !elem_of_cons. tauto. }
  unfold each_digit_once, occurrences. apply Forall_forall. intros d Hd.
  rewrite Hperm. revert d Hd. apply Forall_forall.
  by apply (bool_decide_unpack _).
Qed.

Lemma values_line_once s (f : nat → nat * nat) :
  consistent s → full s →
  (∀ m, m < 9 → (f m).1 < 9 ∧ (f m).2 < 9) →
  (∀ m m', m < 9 → m' < 9 → m ≠ m' → peer (f m).1 (f m).2 (f m').1 (f m').2) →
  each_digit_once ((λ m, value (cell s (f m).1 (f m).2)) <$> seq 0 9).
Proof.
  intros Hc Hfull Hrange Hpeer. apply each_digit_once_intro.
  - by rewrite length_fmap, length_seq.
  - apply NoDup_fmap_2_strong; [|apply NoDup_seq].
    intros m m' [_ Hm]%elem_of_seq [_ Hm']%elem_of_seq Heq.
    destruct (decide (m = m')) as [|Hne]; [done|]. exfalso.
    destruct (Hrange m Hm), (Hrange m' Hm').
    by apply (consistent_peers_differ s _ _ _ _ Hc Hfull) in Heq; [| | | | |apply Hpeer].
  - apply Forall_fmap, Forall_forall. intros m [_ Hm]%elem_of_seq. simpl.
    destruct (Hrange m Hm) as [Hi Hj].
    destruct (wf_board_cell s _ _ (proj1 Hc) Hi Hj) as (_ & _ & ? & _).
    pose proof (full_not_empty _ _ _ Hfull Hi Hj). lia.
Qed.

Lemma box_div q m : m < 9 → (3 * q + m / 3) / 3 = q.
Proof. intros. lia. Qed.

Lemma box_mod q m : (3 * q + m mod 3) / 3 = q.
Proof. lia. Qed.

Lemma box_cells_differ m m' :
  m < 9 → m' < 9 → m ≠ m' → m / 3 ≠ m' / 3 ∨ m mod 3 ≠ m' mod 3.
Proof. intros. lia. Qed.

Lemma consistent_full_solved s : consistent s → full s → solved s.
Proof.
  intros Hc Hfull. unfold solved. apply Forall_forall. intros k [_ Hk]%elem_of_seq.
  split_and!.
  - apply (values_line_once s (λ m, (k, m)) Hc Hfull); cbn [fst snd].
    + lia.
    + intros m m' ? ? ?. unfold peer. lia.
  - apply (values_line_once s (λ m, (m, k)) Hc Hfull); cbn [fst snd].
    + lia.
    + intros m m' ? ? ?. unfold peer. lia.
  - apply (values_line_once s (λ m, (3 * (k / 3) + m / 3, 3 * (k mod 3) + m mod 3)) Hc Hfull);
      cbn [fst snd].
    + intros m Hm. lia.
    + intros m m' Hm Hm' Hne. unfold peer, same_box.
      rewrite !box_div, !box_mod by done.
      pose proof (box_cells_differ m m' Hm Hm' Hne). split; [lia|]. by right; right.
Qed.

(** *** A square without candidates makes the search fail *)

Lemma trial_keeps_dead a b s i j v s' ok :
  wf_board s → dead_at a b s → i < 9 → j < 9 → value (cell s i j) = 0%Z →
  v ∈ domain (cell s i j) →
  trial s (cell s i j) v = Some (ok, s') → dead_at a b s'.
Proof.
  intros Hwf (Ha & Hb & Hz & He) Hi Hj H0 Hv Ht. pose proof (wf_board_shape _ Hwf) as Hs.
  assert (a ≠ i ∨ b ≠ j) as Hne.
  { destruct (decide (a = i ∧ b = j)) as [[-> ->]|]; [|lia].
    rewrite He in Hv. by apply elem_of_nil in Hv. }
  rewrite trial_eq in Ht by done.
  destruct (wf_board_candidate s i j v Hwf Hi Hj Hv) as [Hdig Hwf1].
  set (s1 := upd s i j (with_value v)) in *.
  assert (value (cell s1 i j) ≠ 0%Z) as Hv1.
  { unfold s1. rewrite cell_upd by done. rewrite decide_True by done. simpl. lia. }
  destruct (updateDomains_spec s1 i j (wf_board_shape _ Hwf1) Hi Hj Hv1)
    as (ok' & s'' & Hrun & ([_ Hpr] & _) & _).
  rewrite Ht in Hrun. injection Hrun as <- <-.
  destruct (Hpr a b Ha Hb) as (_ & _ & Hval & n & Hdom).
  assert ((a, b) ≠ (i, j)) as Hne2 by (intros [= -> ->]; lia).
  rewrite cell_upd in Hval, Hdom by (done || by apply shape9_upd).
  rewrite (decide_False _ _ Hne2) in Hval. rewrite (decide_False _ _ Hne2) in Hdom.
  assert (cell s1 a b = cell s a b) as Hab.
  { unfold s1. rewrite cell_upd by done. by rewrite (decide_False _ _ Hne2). }
  rewrite Hab in Hval, Hdom.
  split_and!; [done..| |]; [congruence|]. by rewrite Hdom, He, iter_del1_nil.
Qed.

Lemma backtrack_dead a b fuel csp res :
  wf_board (squares csp) → dead_at a b (squares csp) →
  backtrack fuel csp = Some res → res = mkCSP (squares csp) true.
Proof.
  intros Hwf Hdead Hrun.
  destruct (backtrack_inv (λ x, wf_board x ∧ dead_at a b x))
    with (fuel := fuel + 82) (csp := csp) as (res' & Hres' & Hcases).
  - by intros x [? _].
  - intros x i j v s' [Hx Hd] Hi Hj H0 _ Hv Ht.
    destruct (trial_wf x i j v Hx Hi Hj H0 Hv) as (ok & s'' & Ht' & Hwf' & _).
    rewrite Ht in Ht'. injection Ht' as <- <-. split; [done|].
    exact (trial_keeps_dead a b x i j v s' true Hx Hd Hi Hj H0 Hv Ht).
  - done.
  - pose proof (count_empty_le (squares csp)). lia.
  - apply (backtrack_mono_le fuel (fuel + 82)) in Hrun; [|lia].
    rewrite Hrun in Hres'. injection Hres' as <-.
    destruct Hdead as (Ha & Hb & Hz & _).
    destruct Hcases as [[Hfull _]|[_ [->|(_ & Hfull & _ & (_ & _ & Hz' & _))]]].
    + by apply full_not_empty in Hz.
    + done.
    + by apply full_not_empty in Hz'.
Qed.

(** With no duplicate among the givens, a verdict [false] of
    [updateAllDomains] comes with an empty square without candidates. *)
Lemma updateAllDomains_dead s s' :
  wf_input s → no_duplicate s → updateAllDomains s = Some (false, s') →
  ∃ a b, dead_at a b s'.
Proof.
  intros Hin Hnd Hrun. pose proof (wf_input_board _ Hin) as Hwf.
  assert (∀ r c r' c', r < 9 → c < 9 → r' < 9 → c' < 9 → peer r c r' c' →
            value (cell s r c) ≠ 0%Z → value (cell s r c) ≠ value (cell s r' c')) as Hnd'.
  { intros r c r' c' Hr Hc Hr' Hc'. unfold no_duplicate in Hnd.
    rewrite all_cells_spec in Hnd. specialize (Hnd r c Hr Hc).
    rewrite all_cells_spec in Hnd. by apply Hnd. }
  destruct (updateAllDomains_inv
    (λ _ _ s1, ∀ a b, a < 9 → b < 9 → value (cell s1 a b) ≠ 0%Z →
                 value (cell s1 a b) ∈ domain (cell s1 a b))
    (λ s2, ∃ a b, dead_at a b s2) s Hwf) as (b & s'' & Hrun' & _ & _ & Hb).
  - intros a b Ha Hb Hv. destruct Hin as [_ Hin]. rewrite all_cells_spec in Hin.
    destruct (Hin a b Ha Hb) as (_ & _ & Hval & ->).
    assert (value (cell s a b) = 1 ∨ value (cell s a b) = 2 ∨ value (cell s a b) = 3 ∨
            value (cell s a b) = 4 ∨ value (cell s a b) = 5 ∨ value (cell s a b) = 6 ∨
            value (cell s a b) = 7 ∨ value (cell s a b) = 8 ∨ value (cell s a b) = 9)%Z
      as Hcases by lia.
    unfold full_domain. rewrite !elem_of_cons. tauto.
  - intros i j s1 ok s2 Hi Hj Hwf1 [_ Hfr1] HJ Hud.
    pose proof (wf_board_shape _ Hwf1) as Hs1.
    destruct (decide (value (cell s1 i j) = 0%Z)) as [Hz|Hnz].
    { rewrite updateDomains_zero in Hud by done. by injection Hud as <- <-. }
    destruct (updateDomains_spec s1 i j Hs1 Hi Hj Hnz) as (ok' & s2' & Hud' & HT & HN).
    rewrite Hud in Hud'. injection Hud' as <- <-.
    set (v := value (cell s1 i j)) in *.
    destruct HT as ([_ Hpr] & Hsame & _).
    assert (∀ a b, a < 9 → b < 9 → value (cell s2 a b) ≠ 0%Z →
              value (cell s2 a b) ∈ domain (cell s2 a b)) as HJ2.
    { intros a b Ha Hb Hw.
      destruct (decide (a = i ∧ b = j)) as [[-> ->]|Hne].
      { rewrite Hsame by (done || apply peer_irrefl).
        rewrite cell_upd by done. rewrite decide_True by done. simpl. by left. }
      assert ((a, b) ≠ (i, j)) as Hne2 by (intros [= -> ->]; lia).
      destruct (Hpr a b Ha Hb) as (_ & _ & Hval & n & Hdom).
      rewrite cell_upd in Hval, Hdom by done.
      rewrite (decide_False _ _ Hne2) in Hval. rewrite (decide_False _ _ Hne2) in Hdom.
      rewrite Hval in Hw |- *. pose proof (HJ a b Ha Hb Hw) as Hin1.
      destruct (decide (peer i j a b)) as [Hp|Hnp].
      - rewrite Hdom. apply elem_of_iter_del1_ne; [|done].
        destruct (Hfr1 a b Ha Hb) as (_ & _ & Hva), (Hfr1 i j Hi Hj) as (_ & _ & Hvi).
        unfold v. rewrite Hva, Hvi. intros Heq.
        apply (Hnd' i j a b Hi Hj Ha Hb Hp); [by rewrite <- Hvi|done].
      - rewrite Hsame by done. rewrite cell_upd by done.
        by rewrite (decide_False _ _ Hne2). }
    destruct ok; [done|].
    destruct HN as (a & b & Ha & Hb & _ & He). exists a, b. split_and!; [done..| |done].
    destruct (decide (value (cell s2 a b) = 0%Z)) as [|Hw]; [done|].
    pose proof (HJ2 a b Ha Hb Hw) as Hin2. rewrite He in Hin2.
    by apply elem_of_nil in Hin2.
  - done.
  - rewrite Hrun in Hrun'. by injection Hrun' as <- <-.
Qed.

(** When the initial propagation reports no empty domain, a result of
    [solve] that is not a failure is a solved Sudoku grid which keeps the
    givens. *)
Lemma solve_sound_propagated s s1 :
  wf_input s → updateAllDomains s = Some (true, s1) →
  ∀ fuel res, solve fuel s = Some res → failure res = false →
  solved (squares res) ∧ full (squares res) ∧ keeps_givens s (squares res).
Proof.
  intros Hin Hu1 fuel res Hrun Hok.
  destruct (solve_unfold fuel s Hin) as (b & s1' & Hu & Hwf1 & Hfr & Hs).
  rewrite Hu1 in Hu. injection Hu as <- <-. rewrite Hs in Hrun.
  pose proof (updateAllDomains_consistent s s1 (wf_input_board _ Hin) Hu1) as Hc1.
  set (Inv := λ x : Squares, consistent x ∧ keeps_givens s x).
  destruct (backtrack_inv Inv) with (fuel := fuel + 82) (csp := mkCSP s1 false)
    as (res' & Hres' & Hcases).
  - by intros x [[? _] _].
  - intros x i j v s' [Hx Hk] Hi Hj H0 _ Hv Ht. split.
    + exact (trial_consistent x i j v s' Hx Hi Hj H0 Hv Ht).
    + exact (proj2 (trial_keeps_givens s x i j v s' (proj1 Hx) Hk Hi Hj H0 Hv Ht)).
  - split; [done|]. by apply same_frame_keeps.
  - simpl. pose proof (count_empty_le s1). lia.
  - apply (backtrack_mono_le fuel (fuel + 82)) in Hrun; [|lia].
    rewrite Hrun in Hres'. injection Hres' as <-.
    destruct Hcases as [[Hfull ->]|[_ [->|(_ & Hfull & Hc & Hk)]]]; simpl in *.
    + split_and!; [by apply consistent_full_solved|done|by apply same_frame_keeps].
    + done.
    + split_and!; [by apply consistent_full_solved|done..].
Qed.

(** X10. On a board without duplicate givens, a result of [solve] that
    is not a failure is a solved Sudoku grid which keeps the givens: the
    verdict that [solve] does not read is then reflected by an empty
    square without candidates, on which the search fails. *)
Theorem solve_sound s :
  wf_input s → no_duplicate s →
  ∀ fuel res, solve fuel s = Some res → failure res = false →
  solved (squares res) ∧ full (squares res) ∧ keeps_givens s (squares res).
Proof.
  intros Hin Hnd fuel res Hrun Hok.
  destruct (solve_unfold fuel s Hin) as (b & s1 & Hu & Hwf1 & Hfr & Hs).
  destruct b; [by apply (solve_sound_propagated s s1 Hin Hu fuel)|].
  rewrite Hs in Hrun.
  destruct (updateAllDomains_dead s s1 Hin Hnd Hu) as (a & b & Hdead).
  rewrite (backtrack_dead a b fuel (mkCSP s1 false) res Hwf1 Hdead Hrun) in Hok. done.
Qed.

Lemma solve_sound_open_grid :
  ∃ res, solve 82 (mkBoard open_grid) = Some res ∧
         solved (squares res) ∧ full (squares res) ∧
         keeps_givens (mkBoard open_grid) (squares res).
Proof.
  eexists. split; [vm_compute; reflexivity|].
  apply (solve_sound (mkBoard open_grid)) with (fuel := 82).
  - apply (bool_decide_unpack _). vm_compute. reflexivity.
  - apply (bool_decide_unpack _). vm_compute. reflexivity.
  - vm_compute. reflexivity.
  - reflexivity.
Defined.

(** ** Grids with a duplicate *)

(** C2 does not hold of the code.  [full_dup_grid] has two 1s in its first
    row; [updateAllDomains] notices (its verdict is [false]), [solve]
    does not read the verdict, and [backtrack] finds the board full:
    the result has [failure = false], in the state-passing program and
    on the heap, for the board the page builds. *)
Theorem solve_accepts_full_duplicate :
  wf_input (mkBoard full_dup_grid) ∧
  duplicate_at (mkBoard full_dup_grid) 0 0 0 1 ∧
  (∃ s', updateAllDomains (mkBoard full_dup_grid) = Some (false, s')) ∧
  (∀ fuel, 0 < fuel →
     ∃ res, solve fuel (mkBoard full_dup_grid) = Some res ∧ failure res = false ∧
            values (squares res) = full_dup_grid) ∧
  ∃ b h r h' b', Heap.page_board full_dup_grid [] = Some (b, h) ∧
    Heap.solve 1 b h = Some (r, h') ∧
    h' !! r = Some (Heap.OCSP b' false) ∧
    values <$> Heap.read_board h' b' = Some full_dup_grid.
Proof.
  assert (wf_input (mkBoard full_dup_grid)) as Hin
    by (apply (bool_decide_unpack _); vm_compute; reflexivity).
  split_and!.
  - done.
  - apply (bool_decide_unpack _). vm_compute. reflexivity.
  - eexists. vm_compute. reflexivity.
  - intros fuel Hfuel. apply (solve_full _ Hin); [|done].
    apply (bool_decide_unpack _). vm_compute. reflexivity.
  - eexists _, _, _, _, _. do 3 (split; [vm_compute; reflexivity|]).
    vm_compute. reflexivity.
Qed.

(** C1 does not hold of the code.  [open_dup_grid] has two 1s in its first
    row and one empty square, the last.  [updateAllDomains] stops at the
    second 1 with the verdict [false] and leaves the rest of the givens
    unpropagated; the search then fills the last square with its first
    candidate, 1, although its row and its column hold a 1 already, and
    the result has [failure = false]; the heap program returns the same
    board for the board the page builds. *)
Theorem solve_returns_unsolved_grid :
  wf_input (mkBoard open_dup_grid) ∧
  ∃ res, solve 82 (mkBoard open_dup_grid) = Some res ∧ failure res = false ∧
         ¬ solved (squares res) ∧
         value (cell (squares res) 8 8) = 1%Z ∧
         value (cell (squares res) 8 5) = 1%Z ∧
         value (cell (squares res) 7 8) = 1%Z ∧
         ∃ b h r h' b', Heap.page_board open_dup_grid [] = Some (b, h) ∧
           Heap.solve 82 b h = Some (r, h') ∧
           h' !! r = Some (Heap.OCSP b' false) ∧
           Heap.read_board h' b' = Some (squares res).
Proof.
  split.
  - apply (bool_decide_unpack _). vm_compute. reflexivity.
  - eexists. split; [vm_compute; reflexivity|]. split_and!; try reflexivity.
    + apply (bool_decide_unpack _). vm_compute. reflexivity.
    + eexists _, _, _, _, _. do 3 (split; [vm_compute; reflexivity|]).
      vm_compute. reflexivity.
Qed.


(** * The heap model: what [solve] may write *)

Arguments Heap.for_in : simpl never.
Arguments Heap.for_guard : simpl never.
Arguments Heap.for_to : simpl never.

Lemma pres_ret {A} h0 (P : A → Prop) a : P a → pres h0 P (Heap.ret a).
Proof. intros HP h a' h' Hg [= <- <-]. done. Qed.

Lemma pres_throw {A} h0 (P : A → Prop) : pres h0 P Heap.throw.
Proof. by intros h a h' _ ?. Qed.

Lemma pres_bind {A B} h0 (P : A → Prop) (Q : B → Prop) m f :
  pres h0 P m → (∀ a, P a → pres h0 Q (f a)) → pres h0 Q (Heap.bind m f).
Proof.
  intros Hm Hf h b h' Hg. unfold Heap.bind.
  destruct (m h) as [[a h1]|] eqn:E; [|done].
  destruct (Hm _ _ _ Hg E) as [Hg1 Ha]. by apply Hf.
Qed.

Lemma pres_weaken {A} h0 (P Q : A → Prop) m :
  pres h0 P m → (∀ a, P a → Q a) → pres h0 Q m.
Proof. intros Hm HPQ h a h' Hg E. destruct (Hm _ _ _ Hg E). auto. Qed.

Lemma good_refl h0 : good h0 h0.
Proof.
  split; [done|]. intros l o Hl Ho. apply lookup_lt_Some in Ho.
  unfold is_new in Hl. lia.
Qed.

Lemma pres_alloc h0 o :
  Forall (is_new (length h0)) (Heap.refs o) → pres h0 (is_new (length h0)) (Heap.alloc o).
Proof.
  intros Ho h l h' [Hpre Hcl] [= <- <-].
  pose proof (prefix_length _ _ Hpre) as Hlen.
  split; [split|done].
  - by apply prefix_app_r.
  - intros l o' Hl Hlook.
    destruct (decide (l < length h)) as [Hlt|Hge].
    + rewrite lookup_app_l in Hlook by done. by eapply Hcl.
    + rewrite lookup_app_r in Hlook by lia.
      destruct (l - length h) as [|k] eqn:E; simpl in Hlook; [|done].
      by injection Hlook as <-.
Qed.

Lemma pres_load h0 l : pres h0 anything (Heap.load l).
Proof.
  intros h o h' Hg. unfold Heap.load. destruct (h !! l); [|done].
  by intros [= <- <-].
Qed.

Lemma pres_load_new h0 l :
  is_new (length h0) l →
  pres h0 (λ o, Forall (is_new (length h0)) (Heap.refs o)) (Heap.load l).
Proof.
  intros Hl h o h' Hg. unfold Heap.load. destruct (h !! l) as [o'|] eqn:E; [|done].
  intros [= <- <-]. split; [done|]. destruct Hg as [_ Hcl]. by eapply Hcl.
Qed.

Lemma pres_store h0 l o :
  is_new (length h0) l → Forall (is_new (length h0)) (Heap.refs o) →
  pres h0 anything (Heap.store l o).
Proof.
  intros Hl Ho h [] h' [Hpre Hcl]. unfold Heap.store.
  destruct (decide (l < length h)) as [Hlt|]; [|done]. intros [= <-].
  split; [split|done].
  - destruct Hpre as [k ->]. rewrite insert_app_r_alt by done. by apply prefix_app_r.
  - intros l' o' Hl' Hlook.
    destruct (decide (l = l')) as [<-|Hne].
    + rewrite list_lookup_insert_eq in Hlook by done. by injection Hlook as <-.
    + rewrite list_lookup_insert_ne in Hlook by done. by eapply Hcl.
Qed.

Create HintDb pres discriminated.
Create HintDb pres_new discriminated.

Lemma anything_intro {A} (a : A) : anything a.
Proof. done. Qed.

Lemma flowP_next {R} (P : R → Prop) u : flowP P (Next u).
Proof. done. Qed.

Lemma flowP_return {R} (P : R → Prop) x : P x → flowP P (Return x).
Proof. done. Qed.

#[local] Hint Resolve anything_intro flowP_next flowP_return : pres pres_new.
#[local] Hint Resolve pres_ret pres_throw pres_alloc pres_store : pres pres_new.
#[local] Hint Resolve pres_load_new : pres_new.
#[local] Hint Resolve pres_load : pres.
#[local] Hint Constructors Forall : pres pres_new.

(** Walk through a monadic term: binds are split, branches are taken one
    by one, and the leaves are closed from the hint bases, the rules for
    new locations first. *)
Ltac pres_leaf :=
  first [ solve [eauto with pres_new] | solve [eauto with pres] ].

Ltac pres_auto :=
  lazymatch goal with
  | |- pres _ _ (Heap.bind _ _) =>
      eapply pres_bind; [pres_auto | intros ? ?; pres_auto]
  | |- pres _ _ (match ?x with _ => _ end) =>
      destruct x; simpl in *; pres_auto
  | |- pres _ _ _ =>
      first [ pres_leaf
            | eapply pres_weaken; [pres_leaf | solve [simpl; eauto with pres] ] ]
  end.

Lemma pres_get_nums h0 l : pres h0 anything (Heap.get_nums l).
Proof. unfold Heap.get_nums. pres_auto. Qed.

Lemma pres_get_refs h0 l : pres h0 anything (Heap.get_refs l).
Proof. unfold Heap.get_refs. pres_auto. Qed.

Lemma pres_get_refs_new h0 l :
  is_new (length h0) l → pres h0 (Forall (is_new (length h0))) (Heap.get_refs l).
Proof. intros Hl. unfold Heap.get_refs. pres_auto. Qed.

#[local] Hint Resolve pres_get_refs_new : pres_new.
#[local] Hint Resolve pres_get_nums pres_get_refs : pres.

Lemma pres_nums_length h0 l : pres h0 anything (Heap.nums_length l).
Proof. unfold Heap.nums_length. pres_auto. Qed.

Lemma pres_refs_length h0 l : pres h0 anything (Heap.refs_length l).
Proof. unfold Heap.refs_length. pres_auto. Qed.

Lemma pres_nums_at h0 l i : pres h0 anything (Heap.nums_at l i).
Proof. unfold Heap.nums_at. pres_auto. Qed.

Lemma pres_refs_at h0 l i : pres h0 anything (Heap.refs_at l i).
Proof. unfold Heap.refs_at. pres_auto. Qed.

Lemma pres_refs_at_new h0 l i :
  is_new (length h0) l → pres h0 (is_new (length h0)) (Heap.refs_at l i).
Proof.
  intros Hl. unfold Heap.refs_at. eapply pres_bind; [by apply pres_get_refs_new|].
  intros xs Hxs. destruct (xs !! i) as [x|] eqn:E; [|pres_auto].
  apply pres_ret. rewrite Forall_lookup in Hxs. by eapply Hxs.
Qed.

#[local] Hint Resolve pres_refs_at_new : pres_new.
#[local] Hint Resolve pres_nums_length pres_refs_length pres_nums_at pres_refs_at : pres.

Lemma pres_refs_set h0 a i x :
  is_new (length h0) a → is_new (length h0) x → pres h0 anything (Heap.refs_set a i x).
Proof.
  intros Ha Hx. unfold Heap.refs_set. eapply pres_bind; [by apply pres_get_refs_new|].
  intros xs Hxs. repeat case_decide; [| |pres_auto].
  - apply pres_store; [done|]. simpl.
    rewrite Forall_lookup in Hxs |- *. intros k y Hk.
    destruct (decide (i = k)) as [<-|].
    + rewrite list_lookup_insert_eq in Hk by done. by injection Hk as <-.
    + rewrite list_lookup_insert_ne in Hk by done. by eapply Hxs.
  - apply pres_store; [done|]. simpl. apply Forall_app. split; [done|]. by apply Forall_singleton.
Qed.

Lemma pres_nums_indexOf h0 a v : pres h0 anything (Heap.nums_indexOf a v).
Proof. unfold Heap.nums_indexOf. pres_auto. Qed.

Lemma pres_nums_splice h0 a k :
  is_new (length h0) a → pres h0 anything (Heap.nums_splice a k).
Proof. intros Ha. unfold Heap.nums_splice. pres_auto. Qed.

Lemma pres_nums_slice0 h0 a : pres h0 (is_new (length h0)) (Heap.nums_slice0 a).
Proof. unfold Heap.nums_slice0. pres_auto. Qed.

Lemma pres_sq_row h0 s : pres h0 anything (Heap.sq_row s).
Proof. unfold Heap.sq_row. pres_auto. Qed.

Lemma pres_sq_col h0 s : pres h0 anything (Heap.sq_col s).
Proof. unfold Heap.sq_col. pres_auto. Qed.

Lemma pres_sq_value h0 s : pres h0 anything (Heap.sq_value s).
Proof. unfold Heap.sq_value. pres_auto. Qed.

Lemma pres_sq_domain h0 s : pres h0 anything (Heap.sq_domain s).
Proof. unfold Heap.sq_domain. pres_auto. Qed.

Lemma pres_sq_domain_new h0 s :
  is_new (length h0) s → pres h0 (is_new (length h0)) (Heap.sq_domain s).
Proof.
  intros Hs. unfold Heap.sq_domain. eapply pres_bind; [by apply pres_load_new|].
  intros [] Ho; simpl in *; try pres_auto.
  apply pres_ret. by apply Forall_cons in Ho as [? _].
Qed.

Lemma pres_set_sq_value h0 s v :
  is_new (length h0) s → pres h0 anything (Heap.set_sq_value s v).
Proof.
  intros Hs. unfold Heap.set_sq_value. eapply pres_bind; [by apply pres_load_new|].
  intros [] Ho; simpl in *; pres_auto.
Qed.

Lemma pres_set_sq_domain h0 s d :
  is_new (length h0) s → is_new (length h0) d → pres h0 anything (Heap.set_sq_domain s d).
Proof.
  intros Hs Hd. unfold Heap.set_sq_domain. eapply pres_bind; [by apply pres_load_new|].
  intros [] Ho; simpl in *; pres_auto.
Qed.

Lemma pres_csp_squares_new h0 p :
  is_new (length h0) p → pres h0 (is_new (length h0)) (Heap.csp_squares p).
Proof.
  intros Hp. unfold Heap.csp_squares. eapply pres_bind; [by apply pres_load_new|].
  intros [] Ho; simpl in *; try pres_auto.
  apply pres_ret. by apply Forall_cons in Ho as [? _].
Qed.

Lemma pres_csp_failure h0 p : pres h0 anything (Heap.csp_failure p).
Proof. unfold Heap.csp_failure. pres_auto. Qed.

#[local] Hint Resolve pres_sq_domain_new pres_csp_squares_new pres_refs_set pres_nums_splice
  pres_set_sq_value pres_set_sq_domain pres_nums_slice0 : pres_new.
#[local] Hint Resolve pres_nums_indexOf pres_nums_slice0 pres_sq_row pres_sq_col pres_sq_value
  pres_sq_domain pres_csp_failure : pres.

Lemma pres_at2 h0 b i j : pres h0 anything (Heap.at2 b i j).
Proof. unfold Heap.at2. pres_auto. Qed.

Lemma pres_at2_new h0 b i j :
  is_new (length h0) b → pres h0 (is_new (length h0)) (Heap.at2 b i j).
Proof. intros Hb. unfold Heap.at2. pres_auto. Qed.

#[local] Hint Resolve pres_at2_new : pres_new.
#[local] Hint Resolve pres_at2 : pres.

(** *** Loops *)

Lemma pres_for_in {R} h0 (P : R → Prop) ixs body :
  (∀ i, pres h0 (flowP P) (body i)) → pres h0 (flowP P) (Heap.for_in ixs body).
Proof.
  intros Hb. induction ixs as [|i ixs IH]; cbn [Heap.for_in]; [pres_auto|].
  eapply pres_bind; [apply Hb|]. intros [u|x] Hx; [done|]. by apply pres_ret.
Qed.

Lemma pres_for_guard {R} h0 (P : R → Prop) bound n ixs body :
  pres h0 anything bound →
  (∀ i, pres h0 (flowP P) (body i)) →
  pres h0 (flowP P) (Heap.for_guard bound n ixs body).
Proof.
  intros Hbound Hb. induction ixs as [|i ixs IH]; cbn [Heap.for_guard].
  - eapply pres_bind; [done|]. intros b _. destruct (negb (b =? n)); pres_auto.
  - eapply pres_bind; [done|]. intros b _. destruct (negb (b =? n)); [pres_auto|].
    eapply pres_bind; [apply Hb|]. intros [u|x] Hx; [done|]. by apply pres_ret.
Qed.

Lemma pres_for_to {R} h0 (P : R → Prop) bound body :
  pres h0 anything bound →
  (∀ i, pres h0 (flowP P) (body i)) →
  pres h0 (flowP P) (Heap.for_to bound body).
Proof.
  intros Hbound Hb. unfold Heap.for_to. eapply pres_bind; [done|].
  intros n _. by apply pres_for_guard.
Qed.

(** As [pres_auto], for terms with loops: [P] is what the values
    returned from inside the loops satisfy. *)
Ltac pres_go P :=
  lazymatch goal with
  | |- pres _ _ (Heap.bind (Heap.for_to _ _) _) =>
      eapply (pres_bind _ (flowP P)); [pres_go P | intros ? ?; pres_go P]
  | |- pres _ _ (Heap.bind (Heap.for_in _ _) _) =>
      eapply (pres_bind _ (flowP P)); [pres_go P | intros ? ?; pres_go P]
  | |- pres _ _ (Heap.bind _ _) =>
      eapply pres_bind; [pres_go P | intros ? ?; pres_go P]
  | |- pres _ _ (Heap.for_to _ _) =>
      apply pres_for_to; [pres_go P | intros ?; pres_go P]
  | |- pres _ _ (Heap.for_in _ _) =>
      apply pres_for_in; intros ?; pres_go P
  | |- pres _ _ (match ?x with _ => _ end) =>
      destruct x; simpl in *; pres_go P
  | |- pres _ _ _ =>
      first [ pres_leaf
            | eapply pres_weaken; [pres_leaf | solve [simpl; eauto with pres] ] ]
  end.

(** *** The functions *)

Lemma pres_copySquares h0 squares :
  pres h0 (is_new (length h0)) (Heap.copySquares squares).
Proof. unfold Heap.copySquares. pres_go (@anything unit). Qed.

#[local] Hint Resolve pres_copySquares : pres.

Lemma pres_new_SudokuCSP h0 squares f :
  pres h0 (is_new (length h0)) (Heap.new_SudokuCSP squares f).
Proof. unfold Heap.new_SudokuCSP. pres_go (@anything unit). Qed.

Lemma pres_isFull h0 squares : pres h0 anything (Heap.isFull squares).
Proof. unfold Heap.isFull. pres_go (@anything bool). Qed.

Lemma pres_getEmptySquare h0 squares :
  is_new (length h0) squares →
  pres h0 (is_new (length h0)) (Heap.getEmptySquare squares).
Proof. intros Hs. unfold Heap.getEmptySquare. pres_go (is_new (length h0)). Qed.

Lemma pres_prune h0 squares i j v cond :
  is_new (length h0) squares → pres h0 anything (Heap.prune squares i j v cond).
Proof. intros Hs. unfold Heap.prune. pres_go (@anything unit). Qed.

Lemma pres_domain_empty h0 squares i j : pres h0 anything (Heap.domain_empty squares i j).
Proof. unfold Heap.domain_empty. pres_go (@anything unit). Qed.

#[local] Hint Resolve pres_new_SudokuCSP pres_isFull pres_domain_empty : pres.
#[local] Hint Resolve pres_getEmptySquare pres_prune : pres_new.

Lemma pres_updateDomains h0 squares row col :
  is_new (length h0) squares → pres h0 anything (Heap.updateDomains squares row col).
Proof. intros Hs. unfold Heap.updateDomains. cbv zeta. pres_go (@anything bool). Qed.

#[local] Hint Resolve pres_updateDomains : pres_new.

Lemma pres_updateAllDomains h0 squares :
  is_new (length h0) squares → pres h0 anything (Heap.updateAllDomains squares).
Proof. intros Hs. unfold Heap.updateAllDomains. pres_go (@anything bool). Qed.

Lemma pres_index_of h0 z : pres h0 anything (Heap.index_of z).
Proof. unfold Heap.index_of. pres_go (@anything unit). Qed.

#[local] Hint Resolve pres_updateAllDomains : pres_new.
#[local] Hint Resolve pres_index_of : pres.

Lemma pres_backtrack h0 fuel sudoku :
  is_new (length h0) sudoku →
  pres h0 (is_new (length h0)) (Heap.backtrack fuel sudoku).
Proof.
  revert sudoku. induction fuel as [|fuel IH]; intros sudoku Hs; [apply pres_throw|].
  cbn [Heap.backtrack]. pres_go (is_new (length h0)).
Qed.

Lemma pres_solve h0 fuel squares :
  pres h0 (is_new (length h0)) (Heap.solve fuel squares).
Proof.
  unfold Heap.solve. pose proof pres_backtrack. pres_go (@anything unit).
Qed.

(** *** Boards read off a heap that has grown *)

Lemma read_square_prefix h h' s q :
  h `prefix_of` h' → Heap.read_square h s = Some q → Heap.read_square h' s = Some q.
Proof.
  intros Hpre. unfold Heap.read_square.
  destruct (h !! s) as [[| |r c v d|]|] eqn:Es; try done.
  destruct (h !! d) as [[xs| | |]|] eqn:Ed; try done.
  rewrite (prefix_lookup_Some _ _ _ _ Es Hpre). cbn beta iota.
  by rewrite (prefix_lookup_Some _ _ _ _ Ed Hpre).
Qed.

Lemma mapM_Some_impl {A B} (f g : A → option B) l k :
  (∀ x y, f x = Some y → g x = Some y) → mapM f l = Some k → mapM g l = Some k.
Proof.
  intros Hfg. rewrite !mapM_Some. intros H. eapply Forall2_impl; [exact H|]. done.
Qed.

Lemma read_row_prefix h h' r R :
  h `prefix_of` h' → Heap.read_row h r = Some R → Heap.read_row h' r = Some R.
Proof.
  intros Hpre. unfold Heap.read_row.
  destruct (h !! r) as [[|cells| |]|] eqn:Er; try done.
  rewrite (prefix_lookup_Some _ _ _ _ Er Hpre).
  apply mapM_Some_impl. intros s q. by apply read_square_prefix.
Qed.

Lemma read_board_prefix h h' b B :
  h `prefix_of` h' → Heap.read_board h b = Some B → Heap.read_board h' b = Some B.
Proof.
  intros Hpre. unfold Heap.read_board.
  destruct (h !! b) as [[|rows| |]|] eqn:Eb; try done.
  rewrite (prefix_lookup_Some _ _ _ _ Eb Hpre).
  apply mapM_Some_impl. intros r R. by apply read_row_prefix.
Qed.

(** Everything a new board is made of is new. *)
Lemma footprint_new h0 h b :
  good h0 h → is_new (length h0) b → Forall (is_new (length h0)) (Heap.footprint h b).
Proof.
  intros [_ Hcl] Hb. unfold Heap.footprint.
  destruct (h !! b) as [[|rows| |]|] eqn:Eb; try by apply Forall_singleton.
  apply Forall_cons. split; [done|].
  pose proof (Hcl _ _ Hb Eb) as Hrows. simpl in Hrows.
  apply Forall_bind. eapply Forall_impl; [exact Hrows|]. intros r Hr. simpl.
  unfold Heap.row_locs.
  destruct (h !! r) as [[|cells| |]|] eqn:Er; try by apply Forall_singleton.
  apply Forall_cons. split; [done|].
  pose proof (Hcl _ _ Hr Er) as Hcells. simpl in Hcells.
  apply Forall_bind. eapply Forall_impl; [exact Hcells|]. intros s Hs. simpl.
  unfold Heap.square_locs.
  destruct (h !! s) as [[| |r' c' v' d|]|] eqn:Es; try by apply Forall_singleton.
  pose proof (Hcl _ _ Hs Es) as Hd. simpl in Hd.
  apply Forall_cons. split; [done|]. done.
Qed.


(** * The heap model: copies share nothing *)

(** *** Running a computation *)

Lemma bind_run {A B} (m : Heap.M A) (f : A → Heap.M B) h a h' :
  m h = Some (a, h') → Heap.bind m f h = f a h'.
Proof. intros E. unfold Heap.bind. by rewrite E. Qed.

Lemma run_load h l o : h !! l = Some o → Heap.load l h = Some (o, h).
Proof. intros E. unfold Heap.load. by rewrite E. Qed.

Lemma run_store h l o :
  l < length h → Heap.store l o h = Some ((), <[l := o]> h).
Proof. intros Hl. unfold Heap.store. by rewrite decide_True. Qed.

Lemma run_get_refs h l xs :
  h !! l = Some (Heap.ORefs xs) → Heap.get_refs l h = Some (xs, h).
Proof. intros E. unfold Heap.get_refs. by rewrite (bind_run _ _ _ _ _ (run_load _ _ _ E)). Qed.

Lemma run_get_nums h l xs :
  h !! l = Some (Heap.ONums xs) → Heap.get_nums l h = Some (xs, h).
Proof. intros E. unfold Heap.get_nums. by rewrite (bind_run _ _ _ _ _ (run_load _ _ _ E)). Qed.

Lemma run_refs_length h l xs :
  h !! l = Some (Heap.ORefs xs) → Heap.refs_length l h = Some (length xs, h).
Proof.
  intros E. unfold Heap.refs_length. by rewrite (bind_run _ _ _ _ _ (run_get_refs _ _ _ E)).
Qed.

Lemma run_nums_length h l xs :
  h !! l = Some (Heap.ONums xs) → Heap.nums_length l h = Some (length xs, h).
Proof.
  intros E. unfold Heap.nums_length. by rewrite (bind_run _ _ _ _ _ (run_get_nums _ _ _ E)).
Qed.

Lemma run_refs_at h l xs i x :
  h !! l = Some (Heap.ORefs xs) → xs !! i = Some x → Heap.refs_at l i h = Some (x, h).
Proof.
  intros E Ei. unfold Heap.refs_at.
  rewrite (bind_run _ _ _ _ _ (run_get_refs _ _ _ E)). by rewrite Ei.
Qed.

Lemma run_nums_at h l xs i x :
  h !! l = Some (Heap.ONums xs) → xs !! i = Some x → Heap.nums_at l i h = Some (x, h).
Proof.
  intros E Ei. unfold Heap.nums_at.
  rewrite (bind_run _ _ _ _ _ (run_get_nums _ _ _ E)). by rewrite Ei.
Qed.

Lemma run_refs_push h l xs x :
  h !! l = Some (Heap.ORefs xs) →
  Heap.refs_set l (length xs) x h = Some ((), <[l := Heap.ORefs (xs ++ [x])]> h).
Proof.
  intros E. unfold Heap.refs_set.
  rewrite (bind_run _ _ _ _ _ (run_get_refs _ _ _ E)).
  rewrite decide_False by lia. rewrite decide_True by done.
  apply run_store. by eapply lookup_lt_Some.
Qed.

Lemma run_at2 h b rows i r cells j s :
  h !! b = Some (Heap.ORefs rows) → rows !! i = Some r →
  h !! r = Some (Heap.ORefs cells) → cells !! j = Some s →
  Heap.at2 b i j h = Some (s, h).
Proof.
  intros Eb Ei Er Ej. unfold Heap.at2.
  rewrite (bind_run _ _ _ _ _ (run_refs_at _ _ _ _ _ Eb Ei)).
  by eapply run_refs_at.
Qed.

Lemma run_sq_row h s r c v d :
  h !! s = Some (Heap.OSquare r c v d) → Heap.sq_row s h = Some (r, h).
Proof. intros E. unfold Heap.sq_row. by rewrite (bind_run _ _ _ _ _ (run_load _ _ _ E)). Qed.

Lemma run_sq_col h s r c v d :
  h !! s = Some (Heap.OSquare r c v d) → Heap.sq_col s h = Some (c, h).
Proof. intros E. unfold Heap.sq_col. by rewrite (bind_run _ _ _ _ _ (run_load _ _ _ E)). Qed.

Lemma run_sq_value h s r c v d :
  h !! s = Some (Heap.OSquare r c v d) → Heap.sq_value s h = Some (v, h).
Proof. intros E. unfold Heap.sq_value. by rewrite (bind_run _ _ _ _ _ (run_load _ _ _ E)). Qed.

Lemma run_sq_domain h s r c v d :
  h !! s = Some (Heap.OSquare r c v d) → Heap.sq_domain s h = Some (d, h).
Proof. intros E. unfold Heap.sq_domain. by rewrite (bind_run _ _ _ _ _ (run_load _ _ _ E)). Qed.

Lemma run_nums_slice0 h d xs :
  h !! d = Some (Heap.ONums xs) →
  Heap.nums_slice0 d h = Some (length h, h ++ [Heap.ONums xs]).
Proof.
  intros E. unfold Heap.nums_slice0.
  by rewrite (bind_run _ _ _ _ _ (run_get_nums _ _ _ E)).
Qed.

(** *** The loop rules, for runs *)

Lemma for_guard_nil {R} bound n (body : nat → Heap.M (flow unit R)) :
  Heap.for_guard bound n [] body =
    Heap.bind bound (λ b, if negb (b =? n) then Heap.throw else Heap.ret (Next ())).
Proof. done. Qed.

Lemma for_guard_cons {R} bound n i ixs (body : nat → Heap.M (flow unit R)) :
  Heap.for_guard bound n (i :: ixs) body =
    Heap.bind bound (λ b,
      if negb (b =? n) then Heap.throw else
      Heap.bind (body i) (λ r,
        match r with
        | Return x => Heap.ret (Return x)
        | Next _ => Heap.for_guard bound n ixs body
        end)).
Proof. done. Qed.

Lemma for_guard_run {R} (I : nat → list Heap.obj → Prop) (Q : R → list Heap.obj → Prop)
    bound body n m a h0 :
  a + m = n →
  (∀ k h, k ≤ n → I k h → bound h = Some (n, h)) →
  I a h0 →
  (∀ k h, k < n → I k h →
     ∃ r h', body k h = Some (r, h') ∧
       match r with Next _ => I (S k) h' | Return x => Q x h' end) →
  ∃ r h', Heap.for_guard bound n (seq a m) body h0 = Some (r, h') ∧
    match r with Next _ => I n h' | Return x => Q x h' end.
Proof.
  intros Hn Hbound HI Hbody. revert a h0 Hn HI.
  induction m as [|m IH]; intros a h0 Hn HI; cbn [seq].
  - rewrite for_guard_nil. rewrite (bind_run _ _ _ _ _ (Hbound a h0 ltac:(lia) HI)).
    rewrite Nat.eqb_refl. simpl. exists (Next ()), h0. split; [done|].
    by replace n with a by lia.
  - rewrite for_guard_cons. rewrite (bind_run _ _ _ _ _ (Hbound a h0 ltac:(lia) HI)).
    rewrite Nat.eqb_refl. simpl.
    destruct (Hbody a h0 ltac:(lia) HI) as (r & h1 & Hr & Hpost).
    rewrite (bind_run _ _ _ _ _ Hr). destruct r as [[]|x].
    + apply IH; [lia|done].
    + by exists (Return x), h1.
Qed.

Lemma for_to_run {R} (I : nat → list Heap.obj → Prop) (Q : R → list Heap.obj → Prop)
    bound body n h0 :
  (∀ k h, k ≤ n → I k h → bound h = Some (n, h)) →
  I 0 h0 →
  (∀ k h, k < n → I k h →
     ∃ r h', body k h = Some (r, h') ∧
       match r with Next _ => I (S k) h' | Return x => Q x h' end) →
  ∃ r h', Heap.for_to bound body h0 = Some (r, h') ∧
    match r with Next _ => I n h' | Return x => Q x h' end.
Proof.
  intros Hbound HI Hbody. unfold Heap.for_to.
  rewrite (bind_run _ _ _ _ _ (Hbound 0 h0 ltac:(lia) HI)).
  by apply (for_guard_run I Q bound body n n 0 h0).
Qed.

(** *** Reading a board depends on its footprint only *)

Lemma mapM_ext_in {A B} (f g : A → option B) l :
  (∀ x, x ∈ l → f x = g x) → mapM f l = mapM g l.
Proof.
  induction l as [|x l IH]; intros H; [done|]. simpl.
  rewrite (H x) by by left. rewrite IH; [done|]. intros y Hy. apply H. by right.
Qed.

Lemma bind_ext_in {A B} (f g : A → list B) (l : list A) :
  (∀ x, x ∈ l → f x = g x) → l ≫= f = l ≫= g.
Proof.
  induction l as [|x l IH]; intros H; [done|]. rewrite !bind_cons.
  rewrite (H x) by by left. rewrite IH; [done|]. intros y Hy. apply H. by right.
Qed.

Lemma square_locs_self h s : s ∈ Heap.square_locs h s.
Proof. unfold Heap.square_locs. destruct (h !! s) as [[]|]; by left. Qed.

Lemma row_locs_self h r : r ∈ Heap.row_locs h r.
Proof. unfold Heap.row_locs. destruct (h !! r) as [[]|]; by left. Qed.

Lemma footprint_self h b : b ∈ Heap.footprint h b.
Proof. unfold Heap.footprint. destruct (h !! b) as [[]|]; by left. Qed.

Lemma agree_square h h' s :
  agree (Heap.square_locs h s) h h' →
  Heap.read_square h' s = Heap.read_square h s ∧
  Heap.square_locs h' s = Heap.square_locs h s.
Proof.
  intros Hag. pose proof (Hag s (square_locs_self h s)) as Hs.
  unfold Heap.read_square, Heap.square_locs in *. rewrite Hs.
  destruct (h !! s) as [[| |r c v d|]|]; try done.
  rewrite (Hag d) by (right; by left). done.
Qed.

Lemma agree_row h h' r :
  agree (Heap.row_locs h r) h h' →
  Heap.read_row h' r = Heap.read_row h r ∧
  Heap.row_locs h' r = Heap.row_locs h r.
Proof.
  intros Hag. pose proof (Hag r (row_locs_self h r)) as Hr.
  unfold Heap.read_row, Heap.row_locs in *. rewrite Hr.
  destruct (h !! r) as [[|cells| |]|]; try done.
  assert (∀ s, s ∈ cells → agree (Heap.square_locs h s) h h') as Hcells.
  { intros s Hs l Hl. apply Hag. right. apply list_elem_of_bind. by exists s. }
  split.
  - apply mapM_ext_in. intros s Hs. by apply agree_square, Hcells.
  - f_equal. apply bind_ext_in. intros s Hs. by apply agree_square, Hcells.
Qed.

Lemma agree_board h h' b :
  agree (Heap.footprint h b) h h' →
  Heap.read_board h' b = Heap.read_board h b ∧
  Heap.footprint h' b = Heap.footprint h b.
Proof.
  intros Hag. pose proof (Hag b (footprint_self h b)) as Hb.
  unfold Heap.read_board, Heap.footprint in *. rewrite Hb.
  destruct (h !! b) as [[|rows| |]|]; try done.
  assert (∀ r, r ∈ rows → agree (Heap.row_locs h r) h h') as Hrows.
  { intros r Hr l Hl. apply Hag. right. apply list_elem_of_bind. by exists r. }
  split.
  - apply mapM_ext_in. intros r Hr. by apply agree_row, Hrows.
  - f_equal. apply bind_ext_in. intros r Hr. by apply agree_row, Hrows.
Qed.

Lemma mapM_snoc {A B} (f : A → option B) l x Y :
  mapM f (l ++ [x]) = Some Y ↔ ∃ k y, Y = k ++ [y] ∧ mapM f l = Some k ∧ f x = Some y.
Proof.
  rewrite mapM_Some. split.
  - intros (k1 & k2 & H1 & H2 & ->)%Forall2_app_inv_l.
    apply Forall2_cons_inv_l in H2 as (y & k3 & Hy & H3 & ->).
    apply Forall2_nil_inv_l in H3 as ->.
    exists k1, y. split; [done|]. split; [by apply mapM_Some|done].
  - intros (k & y & -> & Hk & Hy). apply Forall2_app; [by apply mapM_Some|].
    by apply Forall2_cons.
Qed.

Lemma read_board_inv h b B :
  Heap.read_board h b = Some B →
  ∃ rows, h !! b = Some (Heap.ORefs rows) ∧ mapM (Heap.read_row h) rows = Some B.
Proof.
  unfold Heap.read_board. destruct (h !! b) as [[|rows| |]|]; try done. by exists rows.
Qed.

Lemma read_row_inv h r R :
  Heap.read_row h r = Some R →
  ∃ cells, h !! r = Some (Heap.ORefs cells) ∧ mapM (Heap.read_square h) cells = Some R.
Proof.
  unfold Heap.read_row. destruct (h !! r) as [[|cells| |]|]; try done. by exists cells.
Qed.

Lemma read_square_inv h s q :
  Heap.read_square h s = Some q →
  ∃ d, h !! s = Some (Heap.OSquare (row q) (col q) (value q) d) ∧
       h !! d = Some (Heap.ONums (domain q)).
Proof.
  unfold Heap.read_square. destruct (h !! s) as [[| |r c v d|]|]; try done.
  destruct (h !! d) as [[xs| | |]|] eqn:Ed; try done. intros [= <-]. by exists d.
Qed.

Lemma read_board_eq h b rows :
  h !! b = Some (Heap.ORefs rows) →
  Heap.read_board h b = mapM (Heap.read_row h) rows ∧
  Heap.footprint h b = b :: (rows ≫= Heap.row_locs h).
Proof. intros E. unfold Heap.read_board, Heap.footprint. by rewrite E. Qed.

Lemma read_row_eq h r cells :
  h !! r = Some (Heap.ORefs cells) →
  Heap.read_row h r = mapM (Heap.read_square h) cells ∧
  Heap.row_locs h r = r :: (cells ≫= Heap.square_locs h).
Proof. intros E. unfold Heap.read_row, Heap.row_locs. by rewrite E. Qed.

(** Where the source board keeps the square at [(i,j)]. *)
Lemma board_at2 h b B i j R q :
  Heap.read_board h b = Some B → B !! i = Some R → R !! j = Some q →
  ∃ s d, Heap.at2 b i j h = Some (s, h) ∧
         h !! s = Some (Heap.OSquare (row q) (col q) (value q) d) ∧
         h !! d = Some (Heap.ONums (domain q)).
Proof.
  intros (rows & Eb & Hrows)%read_board_inv HR Hq.
  apply mapM_Some in Hrows.
  destruct (Forall2_lookup_r _ _ _ _ _ Hrows HR) as (r & Hr & Hrow).
  apply read_row_inv in Hrow as (cells & Er & Hcells).
  apply mapM_Some in Hcells.
  destruct (Forall2_lookup_r _ _ _ _ _ Hcells Hq) as (s & Hs & Hsq).
  apply read_square_inv in Hsq as (d & Es & Ed).
  exists s, d. split; [by eapply run_at2|done].
Qed.

(** Appending an empty row to a board under construction. *)
Lemma push_row hh nb rowsL X :
  hh !! nb = Some (Heap.ORefs rowsL) →
  Heap.read_board hh nb = Some X →
  Forall (λ l, l < length hh) (Heap.footprint hh nb) →
  NoDup (Heap.footprint hh nb) →
  let hh2 := <[nb := Heap.ORefs (rowsL ++ [length hh])]> (hh ++ [Heap.ORefs []]) in
  Heap.read_board hh2 nb = Some (X ++ [[]]) ∧
  Heap.footprint hh2 nb = Heap.footprint hh nb ++ [length hh].
Proof.
  intros Enb HX Hlt Hnd hh2.
  destruct (read_board_eq _ _ _ Enb) as [Hrb Hfp].
  rewrite Hrb in HX. rewrite Hfp in Hlt, Hnd |- *.
  apply Forall_cons in Hlt as [Hnb Hlt]. apply NoDup_cons in Hnd as [Hnbnotin Hnd].
  assert (hh2 !! nb = Some (Heap.ORefs (rowsL ++ [length hh]))) as Enb2.
  { unfold hh2. apply list_lookup_insert_eq. rewrite length_app. simpl. lia. }
  assert (∀ l, l < length hh → l ≠ nb → hh2 !! l = hh !! l) as Hsame.
  { intros l Hl Hne. unfold hh2. rewrite list_lookup_insert_ne by done.
    by rewrite lookup_app_l. }
  assert (hh2 !! length hh = Some (Heap.ORefs [])) as Enew.
  { unfold hh2. rewrite list_lookup_insert_ne by lia.
    rewrite lookup_app_r by lia. by rewrite Nat.sub_diag. }
  assert (∀ r, r ∈ rowsL → agree (Heap.row_locs hh r) hh hh2) as Hag.
  { intros r Hr l Hl.
    assert (l ∈ rowsL ≫= Heap.row_locs hh) as Hin by (apply list_elem_of_bind; by exists r).
    apply Hsame.
    - rewrite Forall_forall in Hlt. by apply Hlt.
    - intros ->. done. }
  destruct (read_board_eq _ _ _ Enb2) as [-> ->].
  split.
  - apply mapM_snoc. exists X, []. split; [done|]. split.
    + rewrite <- HX. apply mapM_ext_in. intros r Hr. by apply agree_row, Hag.
    + unfold Heap.read_row. by rewrite Enew.
  - rewrite bind_app. simpl. f_equal. f_equal.
    + apply bind_ext_in. intros r Hr. by apply agree_row, Hag.
    + unfold Heap.row_locs. rewrite Enew. done.
Qed.

(** Appending a new square, with a domain array of its own, to the last
    row of a board under construction. *)
Lemma push_square hh nb rowsL rl cells X R r c v xs :
  hh !! nb = Some (Heap.ORefs (rowsL ++ [rl])) →
  hh !! rl = Some (Heap.ORefs cells) →
  Heap.read_board hh nb = Some (X ++ [R]) →
  Forall (λ l, l < length hh) (Heap.footprint hh nb) →
  NoDup (Heap.footprint hh nb) →
  let hh3 := <[rl := Heap.ORefs (cells ++ [S (length hh)])]>
               ((hh ++ [Heap.ONums xs]) ++ [Heap.OSquare r c v (length hh)]) in
  Heap.read_board hh3 nb = Some (X ++ [R ++ [mkSquare r c v xs]]) ∧
  Heap.footprint hh3 nb = Heap.footprint hh nb ++ [S (length hh); length hh].
Proof.
  intros Enb Erl HX Hlt Hnd hh3.
  destruct (read_board_eq _ _ _ Enb) as [Hrb Hfp].
  rewrite Hrb in HX. rewrite Hfp in Hlt, Hnd |- *.
  apply mapM_snoc in HX as (X' & R' & HXR & HX & HR).
  apply app_inj_tail in HXR as [<- <-].
  destruct (read_row_eq _ _ _ Erl) as [Hrr Hrl].
  rewrite Hrr in HR.
  rewrite bind_app in Hlt, Hnd |- *. simpl in Hlt, Hnd |- *.
  rewrite app_nil_r, Hrl in Hlt, Hnd |- *.
  apply Forall_cons in Hlt as [Hnb Hlt]. apply NoDup_cons in Hnd as [Hnbnotin Hnd].
  apply Forall_app in Hlt as [Hlt1 Hlt2]. apply Forall_cons in Hlt2 as [Hrllt Hlt2].
  apply NoDup_app in Hnd as (Hnd1 & Hdisj & Hnd2).
  apply NoDup_cons in Hnd2 as [Hrlnotin Hnd2].
  assert (nb ≠ rl) as Hnbrl.
  { intros ->. apply Hnbnotin. apply elem_of_app. right. by left. }
  assert (∀ l, l < length hh → l ≠ rl → hh3 !! l = hh !! l) as Hsame.
  { intros l Hl Hne. unfold hh3. rewrite list_lookup_insert_ne by done.
    rewrite lookup_app_l by (rewrite length_app; simpl; lia). by rewrite lookup_app_l. }
  assert (hh3 !! nb = Some (Heap.ORefs (rowsL ++ [rl]))) as Enb3.
  { by rewrite Hsame. }
  assert (hh3 !! rl = Some (Heap.ORefs (cells ++ [S (length hh)]))) as Erl3.
  { unfold hh3. apply list_lookup_insert_eq. rewrite !length_app. simpl. lia. }
  assert (hh3 !! length hh = Some (Heap.ONums xs)) as Ed3.
  { unfold hh3. rewrite list_lookup_insert_ne by lia.
    rewrite lookup_app_l by (rewrite length_app; simpl; lia).
    rewrite lookup_app_r by lia. by rewrite Nat.sub_diag. }
  assert (hh3 !! S (length hh) = Some (Heap.OSquare r c v (length hh))) as Es3.
  { unfold hh3. rewrite list_lookup_insert_ne by lia.
    rewrite lookup_app_r by (rewrite length_app; simpl; lia).
    rewrite length_app. simpl. by replace (S (length hh) - (length hh + 1)) with 0 by lia. }
  assert (∀ r', r' ∈ rowsL → agree (Heap.row_locs hh r') hh hh3) as Hag.
  { intros r' Hr' l Hl.
    assert (l ∈ rowsL ≫= Heap.row_locs hh) as Hin by (apply list_elem_of_bind; by exists r').
    apply Hsame.
    - rewrite Forall_forall in Hlt1. by apply Hlt1.
    - intros ->. apply (Hdisj rl); [done|by left]. }
  assert (∀ s, s ∈ cells → agree (Heap.square_locs hh s) hh hh3) as Hagc.
  { intros s Hs l Hl.
    assert (l ∈ cells ≫= Heap.square_locs hh) as Hin by (apply list_elem_of_bind; by exists s).
    apply Hsame.
    - rewrite Forall_forall in Hlt2. by apply Hlt2.
    - intros ->. done. }
  destruct (read_board_eq _ _ _ Enb3) as [-> ->].
  destruct (read_row_eq _ _ _ Erl3) as [Hrr3 Hrl3].
  split.
  - apply mapM_snoc. exists X, (R ++ [mkSquare r c v xs]). split; [done|]. split.
    + rewrite <- HX. apply mapM_ext_in. intros r' Hr'. by apply agree_row, Hag.
    + rewrite Hrr3. apply mapM_snoc. exists R, (mkSquare r c v xs). split; [done|]. split.
      * rewrite <- HR. apply mapM_ext_in. intros s Hs. by apply agree_square, Hagc.
      * unfold Heap.read_square. by rewrite Es3, Ed3.
  - rewrite bind_app. simpl. rewrite app_nil_r, Hrl3.
    rewrite bind_app. simpl. unfold Heap.square_locs at 2. rewrite Es3. simpl.
    rewrite <- app_assoc. simpl. f_equal. f_equal.
    + apply bind_ext_in. intros r' Hr'. by apply agree_row, Hag.
    + f_equal. f_equal.
      apply bind_ext_in. intros s Hs. by apply agree_square, Hagc.
Qed.

Ltac hstep H := rewrite (bind_run _ _ _ _ _ H).

Lemma prefix_insert_new {A} (h hh : list A) l o :
  h `prefix_of` hh → length h ≤ l → h `prefix_of` <[l := o]> hh.
Proof. intros [k ->] Hl. rewrite insert_app_r_alt by done. by apply prefix_app_r. Qed.

Lemma building_push_square h nb rowsL rl cells X R hh r c v xs :
  building h nb (X ++ [R]) hh →
  hh !! nb = Some (Heap.ORefs (rowsL ++ [rl])) →
  hh !! rl = Some (Heap.ORefs cells) →
  building h nb (X ++ [R ++ [mkSquare r c v xs]])
    (<[rl := Heap.ORefs (cells ++ [S (length hh)])]>
       ((hh ++ [Heap.ONums xs]) ++ [Heap.OSquare r c v (length hh)])).
Proof.
  intros (Hpre & Hrb & Hrange & Hnd) Enb Erl.
  assert (Forall (λ l, l < length hh) (Heap.footprint hh nb)) as Hlt.
  { eapply Forall_impl; [exact Hrange|]. intros l ?. simpl in *. lia. }
  destruct (push_square hh nb rowsL rl cells X R r c v xs Enb Erl Hrb Hlt Hnd) as [Hrb3 Hfp3].
  assert (length h ≤ rl) as Hrl.
  { rewrite Forall_forall in Hrange. apply Hrange.
    rewrite (proj2 (read_board_eq _ _ _ Enb)). right.
    apply list_elem_of_bind. exists rl. split; [apply row_locs_self|].
    apply elem_of_app. right. by left. }
  split_and!.
  - apply prefix_insert_new; [|done]. by do 2 apply prefix_app_r.
  - done.
  - rewrite Hfp3. rewrite length_insert, !length_app. simpl.
    pose proof (prefix_length _ _ Hpre).
    apply Forall_app. split.
    + eapply Forall_impl; [exact Hrange|]. intros l ?. simpl in *. lia.
    + repeat (apply Forall_cons; split; [lia|]). done.
  - rewrite Hfp3. apply NoDup_app. split_and!; [done| |].
    + intros l Hl Hin. rewrite Forall_forall in Hlt. specialize (Hlt l Hl).
      apply elem_of_cons in Hin as [->|Hin]; [lia|].
      apply list_elem_of_singleton in Hin as ->. lia.
    + apply NoDup_cons. split; [|apply NoDup_singleton].
      intros Hin%list_elem_of_singleton. lia.
Qed.

Lemma building_push_row h nb rowsL X hh :
  building h nb X hh →
  hh !! nb = Some (Heap.ORefs rowsL) →
  building h nb (X ++ [[]])
    (<[nb := Heap.ORefs (rowsL ++ [length hh])]> (hh ++ [Heap.ORefs []])).
Proof.
  intros (Hpre & Hrb & Hrange & Hnd) Enb.
  assert (Forall (λ l, l < length hh) (Heap.footprint hh nb)) as Hlt.
  { eapply Forall_impl; [exact Hrange|]. intros l ?. simpl in *. lia. }
  destruct (push_row hh nb rowsL X Enb Hrb Hlt Hnd) as [Hrb2 Hfp2].
  assert (length h ≤ nb) as Hnb.
  { rewrite Forall_forall in Hrange. apply Hrange, footprint_self. }
  split_and!.
  - apply prefix_insert_new; [|done]. by apply prefix_app_r.
  - done.
  - rewrite Hfp2. rewrite length_insert, !length_app. simpl.
    pose proof (prefix_length _ _ Hpre).
    apply Forall_app. split.
    + eapply Forall_impl; [exact Hrange|]. intros l ?. simpl in *. lia.
    + apply Forall_singleton. lia.
  - rewrite Hfp2. apply NoDup_app. split_and!; [done| |apply NoDup_singleton].
    intros l Hl Hin%list_elem_of_singleton. rewrite Forall_forall in Hlt.
    specialize (Hlt l Hl). lia.
Qed.

Lemma building_last h nb X R hh :
  building h nb (X ++ [R]) hh →
  ∃ rowsL rl cells,
    hh !! nb = Some (Heap.ORefs (rowsL ++ [rl])) ∧ length rowsL = length X ∧
    hh !! rl = Some (Heap.ORefs cells) ∧ length cells = length R ∧ rl < length hh.
Proof.
  intros (Hpre & Hrb & Hrange & Hnd).
  destruct (read_board_inv _ _ _ Hrb) as (rows & Enb & Hrows).
  destruct rows as [|r0 rows'] using rev_ind.
  { apply mapM_Some, Forall2_nil_inv_l in Hrows. by destruct X. }
  clear IHrows'. apply mapM_snoc in Hrows as (X' & R' & HXR & HX & HR).
  apply app_inj_tail in HXR as [<- <-].
  apply read_row_inv in HR as (cells & Erl & Hcells).
  exists rows', r0, cells. split_and!; [done| |done| |].
  - by apply length_mapM in HX.
  - by apply length_mapM in Hcells.
  - by eapply lookup_lt_Some.
Qed.

Lemma run_ret {A} (a : A) h : Heap.ret a h = Some (a, h).
Proof. done. Qed.

Lemma run_alloc o h : Heap.alloc o h = Some (length h, h ++ [o]).
Proof. done. Qed.

(** [copySquares] builds, on top of the heap it finds, a board that
    stands for the same values and domains as its argument. *)
Lemma copySquares_run h b B n :
  Heap.read_board h b = Some B → square_grid n B →
  ∃ h', Heap.copySquares b h = Some (length h, h') ∧ building h (length h) B h'.
Proof.
  intros HB [Hn Hrows]. rewrite Forall_forall in Hrows.
  set (nb := length h).
  destruct (read_board_inv _ _ _ HB) as (srows & Eb & Hsrows).
  assert (length srows = n) as Hsn by (apply length_mapM in Hsrows; lia).
  assert (∀ hh, h `prefix_of` hh → Heap.refs_length b hh = Some (n, hh)) as Hbound.
  { intros hh Hpre. rewrite <- Hsn. apply run_refs_length.
    by eapply prefix_lookup_Some. }
  unfold Heap.copySquares. hstep (run_alloc (Heap.ORefs []) h). fold nb.
  match goal with |- context [Heap.for_to _ ?body] =>
    destruct (for_to_run (R := unit)
      (λ i hh, building h nb (take i B) hh) (λ _ _, False)
      (Heap.refs_length b) body n (h ++ [Heap.ORefs []])) as (r & h' & Hrun & Hpost)
  end.
  - intros k hh _ Hbd. apply Hbound, Hbd.
  - split_and!.
    + by apply prefix_app_r.
    + unfold Heap.read_board. rewrite lookup_app_r by done.
      by rewrite Nat.sub_diag.
    + unfold Heap.footprint. rewrite lookup_app_r by done. rewrite Nat.sub_diag. simpl.
      apply Forall_singleton. rewrite length_app. simpl. unfold nb. lia.
    + unfold Heap.footprint. rewrite lookup_app_r by done. rewrite Nat.sub_diag. simpl.
      apply NoDup_singleton.
  - intros i hh Hi Hbd.
    destruct (lookup_lt_is_Some_2 B i) as [R HR]; [lia|].
    assert (length R = n) as HRn by (apply Hrows; by eapply list_elem_of_lookup_2).
    hstep (run_alloc (Heap.ORefs []) hh).
    destruct (read_board_inv _ _ _ (proj1 (proj2 Hbd))) as (rowsL & Enb & HrowsL).
    assert (length rowsL = i) as HrowsLi.
    { apply length_mapM in HrowsL. rewrite length_take in HrowsL. lia. }
    assert ((hh ++ [Heap.ORefs []]) !! nb = Some (Heap.ORefs rowsL)) as Enb1.
    { rewrite lookup_app_l; [done|]. by eapply lookup_lt_Some. }
    pose proof (run_refs_push _ _ _ (length hh) Enb1) as Hpush. rewrite HrowsLi in Hpush.
    hstep Hpush.
    pose proof (building_push_row _ _ _ _ _ Hbd Enb) as Hbd2.
    match goal with |- context [Heap.for_to _ ?body] =>
      destruct (for_to_run (R := unit)
        (λ j hh', building h nb (take i B ++ [take j R]) hh') (λ _ _, False)
        (Heap.refs_length b) body n
        (<[nb := Heap.ORefs (rowsL ++ [length hh])]> (hh ++ [Heap.ORefs []])))
        as (r & h' & Hrun & Hpost)
    end.
    + intros k hh' _ Hbd'. apply Hbound, Hbd'.
    + done.
    + intros j hh' Hj Hbd'.
      destruct (lookup_lt_is_Some_2 R j) as [q Hq]; [lia|].
      pose proof (read_board_prefix _ _ _ _ (proj1 Hbd') HB) as HB'.
      destruct (board_at2 _ _ _ _ _ _ _ HB' HR Hq) as (s & d & Hat & Es & Ed).
      destruct (building_last _ _ _ _ _ Hbd')
        as (rowsL' & rl & cells & Enb' & HrowsL' & Erl & Hcells & Hrllt).
      rewrite !length_take in *.
      hstep Hat.
      assert ((rowsL' ++ [rl]) !! i = Some rl) as Hrli.
      { rewrite lookup_app_r by lia. by replace (i - length rowsL') with 0 by lia. }
      hstep (run_refs_at _ _ _ _ _ Enb' Hrli).
      hstep (run_sq_row _ _ _ _ _ _ Es). hstep (run_sq_col _ _ _ _ _ _ Es).
      hstep (run_sq_value _ _ _ _ _ _ Es). hstep (run_sq_domain _ _ _ _ _ _ Es).
      hstep (run_nums_slice0 _ _ _ Ed).
      hstep (run_alloc (Heap.OSquare (row q) (col q) (value q) (length hh'))
                       (hh' ++ [Heap.ONums (domain q)])).
      assert (((hh' ++ [Heap.ONums (domain q)]) ++
               [Heap.OSquare (row q) (col q) (value q) (length hh')]) !! rl
              = Some (Heap.ORefs cells)) as Erl2.
      { rewrite lookup_app_l by (rewrite length_app; simpl; lia). by rewrite lookup_app_l. }
      pose proof (run_refs_push _ _ _ (length (hh' ++ [Heap.ONums (domain q)])) Erl2) as Hpush2.
      replace (length cells) with j in Hpush2 by lia.
      hstep Hpush2. rewrite run_ret.
      eexists (Next ()), _. split; [done|].
      rewrite (take_S_r _ _ _ Hq).
      rewrite length_app. simpl. rewrite Nat.add_1_r.
      pose proof (building_push_square _ _ _ _ _ _ _ _ (row q) (col q) (value q) (domain q)
                    Hbd' Enb' Erl) as Hbd3.
      by destruct q.
    + destruct r as [[]|x]; [|done]. exists (Next ()), h'. split; [done|].
      rewrite (take_S_r _ _ _ HR). by rewrite (take_ge R) in Hpost by lia.
  - destruct r as [[]|x]; [|done]. hstep Hrun. rewrite run_ret.
    exists h'. split; [done|]. by rewrite (take_ge B) in Hpost by lia.
Qed.

Lemma read_square_alloc h s q :
  Heap.read_square h s = Some q → Forall (λ l, l < length h) (Heap.square_locs h s).
Proof.
  intros (d & Es & Ed)%read_square_inv. unfold Heap.square_locs. rewrite Es.
  repeat (apply Forall_cons; split; [by eapply lookup_lt_Some|]). done.
Qed.

Lemma read_row_alloc h r R :
  Heap.read_row h r = Some R → Forall (λ l, l < length h) (Heap.row_locs h r).
Proof.
  intros (cells & Er & Hcells)%read_row_inv.
  rewrite (proj2 (read_row_eq _ _ _ Er)).
  apply Forall_cons. split; [by eapply lookup_lt_Some|].
  apply Forall_bind, Forall_forall. intros s Hs.
  apply mapM_Some in Hcells.
  apply list_elem_of_lookup in Hs as [j Hj].
  destruct (Forall2_lookup_l _ _ _ _ _ Hcells Hj) as (q & _ & Hq).
  by eapply read_square_alloc.
Qed.

(** A board that can be read is made of allocated objects. *)
Lemma read_board_alloc h b B :
  Heap.read_board h b = Some B → Forall (λ l, l < length h) (Heap.footprint h b).
Proof.
  intros (rows & Eb & Hrows)%read_board_inv.
  rewrite (proj2 (read_board_eq _ _ _ Eb)).
  apply Forall_cons. split; [by eapply lookup_lt_Some|].
  apply Forall_bind, Forall_forall. intros r Hr.
  apply mapM_Some in Hrows.
  apply list_elem_of_lookup in Hr as [i Hi].
  destruct (Forall2_lookup_l _ _ _ _ _ Hrows Hi) as (R & _ & HR).
  by eapply read_row_alloc.
Qed.

Lemma prefix_agree h h' L :
  h `prefix_of` h' → Forall (λ l, l < length h) L → agree L h h'.
Proof.
  intros Hpre HL l Hl. rewrite Forall_forall in HL. specialize (HL l Hl).
  destruct (lookup_lt_is_Some_2 h l HL) as [o Ho].
  rewrite Ho. by eapply prefix_lookup_Some.
Qed.

Lemma agree_insert_outside L h l o : l ∉ L → agree L h (<[l := o]> h).
Proof.
  intros Hl l' Hl'. apply list_lookup_insert_ne. intros ->. done.
Qed.

(** C7. For every square board on the heap, [copySquares] returns a
    board that stands for the same values and domains and is made of new,
    pairwise distinct objects (rows, squares and domain arrays), none of
    which belongs to the source.  So whatever is stored afterwards into
    an object of the copy, the source reads as before, and whatever is
    stored into an object of the source, the copy reads as before. *)
Theorem copySquares_independent h b B n :
  Heap.read_board h b = Some B → square_grid n B →
  ∃ b' h', Heap.copySquares b h = Some (b', h') ∧
    Heap.read_board h' b' = Some B ∧ Heap.read_board h' b = Some B ∧
    Forall (is_new (length h)) (Heap.footprint h' b') ∧
    NoDup (Heap.footprint h' b') ∧
    Forall (λ l, l < length h) (Heap.footprint h' b) ∧
    (∀ l o, l ∈ Heap.footprint h' b' → Heap.read_board (<[l := o]> h') b = Some B) ∧
    (∀ l o, l ∈ Heap.footprint h' b → Heap.read_board (<[l := o]> h') b' = Some B) ∧
    (∀ h'', agree (Heap.footprint h' b) h' h'' → Heap.read_board h'' b = Some B) ∧
    (∀ h'', agree (Heap.footprint h' b') h' h'' → Heap.read_board h'' b' = Some B).
Proof.
  intros HB Hsq.
  destruct (copySquares_run h b B n HB Hsq) as (h' & Hrun & Hpre & HB' & Hrange & Hnd).
  pose proof (read_board_alloc _ _ _ HB) as Halloc.
  destruct (agree_board h h' b (prefix_agree _ _ _ Hpre Halloc)) as [Hrb Hfp].
  assert (Forall (is_new (length h)) (Heap.footprint h' (length h))) as Hnew.
  { eapply Forall_impl; [exact Hrange|]. intros l ?. unfold is_new. simpl in *. lia. }
  assert (∀ h'', agree (Heap.footprint h' b) h' h'' → Heap.read_board h'' b = Some B) as Hsrc.
  { intros h'' Hag. rewrite (proj1 (agree_board _ _ _ Hag)). by rewrite Hrb. }
  assert (∀ h'', agree (Heap.footprint h' (length h)) h' h'' →
            Heap.read_board h'' (length h) = Some B) as Hcopy.
  { intros h'' Hag. by rewrite (proj1 (agree_board _ _ _ Hag)). }
  exists (length h), h'. split_and!; try done.
  - by rewrite Hrb.
  - by rewrite Hfp.
  - intros l o Hl. apply Hsrc, agree_insert_outside. rewrite Hfp. intros Hin.
    rewrite Forall_forall in Halloc, Hnew.
    specialize (Halloc l Hin). specialize (Hnew l Hl). unfold is_new in Hnew. lia.
  - intros l o Hl. apply Hcopy, agree_insert_outside. rewrite Hfp in Hl. intros Hin.
    rewrite Forall_forall in Halloc, Hnew.
    specialize (Halloc l Hl). specialize (Hnew l Hin). unfold is_new in Hnew. lia.
Qed.

Lemma copySquares_independent_witness :
  ∃ b h,
    Heap.page_board dup_grid [] = Some (b, h) ∧
    ∃ b' h',
    Heap.copySquares b h = Some (b', h') ∧
    Heap.read_board h' b' = Some (mkBoard dup_grid) ∧
    Heap.read_board h' b = Some (mkBoard dup_grid) ∧
    Forall (is_new (length h)) (Heap.footprint h' b') ∧
    NoDup (Heap.footprint h' b') ∧
    Forall (λ l, l < length h) (Heap.footprint h' b) ∧
    (∀ l o, l ∈ Heap.footprint h' b' →
       Heap.read_board (<[l := o]> h') b = Some (mkBoard dup_grid)) ∧
    (∀ l o, l ∈ Heap.footprint h' b →
       Heap.read_board (<[l := o]> h') b' = Some (mkBoard dup_grid)) ∧
    (∀ h'', agree (Heap.footprint h' b) h' h'' →
       Heap.read_board h'' b = Some (mkBoard dup_grid)) ∧
    (∀ h'', agree (Heap.footprint h' b') h' h'' →
       Heap.read_board h'' b' = Some (mkBoard dup_grid)).
Proof.
  eexists _, _. split; [vm_compute; reflexivity|].
  apply (copySquares_independent _ _ (mkBoard dup_grid) 9).
  - vm_compute. reflexivity.
  - apply (bool_decide_unpack _). vm_compute. reflexivity.
Defined.

(** * The heap model: the program follows the state-passing one *)

(** *** Boards square by square *)

Lemma sq_at_inv h b i j s :
  sq_at h b i j = Some s →
  ∃ rows r cells, h !! b = Some (Heap.ORefs rows) ∧ rows !! i = Some r ∧
    h !! r = Some (Heap.ORefs cells) ∧ cells !! j = Some s.
Proof.
  unfold sq_at. intros H.
  destruct (h !! b) as [[|rows| |]|] eqn:Eb; try done.
  destruct (rows !! i) as [r|] eqn:Er; [|done]. simpl in H.
  destruct (h !! r) as [[|cells| |]|] eqn:Ec; try done.
  by exists rows, r, cells.
Qed.

Lemma sq_at_intro h b i j rows r cells s :
  h !! b = Some (Heap.ORefs rows) → rows !! i = Some r →
  h !! r = Some (Heap.ORefs cells) → cells !! j = Some s →
  sq_at h b i j = Some s.
Proof. intros Eb Er Ec Es. unfold sq_at. rewrite Eb, Er. simpl. by rewrite Ec. Qed.

Lemma sq_at_run h b i j s : sq_at h b i j = Some s → Heap.at2 b i j h = Some (s, h).
Proof.
  intros (rows & r & cells & Eb & Er & Ec & Es)%sq_at_inv. by eapply run_at2.
Qed.

Lemma at2_inv (B : Squares) i j q :
  at2 B i j = Some q → ∃ R, B !! i = Some R ∧ R !! j = Some q.
Proof.
  unfold at2. intros H. destruct (B !! i) as [R|] eqn:E; [|done]. by exists R.
Qed.

Lemma NoDup_bind_lookup {A B} (f : A → list B) l i i' x x' y :
  NoDup (l ≫= f) → l !! i = Some x → l !! i' = Some x' → y ∈ f x → y ∈ f x' → i = i'.
Proof.
  revert i i'. induction l as [|a l IH]; intros i i' Hnd Hi Hi' Hy Hy'; [done|].
  simpl in Hnd. apply NoDup_app in Hnd as (_ & Hdis & Hnd).
  destruct i as [|i], i' as [|i']; simpl in *.
  - done.
  - injection Hi as ->. exfalso. apply (Hdis y Hy).
    apply list_elem_of_bind. exists x'. split; [done|]. by eapply list_elem_of_lookup_2.
  - injection Hi' as ->. exfalso. apply (Hdis y Hy').
    apply list_elem_of_bind. exists x. split; [done|]. by eapply list_elem_of_lookup_2.
  - f_equal. by apply IH.
Qed.

Lemma NoDup_bind_elem {A B} (f : A → list B) l x :
  NoDup (l ≫= f) → x ∈ l → NoDup (f x).
Proof.
  induction l as [|a l IH]; intros Hnd Hx; [by apply elem_of_nil in Hx|].
  simpl in Hnd. apply NoDup_app in Hnd as (Ha & _ & Hnd).
  apply elem_of_cons in Hx as [->|Hx]; [done|by apply IH].
Qed.

(** A board read off the heap whose footprint has no repetition. *)
Lemma is_board_intro n h b B :
  Heap.read_board h b = Some B → NoDup (Heap.footprint h b) → square_grid n B →
  is_board n h b B.
Proof.
  intros HB Hnd Hsq.
  destruct (read_board_inv _ _ _ HB) as (rows & Eb & Hrows).
  pose proof (length_mapM _ _ _ Hrows) as Hlen.
  apply mapM_Some in Hrows.
  unfold Heap.footprint in Hnd. rewrite Eb in Hnd.
  apply NoDup_cons in Hnd as [_ Hnd].
  assert (∀ i r, rows !! i = Some r → ∃ cells R, h !! r = Some (Heap.ORefs cells) ∧
            B !! i = Some R ∧ Forall2 (λ s q, Heap.read_square h s = Some q) cells R ∧
            NoDup (cells ≫= Heap.square_locs h)) as Hrow.
  { intros i r Hr. destruct (Forall2_lookup_l _ _ _ _ _ Hrows Hr) as (R & HR & Hread).
    apply read_row_inv in Hread as (cells & Ec & Hcells). apply mapM_Some in Hcells.
    exists cells, R. split_and!; [done..|].
    pose proof (NoDup_bind_elem _ _ r Hnd (list_elem_of_lookup_2 _ _ _ Hr)) as Hr'.
    unfold Heap.row_locs in Hr'. rewrite Ec in Hr'. by apply NoDup_cons in Hr' as [_ ?]. }
  assert (∀ i j s, sq_at h b i j = Some s →
            ∃ r cells, rows !! i = Some r ∧ h !! r = Some (Heap.ORefs cells) ∧
                       cells !! j = Some s ∧ s ∈ Heap.row_locs h r) as Hsq_at.
  { intros i j s (rows' & r & cells & Eb' & Er & Ec & Es)%sq_at_inv.
    rewrite Eb in Eb'. injection Eb' as <-. exists r, cells. split_and!; [done..|].
    unfold Heap.row_locs. rewrite Ec. right. apply list_elem_of_bind. exists s.
    split; [apply square_locs_self|by eapply list_elem_of_lookup_2]. }
  destruct Hsq as [Hn HBrows]. split_and!.
  - done.
  - exists rows. split_and!; [done|lia|]. intros r [i Hr]%list_elem_of_lookup_1.
    destruct (Hrow i r Hr) as (cells & R & Ec & HR & Hcells & _).
    exists cells. split; [done|]. apply Forall2_length in Hcells.
    rewrite Forall_forall in HBrows. rewrite Hcells. apply HBrows.
    by eapply list_elem_of_lookup_2.
  - intros i j q (R & HR & Hq)%at2_inv.
    destruct (Forall2_lookup_r _ _ _ _ _ Hrows HR) as (r & Hr & _).
    destruct (Hrow i r Hr) as (cells & R' & Ec & HR' & Hcells & _).
    rewrite HR in HR'. injection HR' as <-.
    destruct (Forall2_lookup_r _ _ _ _ _ Hcells Hq) as (s & Hs & Hread).
    apply read_square_inv in Hread as (d & Es & Ed).
    exists s, d. split_and!; [by eapply sq_at_intro|done..].
  - intros i j i' j' s Hs Hs'.
    destruct (Hsq_at _ _ _ Hs) as (r & cells & Hr & Ec & Hj & Hin).
    destruct (Hsq_at _ _ _ Hs') as (r' & cells' & Hr' & Ec' & Hj' & Hin').
    pose proof (NoDup_bind_lookup _ _ _ _ _ _ _ Hnd Hr Hr' Hin Hin') as <-.
    rewrite Hr in Hr'. injection Hr' as <-. rewrite Ec in Ec'. injection Ec' as <-.
    split; [done|].
    destruct (Hrow i r Hr) as (cells' & R & Ec' & _ & _ & Hnd').
    rewrite Ec in Ec'. injection Ec' as <-.
    apply (NoDup_bind_lookup _ _ _ _ _ _ s Hnd' Hj Hj'); apply square_locs_self.
  - intros i j i' j' s s' d Hs Hs' Hd Hd'.
    assert (d ∈ Heap.square_locs h s ∧ d ∈ Heap.square_locs h s') as [Hds Hds'].
    { unfold dom_at in Hd, Hd'. unfold Heap.square_locs.
      destruct (h !! s) as [[]|]; try done. destruct (h !! s') as [[]|]; try done.
      injection Hd as ->. injection Hd' as ->. split; right; by left. }
    destruct (Hsq_at _ _ _ Hs) as (r & cells & Hr & Ec & Hj & _).
    destruct (Hsq_at _ _ _ Hs') as (r' & cells' & Hr' & Ec' & Hj' & _).
    assert (d ∈ Heap.row_locs h r) as Hin.
    { unfold Heap.row_locs. rewrite Ec. right. apply list_elem_of_bind. exists s.
      split; [done|by eapply list_elem_of_lookup_2]. }
    assert (d ∈ Heap.row_locs h r') as Hin'.
    { unfold Heap.row_locs. rewrite Ec'. right. apply list_elem_of_bind. exists s'.
      split; [done|by eapply list_elem_of_lookup_2]. }
    pose proof (NoDup_bind_lookup _ _ _ _ _ _ _ Hnd Hr Hr' Hin Hin') as <-.
    rewrite Hr in Hr'. injection Hr' as <-. rewrite Ec in Ec'. injection Ec' as <-.
    split; [done|].
    destruct (Hrow i r Hr) as (cells' & R & Ec' & _ & _ & Hnd').
    rewrite Ec in Ec'. injection Ec' as <-.
    by apply (NoDup_bind_lookup _ _ _ _ _ _ d Hnd' Hj Hj').
Qed.

(** Such a board reads as [B]. *)
Lemma is_board_read n h b B : is_board n h b B → Heap.read_board h b = Some B.
Proof.
  intros ([Hn HBrows] & (rows & Eb & Hlen & Hrows) & Hcell & _).
  rewrite Forall_forall in HBrows.
  unfold Heap.read_board. rewrite Eb.
  apply mapM_Some_2, Forall2_same_length_lookup_2; [lia|].
  intros i r R Hr HR.
  destruct (Hrows r (list_elem_of_lookup_2 _ _ _ Hr)) as (cells & Ec & Hclen).
  unfold Heap.read_row. rewrite Ec.
  apply mapM_Some_2, Forall2_same_length_lookup_2.
  { rewrite Hclen. symmetry. apply HBrows. by eapply list_elem_of_lookup_2. }
  intros j s q Hs Hq.
  destruct (Hcell i j q) as (s' & d & Hs' & Es & Ed).
  { unfold at2. rewrite HR. done. }
  rewrite (sq_at_intro _ _ _ _ _ _ _ _ Eb Hr Ec Hs) in Hs'. injection Hs' as <-.
  unfold Heap.read_square. rewrite Es, Ed. by destruct q.
Qed.

Lemma at2_upd (B : Squares) i j f a c :
  at2 (upd B i j f) a c =
    if decide (a = i ∧ c = j) then f <$> at2 B a c else at2 B a c.
Proof.
  unfold at2, upd. destruct (decide (a = i)) as [->|Ha].
  - rewrite list_lookup_alter_eq. destruct (B !! i) as [R|]; simpl.
    + destruct (decide (c = j)) as [->|Hc].
      * rewrite list_lookup_alter_eq. by rewrite decide_True.
      * rewrite list_lookup_alter_ne by done. rewrite decide_False by (intros [_ ?]; done).
        done.
    + by case_decide.
  - rewrite list_lookup_alter_ne by done. rewrite decide_False by (intros [? _]; done).
    done.
Qed.

Lemma square_grid_upd n B i j f : square_grid n B → square_grid n (upd B i j f).
Proof.
  intros [Hn Hrows]. split.
  - unfold upd. by rewrite length_alter.
  - unfold upd. apply Forall_alter; [done|]. intros R _ HR. by rewrite length_alter.
Qed.

Lemma square_grid_at2 n B i j : square_grid n B → i < n → j < n → is_Some (at2 B i j).
Proof.
  intros [Hn Hrows] Hi Hj. unfold at2.
  destruct (lookup_lt_is_Some_2 B i) as [R HR]; [lia|]. rewrite HR. simpl.
  apply lookup_lt_is_Some_2. rewrite Forall_forall in Hrows.
  rewrite (Hrows R); [done|]. by eapply list_elem_of_lookup_2.
Qed.

(** Every square of the array is a square of the board. *)
Lemma is_board_sq_at n h b B i j s :
  is_board n h b B → sq_at h b i j = Some s →
  ∃ q d, at2 B i j = Some q ∧
    h !! s = Some (Heap.OSquare (row q) (col q) (value q) d) ∧
    h !! d = Some (Heap.ONums (domain q)).
Proof.
  intros (Hsq & (rows & Eb & Hlen & Hrows) & Hcell & _) Hs.
  destruct (sq_at_inv _ _ _ _ _ Hs) as (rows' & r & cells & Eb' & Er & Ec & Es).
  rewrite Eb in Eb'. injection Eb' as <-.
  destruct (Hrows r (list_elem_of_lookup_2 _ _ _ Er)) as (cells' & Ec' & Hclen).
  rewrite Ec in Ec'. injection Ec' as <-.
  destruct (square_grid_at2 n B i j Hsq) as [q Hq].
  { apply lookup_lt_Some in Er. lia. }
  { apply lookup_lt_Some in Es. lia. }
  destruct (Hcell i j q Hq) as (s' & d & Hs' & Es' & Ed).
  rewrite Hs in Hs'. injection Hs' as <-. by exists q, d.
Qed.

(** Storing into the Square at [(i,j)] or into its domain array, or
    giving the square a new domain array, changes that square of the
    board and no other. *)
Lemma is_board_update n h b B i j q s d h' q' d' f :
  is_board n h b B → at2 B i j = Some q → sq_at h b i j = Some s → dom_at h s = Some d →
  (∀ l o, h !! l = Some o → l ≠ s → l ≠ d → h' !! l = Some o) →
  h' !! s = Some (Heap.OSquare (row q') (col q') (value q') d') →
  h' !! d' = Some (Heap.ONums (domain q')) →
  d' = d ∨ length h ≤ d' →
  f q = q' →
  is_board n h' b (upd B i j f).
Proof.
  intros HB Hq Hs Hd Hframe Es' Ed' Hd' Hf.
  pose proof (λ a c s1, is_board_sq_at n h b B a c s1 HB) as Hsquare.
  destruct HB as (Hsq & (rows & Eb & Hlen & Hrows) & Hcell & Hinj & Hinjd).
  destruct (Hsquare _ _ _ Hs) as (q0 & d0 & Hq0 & Es & Ed).
  rewrite Hq in Hq0. injection Hq0 as <-.
  assert (d0 = d) as -> by (unfold dom_at in Hd; rewrite Es in Hd; congruence).
  assert (h' !! b = Some (Heap.ORefs rows)) as Eb'.
  { apply Hframe; [done|intros ->; congruence..]. }
  assert (∀ r cells, r ∈ rows → h !! r = Some (Heap.ORefs cells) →
            h' !! r = Some (Heap.ORefs cells)) as Hrows'.
  { intros r cells _ Ec. apply Hframe; [done|intros ->; congruence..]. }
  assert (∀ a c, sq_at h' b a c = sq_at h b a c) as Hsame.
  { intros a c. unfold sq_at. rewrite Eb, Eb'.
    destruct (rows !! a) as [r|] eqn:Er; [simpl|done].
    destruct (Hrows r (list_elem_of_lookup_2 _ _ _ Er)) as (cells & Ec & _).
    by rewrite Ec, (Hrows' r cells (list_elem_of_lookup_2 _ _ _ Er) Ec). }
  assert (∀ a c s1, sq_at h b a c = Some s1 → s1 ≠ s → dom_at h' s1 = dom_at h s1) as Hdom.
  { intros a c s1 Hs1 Hne. destruct (Hsquare _ _ _ Hs1) as (q1 & d1 & _ & Es1 & _).
    unfold dom_at. rewrite Es1, (Hframe s1 _ Es1 Hne); [done|]. intros ->. congruence. }
  assert (dom_at h' s = Some d') as Hds' by (unfold dom_at; by rewrite Es').
  assert (∀ a c s1, sq_at h b a c = Some s1 → s1 ≠ s → dom_at h s1 ≠ Some d') as Hfresh.
  { intros a c s1 Hs1 Hne Hd1. destruct (Hsquare _ _ _ Hs1) as (q1 & d1 & _ & Es1 & Ed1).
    assert (d1 = d') as -> by (unfold dom_at in Hd1; rewrite Es1 in Hd1; congruence).
    destruct Hd' as [->|Hnew].
    - destruct (Hinjd _ _ _ _ _ _ _ Hs1 Hs Hd1 Hd) as [-> ->]. congruence.
    - apply lookup_lt_Some in Ed1. lia. }
  split_and!.
  - by apply square_grid_upd.
  - exists rows. split_and!; [done..|]. intros r Hr.
    destruct (Hrows r Hr) as (cells & Ec & Hclen). exists cells. split; [|done].
    by apply Hrows'.
  - intros a c q1 Hq1. rewrite at2_upd in Hq1. rewrite Hsame.
    case_decide as Hac.
    + destruct Hac as [-> ->]. rewrite Hq in Hq1. simpl in Hq1. injection Hq1 as <-.
      rewrite Hf. by exists s, d'.
    + destruct (Hcell _ _ _ Hq1) as (s1 & d1 & Hs1 & Es1 & Ed1).
      assert (s1 ≠ s) as Hne.
      { intros ->. destruct (Hinj _ _ _ _ _ Hs1 Hs) as [-> ->]. by apply Hac. }
      exists s1, d1. split_and!; [done| |].
      * apply Hframe; [done..|]. intros ->. congruence.
      * apply Hframe; [done|intros ->; congruence|]. intros ->.
        assert (dom_at h s1 = Some d) as Hd1 by (unfold dom_at; by rewrite Es1).
        destruct (Hinjd _ _ _ _ _ _ _ Hs1 Hs Hd1 Hd) as [-> ->]. by apply Hac.
  - intros a c a' c' s1. rewrite !Hsame. apply Hinj.
  - intros a c a' c' s1 s2 dd. rewrite !Hsame. intros Hs1 Hs2 Hd1 Hd2.
    destruct (decide (s1 = s)) as [->|Hne1], (decide (s2 = s)) as [->|Hne2].
    + by apply (Hinj _ _ _ _ s).
    + rewrite Hds' in Hd1. injection Hd1 as <-.
      rewrite (Hdom _ _ _ Hs2 Hne2) in Hd2. by destruct (Hfresh _ _ _ Hs2 Hne2).
    + rewrite Hds' in Hd2. injection Hd2 as <-.
      rewrite (Hdom _ _ _ Hs1 Hne1) in Hd1. by destruct (Hfresh _ _ _ Hs1 Hne1).
    + rewrite (Hdom _ _ _ Hs1 Hne1) in Hd1. rewrite (Hdom _ _ _ Hs2 Hne2) in Hd2.
      by apply (Hinjd _ _ _ _ _ _ _ Hs1 Hs2 Hd1 Hd2).
Qed.

(** ** Loops side by side *)

Lemma for_nil {St R : Type} (body : nat → St → option (flow St R)) s :
  for_ [] body s = Some (Next s).
Proof. done. Qed.

Lemma for_in_nil {R} (body : nat → Heap.M (flow unit R)) :
  Heap.for_in [] body = Heap.ret (Next ()).
Proof. done. Qed.

Lemma for_in_cons {R} i ixs (body : nat → Heap.M (flow unit R)) :
  Heap.for_in (i :: ixs) body =
    Heap.bind (body i) (λ r,
      match r with
      | Return x => Heap.ret (Return x)
      | Next _ => Heap.for_in ixs body
      end).
Proof. done. Qed.

Section loops.
Context {St R R' : Type}.
Variable Rel : St → list Heap.obj → Prop.
Variable RelR : R → R' → list Heap.obj → Prop.
Variable bodyP : nat → St → option (flow St R).
Variable bodyH : nat → Heap.M (flow unit R').

Lemma for_in_sim ixs :
  (∀ k s h fl, k ∈ ixs → Rel s h → bodyP k s = Some fl →
     ∃ fl' h', bodyH k h = Some (fl', h') ∧ flow_rel Rel RelR fl fl' h') →
  ∀ s h fl, Rel s h → for_ ixs bodyP s = Some fl →
    ∃ fl' h', Heap.for_in ixs bodyH h = Some (fl', h') ∧ flow_rel Rel RelR fl fl' h'.
Proof.
  induction ixs as [|i ixs IH]; intros Hbody s h fl HR Hrun.
  - rewrite for_nil in Hrun. injection Hrun as <-. by exists (Next ()), h.
  - rewrite for_cons in Hrun. destruct (bodyP i s) as [fl1|] eqn:E; [|done].
    destruct (Hbody i s h fl1 ltac:(by left) HR E) as (fl1' & h1 & Hrun1 & Hrel).
    rewrite for_in_cons, (bind_run _ _ _ _ _ Hrun1).
    destruct fl1 as [s1|x], fl1' as [[]|y]; try done.
    + apply (IH ltac:(intros k ? ? ? Hk; apply Hbody; by right) s1 h1 fl Hrel Hrun).
    + injection Hrun as <-. by exists (Return y), h1.
Qed.

Lemma for_guard_sim bound n ixs :
  (∀ s h, Rel s h → bound h = Some (n, h)) →
  (∀ k s h fl, k ∈ ixs → Rel s h → bodyP k s = Some fl →
     ∃ fl' h', bodyH k h = Some (fl', h') ∧ flow_rel Rel RelR fl fl' h') →
  ∀ s h fl, Rel s h → for_ ixs bodyP s = Some fl →
    ∃ fl' h', Heap.for_guard bound n ixs bodyH h = Some (fl', h') ∧
              flow_rel Rel RelR fl fl' h'.
Proof.
  intros Hbound. induction ixs as [|i ixs IH]; intros Hbody s h fl HR Hrun.
  - rewrite for_nil in Hrun. injection Hrun as <-.
    rewrite for_guard_nil, (bind_run _ _ _ _ _ (Hbound s h HR)), Nat.eqb_refl.
    by exists (Next ()), h.
  - rewrite for_cons in Hrun. destruct (bodyP i s) as [fl1|] eqn:E; [|done].
    destruct (Hbody i s h fl1 ltac:(by left) HR E) as (fl1' & h1 & Hrun1 & Hrel).
    rewrite for_guard_cons, (bind_run _ _ _ _ _ (Hbound s h HR)), Nat.eqb_refl.
    cbn [negb]. rewrite (bind_run _ _ _ _ _ Hrun1).
    destruct fl1 as [s1|x], fl1' as [[]|y]; try done.
    + apply (IH ltac:(intros k ? ? ? Hk; apply Hbody; by right) s1 h1 fl Hrel Hrun).
    + injection Hrun as <-. by exists (Return y), h1.
Qed.

Lemma for_to_sim bound n :
  (∀ s h, Rel s h → bound h = Some (n, h)) →
  (∀ k s h fl, k < n → Rel s h → bodyP k s = Some fl →
     ∃ fl' h', bodyH k h = Some (fl', h') ∧ flow_rel Rel RelR fl fl' h') →
  ∀ s h fl, Rel s h → for_ (seq 0 n) bodyP s = Some fl →
    ∃ fl' h', Heap.for_to bound bodyH h = Some (fl', h') ∧ flow_rel Rel RelR fl fl' h'.
Proof.
  intros Hbound Hbody s h fl HR Hrun. unfold Heap.for_to.
  rewrite (bind_run _ _ _ _ _ (Hbound s h HR)).
  apply (for_guard_sim bound n (seq 0 n) Hbound) with (s := s); [|done..].
  intros k s' h' fl' [_ Hk]%elem_of_seq. apply Hbody. lia.
Qed.

End loops.

(** One step of the state-passing program. *)
Tactic Notation "pstep" hyp(H) "as" simple_intropattern(p) "with" ident(E) :=
  match type of H with
  | (?m ≫= _) = Some _ =>
      destruct m as [p|] eqn:E; [rewrite bind_Some in H; cbv beta iota zeta in H|done]
  end.

(** *** Reads and writes *)

Lemma run_nums_indexOf h d xs v :
  h !! d = Some (Heap.ONums xs) → Heap.nums_indexOf d v h = Some (indexOf v xs, h).
Proof.
  intros E. unfold Heap.nums_indexOf. by rewrite (bind_run _ _ _ _ _ (run_get_nums _ _ _ E)).
Qed.

Lemma run_nums_splice h d xs k :
  h !! d = Some (Heap.ONums xs) →
  Heap.nums_splice d k h = Some ((), <[d := Heap.ONums (splice1 k xs)]> h).
Proof.
  intros E. unfold Heap.nums_splice. rewrite (bind_run _ _ _ _ _ (run_get_nums _ _ _ E)).
  apply run_store. by eapply lookup_lt_Some.
Qed.

Lemma run_set_sq_value h s r c v d v' :
  h !! s = Some (Heap.OSquare r c v d) →
  Heap.set_sq_value s v' h = Some ((), <[s := Heap.OSquare r c v' d]> h).
Proof.
  intros E. unfold Heap.set_sq_value. rewrite (bind_run _ _ _ _ _ (run_load _ _ _ E)).
  apply run_store. by eapply lookup_lt_Some.
Qed.

Lemma run_set_sq_domain h s r c v d d' :
  h !! s = Some (Heap.OSquare r c v d) →
  Heap.set_sq_domain s d' h = Some ((), <[s := Heap.OSquare r c v d']> h).
Proof.
  intros E. unfold Heap.set_sq_domain. rewrite (bind_run _ _ _ _ _ (run_load _ _ _ E)).
  apply run_store. by eapply lookup_lt_Some.
Qed.

Lemma run_csp_squares h p s f :
  h !! p = Some (Heap.OCSP s f) → Heap.csp_squares p h = Some (s, h).
Proof. intros E. unfold Heap.csp_squares. by rewrite (bind_run _ _ _ _ _ (run_load _ _ _ E)). Qed.

Lemma run_csp_failure h p s f :
  h !! p = Some (Heap.OCSP s f) → Heap.csp_failure p h = Some (f, h).
Proof. intros E. unfold Heap.csp_failure. by rewrite (bind_run _ _ _ _ _ (run_load _ _ _ E)). Qed.

Lemma is_board_at2 n h b B i j q :
  is_board n h b B → at2 B i j = Some q →
  ∃ s d, Heap.at2 b i j h = Some (s, h) ∧ sq_at h b i j = Some s ∧
    h !! s = Some (Heap.OSquare (row q) (col q) (value q) d) ∧
    h !! d = Some (Heap.ONums (domain q)).
Proof.
  intros (_ & _ & Hcell & _) Hq. destruct (Hcell i j q Hq) as (s & d & Hs & Es & Ed).
  exists s, d. split_and!; [by apply sq_at_run|done..].
Qed.

Lemma is_board_length n h b B :
  is_board n h b B → Heap.refs_length b h = Some (n, h) ∧ length B = n.
Proof.
  intros ([Hn _] & (rows & Eb & Hlen & _) & _). split; [|done].
  rewrite <- Hlen. by apply run_refs_length.
Qed.

Lemma read_board_at2 h b B i j q :
  Heap.read_board h b = Some B → at2 B i j = Some q →
  ∃ s d, Heap.at2 b i j h = Some (s, h) ∧
    h !! s = Some (Heap.OSquare (row q) (col q) (value q) d) ∧
    h !! d = Some (Heap.ONums (domain q)).
Proof.
  intros HB (R & HR & Hq)%at2_inv. by apply (board_at2 h b B i j R q).
Qed.

Lemma read_board_length h b B :
  Heap.read_board h b = Some B → Heap.refs_length b h = Some (length B, h).
Proof.
  intros (rows & Eb & Hrows)%read_board_inv.
  rewrite <- (length_mapM _ _ _ Hrows). by apply run_refs_length.
Qed.

(** *** The steps of [updateDomains] *)

Lemma set_value_sim n h b B i j v B' :
  is_board n h b B → set_value B i j v = Some B' →
  ∃ s h', Heap.at2 b i j h = Some (s, h) ∧ Heap.set_sq_value s v h = Some ((), h') ∧
          is_board n h' b B'.
Proof.
  intros HB H. unfold set_value in H. pstep H as q with Hq. injection H as <-.
  destruct (is_board_at2 _ _ _ _ _ _ _ HB Hq) as (s & d & Hat & Hs & Es & Ed).
  eexists s, _. split_and!; [done|by eapply run_set_sq_value|].
  apply (is_board_update n h b B i j q s d _ (with_value v q) d); try done.
  - unfold dom_at. by rewrite Es.
  - intros l o Hl Hls _. by rewrite list_lookup_insert_ne.
  - apply list_lookup_insert_eq. by eapply lookup_lt_Some.
  - rewrite list_lookup_insert_ne by (intros ->; congruence). done.
  - by left.
Qed.

Lemma set_domain_sim n h b B i j xs B' :
  is_board n h b B → set_domain B i j xs = Some B' →
  ∃ s h', Heap.at2 b i j h = Some (s, h) ∧
          Heap.set_sq_domain s (length h) (h ++ [Heap.ONums xs]) = Some ((), h') ∧
          is_board n h' b B'.
Proof.
  intros HB H. unfold set_domain in H. pstep H as q with Hq. injection H as <-.
  destruct (is_board_at2 _ _ _ _ _ _ _ HB Hq) as (s & d & Hat & Hs & Es & Ed).
  pose proof (lookup_lt_Some _ _ _ Es) as Hlt.
  eexists s, _. split_and!; [done| |].
  - eapply run_set_sq_domain. rewrite lookup_app_l by done. done.
  - apply (is_board_update n h b B i j q s d _ (with_domain xs q) (length h)); try done.
    + unfold dom_at. by rewrite Es.
    + intros l o Hl Hls _. rewrite list_lookup_insert_ne by done.
      rewrite lookup_app_l by by eapply lookup_lt_Some. done.
    + apply list_lookup_insert_eq. rewrite length_app. lia.
    + rewrite list_lookup_insert_ne by lia. rewrite lookup_app_r by done.
      by rewrite Nat.sub_diag.
    + by right.
Qed.

Lemma prune_sim n h b B i j v cond B' :
  is_board n h b B → prune B i j v cond = Some B' →
  ∃ h', Heap.prune b i j v cond h = Some ((), h') ∧ is_board n h' b B'.
Proof.
  intros HB H. unfold prune in H. pstep H as q with Hq.
  destruct (is_board_at2 _ _ _ _ _ _ _ HB Hq) as (s & d & Hat & Hs & Es & Ed).
  unfold Heap.prune. hstep Hat. hstep (run_sq_domain _ _ _ _ _ _ Es).
  hstep (run_nums_indexOf _ _ _ v Ed).
  destruct (indexOf v (domain q)) as [k|]; [|injection H as <-; by exists h].
  destruct cond; [|injection H as <-; by exists h]. injection H as <-.
  hstep Hat. hstep (run_sq_domain _ _ _ _ _ _ Es).
  eexists. split; [by eapply run_nums_splice|].
  apply (is_board_update n h b B i j q s d _
           (with_domain (splice1 k (domain q)) q) d); try done.
  - unfold dom_at. by rewrite Es.
  - intros l o Hl _ Hld. by rewrite list_lookup_insert_ne.
  - rewrite list_lookup_insert_ne by (intros ->; congruence). done.
  - apply list_lookup_insert_eq. by eapply lookup_lt_Some.
  - by left.
Qed.

Lemma domain_empty_sim n h b B i j e :
  is_board n h b B → domain_empty B i j = Some e →
  Heap.domain_empty b i j h = Some (e, h).
Proof.
  intros HB H. unfold domain_empty in H. pstep H as q with Hq. injection H as <-.
  destruct (is_board_at2 _ _ _ _ _ _ _ HB Hq) as (s & d & Hat & Hs & Es & Ed).
  unfold Heap.domain_empty. hstep Hat. hstep (run_sq_domain _ _ _ _ _ _ Es).
  by hstep (run_nums_length _ _ _ Ed).
Qed.

(** *** The functions *)

Lemma updateDomains_sim n h b B r c ok B' :
  is_board n h b B → updateDomains B r c = Some (ok, B') →
  ∃ h', Heap.updateDomains b r c h = Some (ok, h') ∧ is_board n h' b B'.
Proof.
  intros HB H. unfold updateDomains in H. pstep H as q with Hq.
  destruct (is_board_at2 _ _ _ _ _ _ _ HB Hq) as (s & d & Hat & Hs & Es & Ed).
  unfold Heap.updateDomains. cbv zeta. hstep Hat. hstep (run_sq_value _ _ _ _ _ _ Es).
  destruct (value q =? 0)%Z; [injection H as <- <-; by exists h|].
  pstep H as B1 with Hset.
  destruct (set_domain_sim _ _ _ _ _ _ _ _ HB Hset) as (s' & h1 & Hat' & Hsd & HB1).
  hstep Hat'. hstep (run_alloc (Heap.ONums [value q]) h). hstep Hsd.
  set (Rel := λ (s : Squares) (h : list Heap.obj), is_board n h b s).
  set (RelR := λ (x : bool * Squares) (y : bool) (h : list Heap.obj),
                 y = x.1 ∧ is_board n h b x.2).
  rewrite (proj2 (is_board_length _ _ _ _ HB1)) in H.
  pstep H as fl with Hloop.
  match goal with |- context [Heap.for_to ?bound ?bodyH] =>
    match type of Hloop with for_ _ ?bodyP _ = _ =>
      destruct (for_to_sim Rel RelR bodyP bodyH bound n) with (s := B1) (h := h1) (fl := fl)
        as (fl' & h2 & Hrun & Hrel)
    end
  end.
  { intros s0 h0 HR. by apply (is_board_length _ _ _ _ HR). }
  { intros k s0 h0 fl0 Hk HR Hb.
    pstep Hb as s1 with E1. destruct (prune_sim _ _ _ _ _ _ _ _ _ HR E1) as (h1' & Hp1 & HR1).
    hstep Hp1.
    pstep Hb as s2 with E2. destruct (prune_sim _ _ _ _ _ _ _ _ _ HR1 E2) as (h2' & Hp2 & HR2).
    hstep Hp2.
    pstep Hb as e1 with E3. hstep (domain_empty_sim _ _ _ _ _ _ _ HR2 E3).
    destruct e1; [injection Hb as <-; by exists (Return false), h2'|].
    pstep Hb as e2 with E4. hstep (domain_empty_sim _ _ _ _ _ _ _ HR2 E4).
    destruct e2; injection Hb as <-; [by exists (Return false), h2'|by exists (Next ()), h2']. }
  { done. }
  { done. }
  hstep Hrun. destruct fl as [B2|[ok2 B2]], fl' as [[]|y]; try done.
  2:{ destruct Hrel as [-> HB2]. injection H as <- <-. by exists h2. }
  pstep H as fl2 with Hloop2.
  match goal with |- context [Heap.for_in ?ixs ?bodyH] =>
    match type of Hloop2 with for_ _ ?bodyP _ = _ =>
      destruct (for_in_sim Rel RelR bodyP bodyH ixs) with (s := B2) (h := h2) (fl := fl2)
        as (fl2' & h3 & Hrun2 & Hrel2)
    end
  end.
  { intros i s0 h0 fl0 _ HR Hb.
    match goal with |- context [Heap.for_in ?ixs ?bodyH] =>
      match type of Hb with for_ _ ?bodyP _ = _ =>
        apply (for_in_sim Rel RelR bodyP bodyH ixs) with (s := s0); [|done..]
      end
    end.
    clear dependent s0 h0 fl0. intros j s0 h0 fl0 _ HR Hb.
    pstep Hb as s1 with E1. destruct (prune_sim _ _ _ _ _ _ _ _ _ HR E1) as (h1' & Hp1 & HR1).
    hstep Hp1.
    pstep Hb as e1 with E3. hstep (domain_empty_sim _ _ _ _ _ _ _ HR1 E3).
    destruct e1; injection Hb as <-; [by exists (Return false), h1'|by exists (Next ()), h1']. }
  { done. }
  { done. }
  hstep Hrun2. destruct fl2 as [B3|[ok3 B3]], fl2' as [[]|y]; try done.
  - injection H as <- <-. by exists h3.
  - destruct Hrel2 as [-> HB3]. injection H as <- <-. by exists h3.
Qed.

Lemma updateAllDomains_sim n h b B ok B' :
  is_board n h b B → updateAllDomains B = Some (ok, B') →
  ∃ h', Heap.updateAllDomains b h = Some (ok, h') ∧ is_board n h' b B'.
Proof.
  intros HB H. unfold updateAllDomains in H. cbv zeta in H.
  rewrite (proj2 (is_board_length _ _ _ _ HB)) in H.
  set (Rel := λ (s : Squares) (h : list Heap.obj), is_board n h b s).
  set (RelR := λ (x : bool * Squares) (y : bool) (h : list Heap.obj),
                 y = x.1 ∧ is_board n h b x.2).
  assert (∀ s0 h0, Rel s0 h0 → Heap.refs_length b h0 = Some (n, h0)) as Hbound.
  { intros s0 h0 HR. by apply (is_board_length _ _ _ _ HR). }
  pstep H as fl with Hloop. unfold Heap.updateAllDomains.
  match goal with |- context [Heap.for_to ?bound ?bodyH] =>
    match type of Hloop with for_ _ ?bodyP _ = _ =>
      destruct (for_to_sim Rel RelR bodyP bodyH bound n) with (s := B) (h := h) (fl := fl)
        as (fl' & h2 & Hrun & Hrel)
    end
  end.
  { done. }
  { intros i s0 h0 fl0 _ HR Hb.
    match goal with |- context [Heap.for_to ?bound ?bodyH] =>
      match type of Hb with for_ _ ?bodyP _ = _ =>
        apply (for_to_sim Rel RelR bodyP bodyH bound n) with (s := s0); [done| |done..]
      end
    end.
    clear dependent s0 h0 fl0. intros j s0 h0 fl0 _ HR Hb.
    pstep Hb as [valid s1] with E1.
    destruct (updateDomains_sim _ _ _ _ _ _ _ _ HR E1) as (h1' & Hp1 & HR1).
    hstep Hp1.
    destruct valid; injection Hb as <-; [by exists (Next ()), h1'|by exists (Return false), h1']. }
  { done. }
  { done. }
  hstep Hrun. destruct fl as [B2|[ok2 B2]], fl' as [[]|y]; try done.
  - injection H as <- <-. by exists h2.
  - destruct Hrel as [-> HB2]. injection H as <- <-. by exists h2.
Qed.

Lemma isFull_sim h b B r :
  Heap.read_board h b = Some B → isFull B = Some r → Heap.isFull b h = Some (r, h).
Proof.
  intros HB H. unfold isFull in H. cbv zeta in H. set (n := length B) in *.
  set (Rel := λ (_ : unit) (h' : list Heap.obj), h' = h).
  set (RelR := λ (x y : bool) (h' : list Heap.obj), y = x ∧ h' = h).
  assert (∀ (u : unit) h0, Rel u h0 → Heap.refs_length b h0 = Some (n, h0)) as Hbound.
  { intros u h0 ->. by apply read_board_length. }
  pstep H as fl with Hloop. unfold Heap.isFull.
  match goal with |- context [Heap.for_to ?bound ?bodyH] =>
    match type of Hloop with for_ _ ?bodyP _ = _ =>
      destruct (for_to_sim Rel RelR bodyP bodyH bound n) with (s := ()) (h := h) (fl := fl)
        as (fl' & h2 & Hrun & Hrel)
    end
  end.
  { done. }
  { intros i s0 h0 fl0 _ HR Hb.
    match goal with |- context [Heap.for_to ?bound ?bodyH] =>
      match type of Hb with for_ _ ?bodyP _ = _ =>
        apply (for_to_sim Rel RelR bodyP bodyH bound n) with (s := s0); [done| |done..]
      end
    end.
    clear dependent s0 h0 fl0. intros j s0 h0 fl0 _ -> Hb.
    pstep Hb as q with Hq.
    destruct (read_board_at2 _ _ _ _ _ _ HB Hq) as (s & d & Hat & Es & Ed).
    hstep Hat. hstep (run_sq_value _ _ _ _ _ _ Es).
    destruct (value q =? 0)%Z; injection Hb as <-;
      [by exists (Return false), h|by exists (Next ()), h]. }
  { done. }
  { done. }
  hstep Hrun. destruct fl as [[]|x], fl' as [[]|y]; try done.
  - injection H as <-. by rewrite Hrel.
  - destruct Hrel as [-> ->]. by injection H as <-.
Qed.

Lemma getEmptySquare_sim h b B q :
  Heap.read_board h b = Some B → getEmptySquare B = Some q →
  ∃ s h', Heap.getEmptySquare b h = Some (s, h') ∧ h `prefix_of` h' ∧
          Heap.read_square h' s = Some q.
Proof.
  intros HB H. unfold getEmptySquare in H. cbv zeta in H. set (n := length B) in *.
  set (Rel := λ (_ : unit) (h' : list Heap.obj), h' = h).
  set (RelR := λ (x : Square) (y : Heap.loc) (h' : list Heap.obj),
                 Heap.read_square h y = Some x ∧ h' = h).
  assert (∀ (u : unit) h0, Rel u h0 → Heap.refs_length b h0 = Some (n, h0)) as Hbound.
  { intros u h0 ->. by apply read_board_length. }
  pstep H as fl with Hloop. unfold Heap.getEmptySquare.
  match goal with |- context [Heap.for_to ?bound ?bodyH] =>
    match type of Hloop with for_ _ ?bodyP _ = _ =>
      destruct (for_to_sim Rel RelR bodyP bodyH bound n) with (s := ()) (h := h) (fl := fl)
        as (fl' & h2 & Hrun & Hrel)
    end
  end.
  { done. }
  { intros i s0 h0 fl0 _ HR Hb.
    match goal with |- context [Heap.for_to ?bound ?bodyH] =>
      match type of Hb with for_ _ ?bodyP _ = _ =>
        apply (for_to_sim Rel RelR bodyP bodyH bound n) with (s := s0); [done| |done..]
      end
    end.
    clear dependent s0 h0 fl0. intros j s0 h0 fl0 _ -> Hb.
    pstep Hb as q0 with Hq.
    destruct (read_board_at2 _ _ _ _ _ _ HB Hq) as (s & d & Hat & Es & Ed).
    hstep Hat. hstep (run_sq_value _ _ _ _ _ _ Es).
    destruct (value q0 =? 0)%Z; injection Hb as <-; [|by exists (Next ()), h].
    hstep Hat. exists (Return s), h. split; [done|]. split; [|done].
    unfold Heap.read_square. rewrite Es, Ed. by destruct q0. }
  { done. }
  { done. }
  hstep Hrun. destruct fl as [[]|x], fl' as [[]|y]; try done.
  - injection H as <-. rewrite Hrel.
    hstep (run_alloc (Heap.ONums []) h).
    eexists _, _. split; [apply run_alloc|]. split.
    + rewrite <- (assoc_L (++)). by apply prefix_app_r.
    + unfold Heap.read_square. rewrite length_app. simpl.
      rewrite lookup_app_r by (rewrite length_app; simpl; lia).
      rewrite length_app. simpl. rewrite Nat.sub_diag. simpl.
      rewrite lookup_app_l by (rewrite length_app; simpl; lia).
      rewrite lookup_app_r by done. by rewrite Nat.sub_diag.
  - destruct Hrel as [Hread ->]. injection H as <-. by exists y, h.
Qed.

(** *** The search *)

Lemma run_index_of z i h : idx z = Some i → Heap.index_of z h = Some (i, h).
Proof. intros E. unfold Heap.index_of. by rewrite E. Qed.

(** A board that was read without repetition is a board of the heap
    however the heap grows. *)
Lemma is_board_grown n h h' b B :
  Heap.read_board h b = Some B → NoDup (Heap.footprint h b) → square_grid n B →
  h `prefix_of` h' → is_board n h' b B.
Proof.
  intros HB Hnd Hsq Hpre.
  destruct (agree_board h h' b (prefix_agree _ _ _ Hpre (read_board_alloc _ _ _ HB)))
    as [Hread Hfp].
  apply is_board_intro; [by rewrite Hread|by rewrite Hfp|done].
Qed.

Lemma new_SudokuCSP_run n h b B f :
  Heap.read_board h b = Some B → square_grid n B →
  ∃ p h' nb, Heap.new_SudokuCSP b f h = Some (p, h') ∧ h `prefix_of` h' ∧
    h' !! p = Some (Heap.OCSP nb f) ∧ is_board n h' nb B.
Proof.
  intros HB Hsq.
  destruct (copySquares_run h b B n HB Hsq) as (h1 & Hrun & Hpre & Hread & _ & Hnd).
  unfold Heap.new_SudokuCSP. hstep Hrun.
  exists (length h1), (h1 ++ [Heap.OCSP (length h) f]), (length h).
  split_and!.
  - apply run_alloc.
  - etrans; [done|]. by apply prefix_app_r.
  - rewrite lookup_app_r by done. by rewrite Nat.sub_diag.
  - apply (is_board_grown n h1); [done..|]. by apply prefix_app_r.
Qed.

(** [backtrack] on the heap does what the state-passing [backtrack]
    does, and leaves every object it finds as it is. *)
Lemma backtrack_sim fuel : ∀ sudoku h b f B res,
  h !! sudoku = Some (Heap.OCSP b f) → Heap.read_board h b = Some B → shape9 B →
  backtrack fuel (mkCSP B f) = Some res →
  ∃ r h' b', Heap.backtrack fuel sudoku h = Some (r, h') ∧ h `prefix_of` h' ∧
    h' !! r = Some (Heap.OCSP b' (failure res)) ∧
    Heap.read_board h' b' = Some (squares res).
Proof.
  induction fuel as [|fuel IH]; intros sudoku h b f B res Esud Hread HsB H; [done|].
  rewrite backtrack_S in H. cbn [squares] in H. cbn [Heap.backtrack].
  pstep H as full with Hfull.
  hstep (run_csp_squares _ _ _ _ Esud). hstep (isFull_sim _ _ _ _ Hread Hfull).
  destruct full.
  { injection H as <-. by exists sudoku, h, b. }
  pstep H as q with Hget.
  destruct (getEmptySquare_sim _ _ _ _ Hread Hget) as (sq & h0 & Hrun0 & Hpre0 & Hsq).
  hstep (run_csp_squares _ _ _ _ Esud). hstep Hrun0.
  destruct (read_square_inv _ _ _ Hsq) as (d & Es & Ed).
  pose proof (prefix_lookup_Some _ _ _ _ Esud Hpre0) as Esud0.
  pose proof (read_board_prefix _ _ _ _ Hpre0 Hread) as Hread0.
  set (Rel := λ (_ : unit) (h' : list Heap.obj), good h0 h').
  set (RelR := λ (x : SudokuCSP) (y : Heap.loc) (h' : list Heap.obj),
                 good h0 h' ∧ failure x = false ∧
                 ∃ b', h' !! y = Some (Heap.OCSP b' false) ∧
                       Heap.read_board h' b' = Some (squares x)).
  pstep H as fl with Hloop.
  match goal with |- context [Heap.for_to ?bound ?bodyH] =>
    match type of Hloop with for_ _ ?bodyP _ = _ =>
      destruct (for_to_sim Rel RelR bodyP bodyH bound (length (domain q)))
        with (s := ()) (h := h0) (fl := fl) as (fl' & h9 & Hrun & Hrel)
    end
  end.
  { intros u h' [Hpre _].
    hstep (run_sq_domain _ _ _ _ _ _ (prefix_lookup_Some _ _ _ _ Es Hpre)).
    apply run_nums_length. by eapply prefix_lookup_Some. }
  { intros k u h' fl0 Hk Hgood Hb. pose proof (proj1 Hgood) as Hpre.
    pstep Hb as B0 with Hcopy. rewrite (copySquares_id B HsB) in Hcopy. injection Hcopy as <-.
    pstep Hb as v with Hv. pstep Hb as r with Hr. pstep Hb as c with Hc.
    pstep Hb as B1 with Hset. pstep Hb as [ok B2] with Hud.
    hstep (run_csp_squares _ _ _ _ (prefix_lookup_Some _ _ _ _ Esud0 Hpre)).
    destruct (copySquares_run h' b B 9 (read_board_prefix _ _ _ _ Hpre Hread0) HsB)
      as (h1 & Hrun1 & Hbuild).
    hstep Hrun1.
    destruct (pres_copySquares h0 b h' _ h1 Hgood Hrun1) as [Hgood1 Hnew].
    pose proof (proj1 Hgood1) as Hpre1.
    assert (is_board 9 h1 (length h') B) as HB1.
    { destruct Hbuild as (_ & ? & _ & ?). by apply is_board_intro. }
    hstep (run_sq_domain _ _ _ _ _ _ (prefix_lookup_Some _ _ _ _ Es Hpre1)).
    hstep (run_nums_at _ _ _ _ _ (prefix_lookup_Some _ _ _ _ Ed Hpre1) Hv).
    hstep (run_sq_row _ _ _ _ _ _ (prefix_lookup_Some _ _ _ _ Es Hpre1)).
    hstep (run_index_of _ _ h1 Hr).
    hstep (run_sq_col _ _ _ _ _ _ (prefix_lookup_Some _ _ _ _ Es Hpre1)).
    hstep (run_index_of _ _ h1 Hc).
    destruct (set_value_sim _ _ _ _ _ _ _ _ HB1 Hset) as (t & h2 & Hat & Hsv & HB2).
    hstep Hat. hstep Hsv.
    destruct (pres_at2_new h0 _ r c Hnew h1 t h1 Hgood1 Hat) as [_ Htnew].
    destruct (pres_set_sq_value h0 t v Htnew h1 () h2 Hgood1 Hsv) as [Hgood2 _].
    pose proof (proj1 Hgood2) as Hpre2.
    hstep (run_sq_row _ _ _ _ _ _ (prefix_lookup_Some _ _ _ _ Es Hpre2)).
    hstep (run_index_of _ _ h2 Hr).
    hstep (run_sq_col _ _ _ _ _ _ (prefix_lookup_Some _ _ _ _ Es Hpre2)).
    hstep (run_index_of _ _ h2 Hc).
    destruct (updateDomains_sim _ _ _ _ _ _ _ _ HB2 Hud) as (h3 & Hrun3 & HB3).
    hstep Hrun3.
    destruct (pres_updateDomains h0 _ r c Hnew h2 ok h3 Hgood2 Hrun3) as [Hgood3 _].
    destruct ok; [|injection Hb as <-; by exists (Next ()), h3].
    pstep Hb as csp with Hcsp.
    rewrite new_SudokuCSP_eq in Hcsp by apply HB3. injection Hcsp as <-.
    destruct (new_SudokuCSP_run 9 h3 (length h') B2 false (is_board_read _ _ _ _ HB3))
      as (p & h4 & nb & Hrun4 & Hpre4 & Ep & HB4); [apply HB3|].
    hstep Hrun4.
    destruct (pres_new_SudokuCSP h0 _ false h3 p h4 Hgood3 Hrun4) as [Hgood4 Hpnew].
    pstep Hb as result with Hrec.
    destruct (IH p h4 nb false B2 result Ep (is_board_read _ _ _ _ HB4) (proj1 HB4) Hrec)
      as (y & h5 & b5 & Hrun5 & Hpre5 & Ey & HB5).
    hstep Hrun5.
    destruct (pres_backtrack h0 fuel p Hpnew h4 y h5 Hgood4 Hrun5) as [Hgood5 _].
    hstep (run_csp_failure _ _ _ _ Ey).
    destruct (failure result) eqn:Hfail; injection Hb as <-.
    - by exists (Next ()), h5.
    - exists (Return y), h5. split; [done|]. split_and!; [done..|]. by exists b5. }
  { apply good_refl. }
  { done. }
  hstep Hrun. destruct fl as [[]|x], fl' as [[]|y]; try done.
  - pose proof (proj1 Hrel) as Hpre9.
    rewrite new_SudokuCSP_eq in H by done. injection H as <-.
    hstep (run_csp_squares _ _ _ _ (prefix_lookup_Some _ _ _ _ Esud0 Hpre9)).
    destruct (new_SudokuCSP_run 9 h9 b B true (read_board_prefix _ _ _ _ Hpre9 Hread0) HsB)
      as (p & h' & nb & Hrun' & Hpre' & Ep & HB').
    exists p, h', nb. split_and!; [done| |done|by eapply is_board_read].
    do 2 (etrans; [done|]). done.
  - destruct Hrel as ([Hpre9 _] & Hfail & b' & Ey & HB'). injection H as <-.
    exists y, h9, b'. rewrite Hfail. split_and!; [done| |done..]. by etrans.
Qed.

(** [solve] on the heap does what the state-passing [solve] does. *)
Lemma solve_sim fuel b h B res :
  Heap.read_board h b = Some B → shape9 B → solve fuel B = Some res →
  ∃ r h' b', Heap.solve fuel b h = Some (r, h') ∧ h `prefix_of` h' ∧
    h' !! r = Some (Heap.OCSP b' (failure res)) ∧
    Heap.read_board h' b' = Some (squares res).
Proof.
  intros Hread HsB H. unfold solve in H.
  pstep H as B0 with Hcopy. rewrite (copySquares_id B HsB) in Hcopy. injection Hcopy as <-.
  pstep H as [ok B1] with Hall. pstep H as csp with Hcsp.
  destruct (copySquares_run h b B 9 Hread HsB) as (h1 & Hrun1 & Hbuild).
  assert (is_board 9 h1 (length h) B) as HB1.
  { destruct Hbuild as (_ & ? & _ & ?). by apply is_board_intro. }
  destruct (updateAllDomains_sim _ _ _ _ _ _ HB1 Hall) as (h2 & Hrun2 & HB2).
  rewrite new_SudokuCSP_eq in Hcsp by apply HB2. injection Hcsp as <-.
  destruct (new_SudokuCSP_run 9 h2 (length h) B1 false (is_board_read _ _ _ _ HB2))
    as (p & h3 & nb & Hrun3 & Hpre3 & Ep & HB3); [apply HB2|].
  destruct (backtrack_sim fuel p h3 nb false B1 res Ep (is_board_read _ _ _ _ HB3)
              (proj1 HB3) H) as (r & h' & b' & Hrun4 & Hpre4 & Er & HB').
  assert (Heap.solve fuel b h = Some (r, h')) as Hrun.
  { unfold Heap.solve. hstep Hrun1. hstep Hrun2. by hstep Hrun3. }
  exists r, h', b'. split_and!; [done| |done..].
  apply (pres_solve h fuel b h r h' (good_refl h) Hrun).
Qed.

(** * The heap program and the state-passing program agree *)

(** On a board of the page the state-passing [solve] returns. *)
Lemma solve_returns s fuel : wf_input s → 81 < fuel → ∃ res, solve fuel s = Some res.
Proof.
  intros Hin Hfuel.
  destruct (solve_unfold fuel s Hin) as (b & s1 & Hu & Hwf1 & Hfr & ->).
  destruct (backtrack_inv wf_board) with (fuel := fuel) (csp := mkCSP s1 false)
    as (res & Hres & _); [done| |done| |by exists res].
  - intros x i j v s' Hx Hi Hj H0 _ Hv Ht.
    destruct (trial_wf x i j v Hx Hi Hj H0 Hv) as (b' & s'' & Ht' & Hwf' & _).
    rewrite Ht in Ht'. by injection Ht' as <- <-.
  - simpl. pose proof (count_empty_le s1). lia.
Qed.

(** X17. So [solve] on the heap returns on every board of the page,
    however its arrays and squares are shared, with a SudokuCSP that
    stands for the result of the state-passing [solve]: what is proved of
    the one holds of the other. *)
Theorem solve_refines fuel sq h B :
  Heap.read_board h sq = Some B → wf_input B → 81 < fuel →
  ∃ res r h' b', solve fuel B = Some res ∧
    Heap.solve fuel sq h = Some (r, h') ∧
    h' !! r = Some (Heap.OCSP b' (failure res)) ∧
    Heap.read_board h' b' = Some (squares res).
Proof.
  intros Hread Hin Hfuel. destruct (solve_returns B fuel Hin Hfuel) as [res Hres].
  destruct (solve_sim fuel sq h B res Hread (proj1 Hin) Hres)
    as (r & h' & b' & Hrun & _ & Er & Hread').
  by exists res, r, h', b'.
Qed.

Lemma solve_refines_open_grid :
  ∃ b h, Heap.page_board open_grid [] = Some (b, h) ∧
    ∃ res r h' b', solve 82 (mkBoard open_grid) = Some res ∧
      Heap.solve 82 b h = Some (r, h') ∧
      h' !! r = Some (Heap.OCSP b' (failure res)) ∧
      Heap.read_board h' b' = Some (squares res).
Proof.
  eexists _, _. split; [vm_compute; reflexivity|].
  apply (solve_refines 82 _ _ (mkBoard open_grid)).
  - vm_compute. reflexivity.
  - apply (bool_decide_unpack _). vm_compute. reflexivity.
  - lia.
Defined.

(** C8. [backtrack] is called with a SudokuCSP whose board is not full.
    If every candidate in the domain of the chosen empty square is tried
    without success (its propagation reports an empty domain, or the
    recursive call on the trial board comes back with [failure = true]),
    then [backtrack] returns a SudokuCSP with [failure = true] whose
    board reads as the board did when [backtrack] was entered; every
    object that was on the heap then is unchanged, so no trial assignment
    and no trial pruning shows in the board that was passed either. *)
Theorem backtrack_exhausted fuel sudoku h b f B square :
  h !! sudoku = Some (Heap.OCSP b f) →
  Heap.read_board h b = Some B →
  wf_board B →
  isFull B = Some false →
  getEmptySquare B = Some square →
  (∀ v, v ∈ domain square →
     ∃ ok s', trial B square v = Some (ok, s') ∧
       (ok = true → ∃ r, backtrack fuel (mkCSP s' false) = Some r ∧ failure r = true)) →
  ∃ r h' b', Heap.backtrack (S fuel) sudoku h = Some (r, h') ∧
    h' !! r = Some (Heap.OCSP b' true) ∧
    Heap.read_board h' b' = Some B ∧
    (∀ l o, h !! l = Some o → h' !! l = Some o) ∧
    Heap.read_board h' b = Some B.
Proof.
  intros Esud Hread Hwf Hnfull Hsq Hall.
  pose proof (backtrack_fails fuel (mkCSP B f) square Hwf Hnfull Hsq Hall) as Hpure.
  cbn [squares] in Hpure.
  destruct (backtrack_sim (S fuel) sudoku h b f B _ Esud Hread (proj1 Hwf) Hpure)
    as (r & h' & b' & Hrun & Hpre & Er & HB').
  exists r, h', b'. split_and!; [done..| |].
  - intros l o Hl. by eapply prefix_lookup_Some.
  - by eapply read_board_prefix.
Qed.

Lemma backtrack_exhausted_witness :
  ∃ sudoku h b, dead_end_heap = Some (sudoku, h) ∧
    h !! sudoku = Some (Heap.OCSP b false) ∧
    ∃ r h' b', Heap.backtrack 2 sudoku h = Some (r, h') ∧
      h' !! r = Some (Heap.OCSP b' true) ∧
      Heap.read_board h' b' = Some dead_end_board ∧
      (∀ l o, h !! l = Some o → h' !! l = Some o) ∧
      Heap.read_board h' b = Some dead_end_board.
Proof.
  eexists _, _, _. split; [vm_compute; reflexivity|]. split; [vm_compute; reflexivity|].
  apply (backtrack_exhausted 1 _ _ _ false dead_end_board (cell dead_end_board 0 0)).
  - vm_compute. reflexivity.
  - vm_compute. reflexivity.
  - apply (bool_decide_unpack _). vm_compute. reflexivity.
  - vm_compute. reflexivity.
  - vm_compute. reflexivity.
  - intros v Hv. change (v ∈ [1; 2]%Z) in Hv.
    apply elem_of_cons in Hv as [->|Hv]; [|apply elem_of_cons in Hv as [->|Hv]].
    + eexists true, _. split; [vm_compute; reflexivity|]. intros _.
      eexists. split; [vm_compute; reflexivity|reflexivity].
    + eexists true, _. split; [vm_compute; reflexivity|]. intros _.
      eexists. split; [vm_compute; reflexivity|reflexivity].
    + by apply elem_of_nil in Hv.
Defined.

(** C10. Whatever board and heap [solve] is called with, when it returns
    every object that was on the heap before the call is there unchanged,
    so the caller's array stands for the same board of values and domains
    as before; the SudokuCSP returned is a new object, and its board is
    made of new objects only: it is the solver's own copy.  On a board of
    the page [solve] does return, and a second call on the same array
    finds the same input and returns the same result. *)
Theorem solve_leaves_input fuel sq h :
  (∀ r h', Heap.solve fuel sq h = Some (r, h') →
     (∀ l o, h !! l = Some o → h' !! l = Some o) ∧
     (∀ B, Heap.read_board h sq = Some B → Heap.read_board h' sq = Some B) ∧
     is_new (length h) r ∧
     (∀ s f, h' !! r = Some (Heap.OCSP s f) →
        Forall (is_new (length h)) (Heap.footprint h' s))) ∧
  (∀ B, Heap.read_board h sq = Some B → wf_input B → 81 < fuel →
     ∃ res r h' b', solve fuel B = Some res ∧
       Heap.solve fuel sq h = Some (r, h') ∧
       h' !! r = Some (Heap.OCSP b' (failure res)) ∧
       Heap.read_board h' b' = Some (squares res) ∧
       Heap.read_board h' sq = Some B ∧
       ∃ r2 h2 b2, Heap.solve fuel sq h' = Some (r2, h2) ∧
         h2 !! r2 = Some (Heap.OCSP b2 (failure res)) ∧
         Heap.read_board h2 b2 = Some (squares res) ∧
         Heap.read_board h2 sq = Some B).
Proof.
  split.
  - intros r h' Hrun.
    destruct (pres_solve h fuel sq h r h' (good_refl h) Hrun) as [Hg Hr].
    split_and!.
    + intros l o Hl. by eapply prefix_lookup_Some, Hg.
    + intros B. apply read_board_prefix, Hg.
    + done.
    + intros s f Hcsp. apply footprint_new; [done|].
      destruct Hg as [_ Hcl]. pose proof (Hcl _ _ Hr Hcsp) as Hs. simpl in Hs.
      by apply Forall_cons in Hs as [? _].
  - intros B Hread Hin Hfuel. destruct (solve_returns B fuel Hin Hfuel) as [res Hres].
    destruct (solve_sim fuel sq h B res Hread (proj1 Hin) Hres)
      as (r & h' & b' & Hrun & Hpre & Er & Hread').
    pose proof (read_board_prefix _ _ _ _ Hpre Hread) as Hagain.
    destruct (solve_sim fuel sq h' B res Hagain (proj1 Hin) Hres)
      as (r2 & h2 & b2 & Hrun2 & Hpre2 & Er2 & Hread2).
    exists res, r, h', b'. split_and!; [done..|].
    exists r2, h2, b2. split_and!; [done..|]. by eapply read_board_prefix.
Qed.

Lemma solve_leaves_input_witness :
  ∃ b h, Heap.page_board open_dup_grid [] = Some (b, h) ∧
    ∃ res r h' b', solve 82 (mkBoard open_dup_grid) = Some res ∧
      Heap.solve 82 b h = Some (r, h') ∧
      h' !! r = Some (Heap.OCSP b' (failure res)) ∧
      Heap.read_board h' b' = Some (squares res) ∧
      Heap.read_board h' b = Some (mkBoard open_dup_grid) ∧
      ∃ r2 h2 b2, Heap.solve 82 b h' = Some (r2, h2) ∧
        h2 !! r2 = Some (Heap.OCSP b2 (failure res)) ∧
        Heap.read_board h2 b2 = Some (squares res) ∧
        Heap.read_board h2 b = Some (mkBoard open_dup_grid).
Proof.
  eexists _, _. split; [vm_compute; reflexivity|].
  apply (proj2 (solve_leaves_input 82 _ _) (mkBoard open_dup_grid)).
  - vm_compute. reflexivity.
  - apply (bool_decide_unpack _). vm_compute. reflexivity.
  - lia.
Defined.

(** * From the form to the result *)

Lemma cell_mkBoard g i j r v :
  g !! i = Some r → r !! j = Some v →
  cell (mkBoard g) i j = mkSquare (Z.of_nat i) (Z.of_nat j) v full_domain.
Proof.
  intros Hr Hv. unfold cell, at2, mkBoard. rewrite list_lookup_imap, Hr. simpl.
  by rewrite list_lookup_imap, Hv.
Qed.

(** A grid of the form becomes a board that [solve] expects. *)
Lemma wf_input_mkBoard g : wf_grid g → wf_input (mkBoard g).
Proof.
  intros [Hlen Hrows]. rewrite Forall_lookup in Hrows. split.
  - split.
    + unfold mkBoard. by rewrite length_imap.
    + apply Forall_lookup. intros i R HR. unfold mkBoard in HR.
      rewrite list_lookup_imap in HR. destruct (g !! i) as [r|] eqn:Hr; [|done].
      injection HR as <-. rewrite length_imap. by apply (Hrows i r).
  - apply all_cells_spec. intros i j Hi Hj.
    destruct (lookup_lt_is_Some_2 g i) as [r Hr]; [lia|].
    destruct (Hrows i r Hr) as [Hrl Hvs].
    destruct (lookup_lt_is_Some_2 r j) as [v Hv]; [lia|].
    rewrite (cell_mkBoard g i j r v Hr Hv). simpl. split_and!; try done.
    + rewrite Forall_lookup in Hvs. by apply (Hvs j v).
    + rewrite Forall_lookup in Hvs. by apply (Hvs j v).
Qed.

Lemma lookup_two_0 {A} (h : list A) a b : (h ++ [a; b]) !! length h = Some a.
Proof. rewrite lookup_app_r by done. by rewrite Nat.sub_diag. Qed.

Lemma lookup_two_1 {A} (h : list A) a b : (h ++ [a; b]) !! S (length h) = Some b.
Proof. rewrite lookup_app_r by lia. by replace (S (length h) - length h) with 1 by lia. Qed.

Lemma insert_two_0 {A} (h : list A) a b a' : <[length h := a']> (h ++ [a; b]) = h ++ [a'; b].
Proof. rewrite insert_app_r_alt by done. by rewrite Nat.sub_diag. Qed.

Lemma insert_two_1 {A} (h : list A) a b b' :
  <[S (length h) := b']> (h ++ [a; b]) = h ++ [a; b'].
Proof.
  rewrite insert_app_r_alt by lia. by replace (S (length h) - length h) with 1 by lia.
Qed.

(** The page makes a square with the domain 1..9 and the value of the
    form. *)
Lemma page_square_run i j v h :
  Heap.page_square i j v h =
    Some (S (length h),
          h ++ [Heap.ONums full_domain;
                Heap.OSquare (Z.of_nat i) (Z.of_nat j) v (length h)]).
Proof.
  unfold Heap.page_square. hstep (run_alloc (Heap.ONums []) h).
  hstep (run_alloc (Heap.OSquare (Z.of_nat i) (Z.of_nat j) 0 (length h))
           (h ++ [Heap.ONums []])).
  rewrite length_app, <- (assoc_L (++)). cbn [length app]. rewrite Nat.add_1_r.
  set (sq := Heap.OSquare (Z.of_nat i) (Z.of_nat j) 0 (length h)).
  assert (∀ xs k,
    Heap.bind (Heap.sq_domain (S (length h))) (λ d,
      Heap.bind (Heap.get_nums d) (λ xs,
        Heap.bind (Heap.store d (Heap.ONums (xs ++ [Z.of_nat k]))) (λ _,
          Heap.ret (Next (St := unit) (R := unit) ()))))
      (h ++ [Heap.ONums xs; sq]) =
    Some (Next (), h ++ [Heap.ONums (xs ++ [Z.of_nat k]); sq])) as Hstep.
  { intros xs k.
    hstep (run_sq_domain _ _ _ _ _ _ (lookup_two_1 h (Heap.ONums xs) sq)).
    hstep (run_get_nums _ _ _ (lookup_two_0 h (Heap.ONums xs) sq)).
    rewrite (bind_run _ _ _ () (h ++ [Heap.ONums (xs ++ [Z.of_nat k]); sq])); [done|].
    rewrite run_store by (rewrite length_app; simpl; lia). by rewrite insert_two_0. }
  change (seq 1 9) with [1; 2; 3; 4; 5; 6; 7; 8; 9].
  rewrite (bind_run _ _ _ (Next ())
             (h ++ [Heap.ONums (Z.of_nat <$> [1; 2; 3; 4; 5; 6; 7; 8; 9]); sq])).
  - erewrite bind_run; [done|].
    erewrite run_set_sq_value by apply lookup_two_1. by rewrite insert_two_1.
  - do 9 (rewrite for_in_cons; erewrite bind_run by apply Hstep).
    by rewrite for_in_nil.
Qed.

Lemma page_row_run i vs : ∀ j h,
  ∃ ss h', Heap.page_row i j vs h = Some (ss, h') ∧ h `prefix_of` h' ∧
    mapM (Heap.read_square h') ss =
      Some (imap (λ k v, mkSquare (Z.of_nat i) (Z.of_nat (j + k)) v full_domain) vs).
Proof.
  induction vs as [|v vs IH]; intros j h; cbn [Heap.page_row].
  { by exists [], h. }
  hstep (page_square_run i j v h).
  destruct (IH (S j) (h ++ [Heap.ONums full_domain;
                            Heap.OSquare (Z.of_nat i) (Z.of_nat j) v (length h)]))
    as (ss & h' & Hrun & Hpre & Hread).
  hstep Hrun. exists (S (length h) :: ss), h'. split_and!; [done| |].
  - etrans; [|done]. by apply prefix_app_r.
  - rewrite imap_cons. apply mapM_Some_2. constructor.
    + apply (read_square_prefix _ _ _ _ Hpre). unfold Heap.read_square.
      rewrite lookup_two_1, lookup_two_0. by rewrite Nat.add_0_r.
    + apply mapM_Some_1. rewrite Hread. f_equal. apply imap_ext.
      intros k x _. simpl. by rewrite Nat.add_succ_r.
Qed.

Lemma page_rows_run g : ∀ i h,
  ∃ rs h', Heap.page_rows i g h = Some (rs, h') ∧ h `prefix_of` h' ∧
    mapM (Heap.read_row h') rs =
      Some (imap (λ k r, imap (λ j v, mkSquare (Z.of_nat (i + k)) (Z.of_nat j) v
                                        full_domain) r) g).
Proof.
  induction g as [|vs g IH]; intros i h; cbn [Heap.page_rows].
  { by exists [], h. }
  destruct (page_row_run i vs 0 h) as (ss & h1 & Hrun1 & Hpre1 & Hread1).
  hstep Hrun1. hstep (run_alloc (Heap.ORefs ss) h1).
  destruct (IH (S i) (h1 ++ [Heap.ORefs ss])) as (rs & h' & Hrun & Hpre & Hread).
  hstep Hrun. exists (length h1 :: rs), h'. split_and!; [done| |].
  - etrans; [done|]. etrans; [|done]. by apply prefix_app_r.
  - rewrite imap_cons. apply mapM_Some_2. constructor.
    + apply (read_row_prefix _ _ _ _ Hpre). unfold Heap.read_row.
      rewrite lookup_app_r by done. rewrite Nat.sub_diag. simpl.
      rewrite Nat.add_0_r.
      apply mapM_Some_2. apply mapM_Some_1 in Hread1.
      eapply Forall2_impl; [exact Hread1|]. intros s q Hs.
      by apply (read_square_prefix h1); [apply prefix_app_r|].
    + apply mapM_Some_1. rewrite Hread. f_equal. apply imap_ext.
      intros k x _. simpl. apply imap_ext. intros j v _. simpl.
      by rewrite Nat.add_succ_r.
Qed.

(** The array the page hands to [solve] stands for [mkBoard g]. *)
Lemma page_board_run g h :
  ∃ b h', Heap.page_board g h = Some (b, h') ∧ h `prefix_of` h' ∧
    Heap.read_board h' b = Some (mkBoard g).
Proof.
  destruct (page_rows_run g 0 h) as (rs & h1 & Hrun & Hpre & Hread).
  unfold Heap.page_board. hstep Hrun.
  exists (length h1), (h1 ++ [Heap.ORefs rs]). split_and!.
  - apply run_alloc.
  - etrans; [done|]. by apply prefix_app_r.
  - unfold Heap.read_board. rewrite lookup_app_r by done. rewrite Nat.sub_diag. simpl.
    apply mapM_Some_2. apply mapM_Some_1 in Hread.
    eapply Forall2_impl; [exact Hread|]. intros r R Hr.
    by apply (read_row_prefix h1); [apply prefix_app_r|].
Qed.

(** From the form to the result: for every grid of the form, the page
    builds a board, [solve] returns on it, and what it returns stands for
    the result of the state-passing [solve] on [mkBoard g]; the board of
    the page is as it was. *)
Theorem page_solve g :
  wf_grid g →
  ∃ b h res r h' b', Heap.page_board g [] = Some (b, h) ∧
    solve 82 (mkBoard g) = Some res ∧
    Heap.solve 82 b h = Some (r, h') ∧
    h' !! r = Some (Heap.OCSP b' (failure res)) ∧
    Heap.read_board h' b' = Some (squares res) ∧
    Heap.read_board h' b = Some (mkBoard g).
Proof.
  intros Hg. pose proof (wf_input_mkBoard g Hg) as Hin.
  destruct (page_board_run g []) as (b & h & Hpage & _ & Hread).
  destruct (solve_returns (mkBoard g) 82 Hin) as [res Hres]; [lia|].
  destruct (solve_sim 82 b h (mkBoard g) res Hread (proj1 Hin) Hres)
    as (r & h' & b' & Hrun & Hpre & Er & Hread').
  exists b, h, res, r, h', b'. split_and!; [done..|]. by eapply read_board_prefix.
Qed.

Lemma page_solve_empty_grid :
  ∃ b h res r h' b', Heap.page_board empty_grid [] = Some (b, h) ∧
    solve 82 (mkBoard empty_grid) = Some res ∧
    Heap.solve 82 b h = Some (r, h') ∧
    h' !! r = Some (Heap.OCSP b' (failure res)) ∧
    Heap.read_board h' b' = Some (squares res) ∧
    Heap.read_board h' b = Some (mkBoard empty_grid).
Proof. apply page_solve. apply (bool_decide_unpack _). vm_compute. reflexivity. Qed.

(** * The search is complete *)

(** *** Solved grids *)

Lemma occurrences_elem d l : occurrences d l = 1 → d ∈ l.
Proof.
  unfold occurrences. intros H.
  destruct (filter (λ x, x = d) l) as [|x k] eqn:E; [done|].
  assert (x ∈ filter (λ x, x = d) l) as Hx by (rewrite E; by left).
  by apply list_elem_of_filter in Hx as [-> ?].
Qed.

Lemma each_digit_once_perm l : length l = 9 → each_digit_once l → full_domain ≡ₚ l.
Proof.
  intros Hlen Hall. apply submseteq_length_Permutation; [|by rewrite Hlen].
  apply NoDup_submseteq; [by apply (bool_decide_unpack _)|].
  intros d Hd. unfold each_digit_once in Hall. rewrite Forall_forall in Hall.
  by apply occurrences_elem, Hall.
Qed.

(** The squares [f 0 .. f 8] of a line that holds every digit once hold
    digits, and no two of them the same. *)
Lemma line_digits t (f : nat → nat * nat) m :
  each_digit_once ((λ m, value (cell t (f m).1 (f m).2)) <$> seq 0 9) → m < 9 →
  value (cell t (f m).1 (f m).2) ∈ full_domain.
Proof.
  intros Hall Hm. apply each_digit_once_perm in Hall; [|by rewrite length_fmap, length_seq].
  rewrite Hall. apply list_elem_of_fmap. exists m. split; [done|]. apply elem_of_seq. lia.
Qed.

Lemma line_differ t (f : nat → nat * nat) m m' :
  each_digit_once ((λ m, value (cell t (f m).1 (f m).2)) <$> seq 0 9) →
  m < 9 → m' < 9 → m ≠ m' →
  value (cell t (f m).1 (f m).2) ≠ value (cell t (f m').1 (f m').2).
Proof.
  intros Hall Hm Hm' Hne Heq.
  apply each_digit_once_perm in Hall; [|by rewrite length_fmap, length_seq].
  assert (NoDup ((λ m, value (cell t (f m).1 (f m).2)) <$> seq 0 9)) as Hnd.
  { rewrite <- Hall. by apply (bool_decide_unpack _). }
  apply Hne. eapply (NoDup_lookup _ m m' _ Hnd).
  - rewrite list_lookup_fmap, lookup_seq_lt by done. done.
  - rewrite list_lookup_fmap, lookup_seq_lt by done. simpl. by rewrite Heq.
Qed.

Lemma solved_lines t k :
  solved t → k < 9 →
  each_digit_once (row_values t k) ∧ each_digit_once (col_values t k) ∧
  each_digit_once (box_values t k).
Proof.
  intros Hs Hk. unfold solved in Hs. rewrite Forall_forall in Hs.
  apply Hs, elem_of_seq. lia.
Qed.

Lemma solved_digit t i j : solved t → i < 9 → j < 9 → value (cell t i j) ∈ full_domain.
Proof.
  intros Hs Hi Hj. destruct (solved_lines t i Hs Hi) as (Hrow & _ & _).
  by apply (line_digits t (λ m, (i, m)) j).
Qed.

Lemma solved_nonzero t i j : solved t → i < 9 → j < 9 → value (cell t i j) ≠ 0%Z.
Proof.
  intros Hs Hi Hj H0. pose proof (solved_digit t i j Hs Hi Hj) as Hd.
  rewrite H0 in Hd. revert Hd. by apply (bool_decide_unpack _).
Qed.

(** In a solved grid no two peers hold the same digit. *)
Lemma solved_peers_differ t i j a b :
  solved t → i < 9 → j < 9 → a < 9 → b < 9 → peer i j a b →
  value (cell t i j) ≠ value (cell t a b).
Proof.
  intros Hs Hi Hj Ha Hb [Hne [->|[->|[Hr Hc]]]].
  - destruct (solved_lines t a Hs Ha) as (Hrow & _ & _).
    apply (line_differ t (λ m, (a, m)) j b Hrow); lia.
  - destruct (solved_lines t b Hs Hb) as (_ & Hcol & _).
    apply (line_differ t (λ m, (m, b)) i a Hcol); lia.
  - set (k := 3 * (i / 3) + j / 3).
    destruct (solved_lines t k Hs ltac:(unfold k; lia)) as (_ & _ & Hbox).
    pose proof (line_differ t (λ m, (3 * (k / 3) + m / 3, 3 * (k mod 3) + m mod 3))
                  (3 * (i mod 3) + j mod 3) (3 * (a mod 3) + b mod 3) Hbox) as H.
    cbn [fst snd] in H.
    replace (3 * (k / 3) + (3 * (i mod 3) + j mod 3) / 3) with i in H by (unfold k; lia).
    replace (3 * (k mod 3) + (3 * (i mod 3) + j mod 3) mod 3) with j in H by (unfold k; lia).
    replace (3 * (k / 3) + (3 * (a mod 3) + b mod 3) / 3) with a in H by (unfold k; lia).
    replace (3 * (k mod 3) + (3 * (a mod 3) + b mod 3) mod 3) with b in H by (unfold k; lia).
    apply H; lia.
Qed.

(** *** Propagation keeps every solution *)

(** A board on which the solution [t] is still possible: every square
    has the digit of [t] among its candidates. *)
Lemma updateDomains_keeps_solution s i j t b s' :
  shape9 s → i < 9 → j < 9 → value (cell s i j) ≠ 0%Z →
  solved t → value (cell t i j) = value (cell s i j) →
  (∀ a c, a < 9 → c < 9 → (a, c) ≠ (i, j) → value (cell t a c) ∈ domain (cell s a c)) →
  updateDomains s i j = Some (b, s') →
  b = true ∧ ∀ a c, a < 9 → c < 9 → value (cell t a c) ∈ domain (cell s' a c).
Proof.
  intros Hs Hi Hj Hv Ht Hij Hin Hrun.
  destruct (updateDomains_spec s i j Hs Hi Hj Hv) as (b0 & s0 & Hrun0 & HT & HN).
  rewrite Hrun in Hrun0. injection Hrun0 as <- <-.
  destruct HT as ([_ Hpr] & Hsame & _).
  assert (∀ a c, a < 9 → c < 9 → value (cell t a c) ∈ domain (cell s' a c)) as Hin'.
  { intros a c Ha Hc. destruct (decide ((a, c) = (i, j))) as [[= -> ->]|Hne].
    { rewrite Hsame by (done || apply peer_irrefl). rewrite cell_upd by done.
      rewrite decide_True by done. simpl. rewrite Hij. by left. }
    destruct (decide (peer i j a c)) as [Hp|Hnp].
    - destruct (Hpr a c Ha Hc) as (_ & _ & _ & n & Hdom). rewrite Hdom.
      rewrite cell_upd by done. rewrite (decide_False _ _ Hne).
      apply elem_of_iter_del1_ne; [|by apply Hin].
      rewrite <- Hij. intros Heq.
      by apply (solved_peers_differ t i j a c Ht Hi Hj Ha Hc Hp).
    - rewrite Hsame by done. rewrite cell_upd by done. rewrite (decide_False _ _ Hne).
      by apply Hin. }
  split; [|done]. destruct b; [done|].
  destruct HN as (a & c & Ha & Hc & _ & He).
  pose proof (Hin' a c Ha Hc) as H. rewrite He in H. by apply elem_of_nil in H.
Qed.

(** When the givens have a solution, the first propagation finds no
    empty domain and leaves every digit of the solution possible. *)
Lemma updateAllDomains_keeps_solution s t :
  wf_input s → solution_of s t →
  ∃ s1, updateAllDomains s = Some (true, s1) ∧ wf_board s1 ∧ same_frame s s1 ∧
    ∀ a c, a < 9 → c < 9 → value (cell t a c) ∈ domain (cell s1 a c).
Proof.
  intros Hin (Hst & Ht & Hk). pose proof (wf_input_board _ Hin) as Hwf.
  destruct (updateAllDomains_inv
    (λ _ _ s1, ∀ a c, a < 9 → c < 9 → value (cell t a c) ∈ domain (cell s1 a c))
    (λ _, False) s Hwf) as (b & s1 & Hrun & Hwf1 & Hfr & Hb).
  - intros a c Ha Hc. destruct Hin as [_ Hin]. rewrite all_cells_spec in Hin.
    destruct (Hin a c Ha Hc) as (_ & _ & _ & ->). by apply solved_digit.
  - intros i j s1 b s2 Hi Hj Hwf1 [_ Hfr1] HI Hud.
    pose proof (wf_board_shape _ Hwf1) as Hs1.
    destruct (decide (value (cell s1 i j) = 0%Z)) as [Hz|Hnz].
    { rewrite updateDomains_zero in Hud by done. by injection Hud as <- <-. }
    destruct (Hfr1 i j Hi Hj) as (_ & _ & Hval).
    destruct (updateDomains_keeps_solution s1 i j t b s2 Hs1 Hi Hj Hnz Ht) as [-> H2];
      [|by intros; apply HI|done|done].
    rewrite Hval. apply Hk; [done..|]. by rewrite <- Hval.
  - done.
  - destruct b; [|done]. by exists s1.
Qed.

(** *** The search finds a solution when there is one *)

Lemma trial_keeps_solution s i j t :
  consistent s → i < 9 → j < 9 → value (cell s i j) = 0%Z → solved t →
  (∀ a c, a < 9 → c < 9 → value (cell t a c) ∈ domain (cell s a c)) →
  ∃ s', trial s (cell s i j) (value (cell t i j)) = Some (true, s') ∧
    consistent s' ∧ count_empty s' < count_empty s ∧
    ∀ a c, a < 9 → c < 9 → value (cell t a c) ∈ domain (cell s' a c).
Proof.
  intros Hc Hi Hj H0 Ht Hin. pose proof (proj1 Hc) as Hwf.
  pose proof (wf_board_shape _ Hwf) as Hs.
  set (v := value (cell t i j)).
  destruct (trial_wf s i j v Hwf Hi Hj H0 (Hin i j Hi Hj)) as (b & s' & Hrun & _ & _ & Hlt).
  pose proof Hrun as Hud. rewrite trial_eq in Hud by done.
  destruct (updateDomains_keeps_solution (upd s i j (with_value v)) i j t b s')
    as [-> Hin']; try done.
  - by apply shape9_upd.
  - rewrite cell_upd by done. rewrite decide_True by done. simpl.
    by apply solved_nonzero.
  - rewrite cell_upd by done. by rewrite decide_True.
  - intros a c Ha Hc' Hne. rewrite cell_upd by done. rewrite (decide_False _ _ Hne).
    by apply Hin.
  - exists s'. split_and!; [done| |done..].
    by apply (trial_consistent s i j v s' Hc Hi Hj H0 (Hin i j Hi Hj)).
Qed.

Lemma backtrack_finds t : solved t → ∀ fuel csp,
  consistent (squares csp) → failure csp = false →
  (∀ a c, a < 9 → c < 9 → value (cell t a c) ∈ domain (cell (squares csp) a c)) →
  count_empty (squares csp) < fuel →
  ∃ res, backtrack fuel csp = Some res ∧ failure res = false.
Proof.
  intros Ht fuel. induction fuel as [|fuel IH]; intros csp Hc Hff Hin Hfuel; [lia|].
  pose proof (proj1 Hc) as Hwf. pose proof (wf_board_shape _ Hwf) as Hs.
  rewrite backtrack_S.
  destruct (isFull_spec _ Hs) as [[-> Hfull]|[-> (i0 & j0 & Hi0 & Hj0 & H00)]];
    rewrite bind_Some.
  { by exists csp. }
  pose proof (not_full_intro _ _ _ Hi0 Hj0 H00) as Hnf.
  destruct (getEmptySquare_spec _ Hs Hnf) as (i & j & Hi & Hj & -> & H0 & _).
  rewrite bind_Some.
  destruct (list_elem_of_lookup_1 _ _ (Hin i j Hi Hj)) as [k0 Hk0].
  pose proof (lookup_lt_Some _ _ _ Hk0) as Hk0lt.
  match goal with |- context [for_ ?l ?body ()] =>
    pose proof (for_seq_inv (λ k (_ : unit), k ≤ k0)
                  (λ res : SudokuCSP, failure res = false) body
                  0 (length (domain (cell (squares csp) i j))) ()) as Hloop
  end.
  feed_loop Hloop.
  { intros k [] Hk Hle.
    destruct (lookup_lt_is_Some_2 (domain (cell (squares csp) i j)) k) as [v Hkv]; [lia|].
    rewrite (candidate_step _ _ _ _ _ _ _ Hwf Hi Hj Hkv).
    assert (v ∈ domain (cell (squares csp) i j)) as Hvin by by eapply list_elem_of_lookup_2.
    destruct (trial_wf _ i j v Hwf Hi Hj H0 Hvin) as (b & s' & Htr & Hwf' & _ & Hlt).
    assert (k = k0 → b = true ∧ consistent s' ∧
              ∀ a c, a < 9 → c < 9 → value (cell t a c) ∈ domain (cell s' a c)) as Hhit.
    { intros ->. rewrite Hk0 in Hkv. injection Hkv as <-.
      destruct (trial_keeps_solution _ i j t Hc Hi Hj H0 Ht Hin) as (s'' & Htr' & ? & _ & ?).
      rewrite Htr in Htr'. by injection Htr' as -> ->. }
    rewrite Htr, bind_Some. destruct b.
    - rewrite new_SudokuCSP_eq, bind_Some by by apply wf_board_shape.
      destruct (backtrack_inv wf_board) with (fuel := fuel) (csp := mkCSP s' false)
        as (res & Hres & _); [done| |done|simpl; lia|].
      { intros x i' j' v' x' Hx Hi' Hj' H0' _ Hv' Ht'.
        destruct (trial_wf x i' j' v' Hx Hi' Hj' H0' Hv') as (b' & x'' & Ht'' & Hwf'' & _).
        rewrite Ht' in Ht''. by injection Ht'' as <- <-. }
      rewrite Hres, bind_Some. destruct (failure res) eqn:Hfail; simpl; [|done].
      destruct (decide (k = k0)) as [Heq|Hne]; [|lia].
      destruct (Hhit Heq) as (_ & Hc' & Hin').
      destruct (IH (mkCSP s' false) Hc' eq_refl Hin') as (res' & Hres' & Hok); [simpl; lia|].
      rewrite Hres in Hres'. injection Hres' as <-. congruence.
    - destruct (decide (k = k0)) as [Heq|Hne]; [|lia]. by destruct (Hhit Heq). }
  { lia. }
  destruct_loop as [[[]|res]|]; [lia| |done].
  rewrite bind_Some. by exists res.
Qed.

(** With a solution of the givens at hand, [solve] returns a solved grid
    that holds the givens. *)
Lemma solve_finds s t fuel :
  wf_input s → solution_of s t → 81 < fuel →
  ∃ res, solve fuel s = Some res ∧ failure res = false ∧
    solved (squares res) ∧ keeps_givens s (squares res).
Proof.
  intros Hin Hsol Hfuel.
  destruct (updateAllDomains_keeps_solution s t Hin Hsol) as (s1 & Hu & Hwf1 & Hfr & Hin1).
  destruct (solve_unfold fuel s Hin) as (b & s1' & Hu' & _ & _ & Hs).
  rewrite Hu in Hu'. injection Hu' as <- <-.
  destruct (backtrack_finds t (proj1 (proj2 Hsol)) fuel (mkCSP s1 false))
    as (res & Hres & Hok); [|done|done| |].
  - by apply (updateAllDomains_consistent s s1 (wf_input_board _ Hin)).
  - simpl. pose proof (count_empty_le s1). lia.
  - exists res. rewrite Hs. split_and!; [done..| |];
      apply (solve_sound_propagated s s1 Hin Hu fuel res); by rewrite ?Hs.
Qed.

(** * The first propagation *)

Lemma sublist_singleton_notin {A} (l : list A) v : sublist l [v] → v ∉ l → l = [].
Proof.
  intros Hsub Hv. destruct l as [|x l]; [done|]. exfalso.
  assert (x ∈ [v]) as Hx by (eapply elem_of_sublist; [|done]; by left).
  apply list_elem_of_singleton in Hx as ->. apply Hv. by left.
Qed.

Lemma iter_del1_notin v n l : v ∉ l → Nat.iter n (del1 v) l = l.
Proof.
  intros Hv. induction n as [|n IH]; simpl; [done|]. rewrite IH. by apply del1_notin.
Qed.

(** The second of two equal peers finds the domain of the first one
    empty, unless the propagation has stopped before. *)
Lemma updateAllDomains_second s r c r' c' :
  wf_input s → r < 9 → c < 9 → r' < 9 → c' < 9 → peer r c r' c' →
  value (cell s r c) ≠ 0%Z → value (cell s r' c') = value (cell s r c) →
  before r c r' c' →
  ∃ s', updateAllDomains s = Some (false, s').
Proof.
  intros Hin Hr Hc Hr' Hc' Hp Hv Heq Hord. pose proof (wf_input_board _ Hin) as Hwf.
  set (v := value (cell s r c)) in *.
  assert ((r, c) ≠ (r', c')) as Hne by (intros [= -> ->]; by apply peer_irrefl in Hp).
  destruct (updateAllDomains_inv
    (λ i j s1, ¬ before r' c' i j ∧
               (before r c i j → sublist (domain (cell s1 r c)) [v]))
    (λ _, True) s Hwf) as (b & s' & Hrun & _ & _ & Hb).
  - unfold before. split; lia.
  - intros i j s1 b s2 Hi Hj Hwf1 [_ Hfr1] [Hnb Hdom] Hud. destruct b; [|done].
    pose proof (wf_board_shape _ Hwf1) as Hs1.
    destruct (Hfr1 r c Hr Hc) as (_ & _ & Hvr), (Hfr1 r' c' Hr' Hc') as (_ & _ & Hvr').
    destruct (decide (value (cell s1 i j) = 0%Z)) as [Hz|Hnz].
    { rewrite updateDomains_zero in Hud by done. injection Hud as <-.
      assert (i ≠ r ∨ j ≠ c).
      { destruct (decide (i = r)) as [->|]; [right|by left].
        intros ->. unfold v in *. congruence. }
      assert (i ≠ r' ∨ j ≠ c').
      { destruct (decide (i = r')) as [->|]; [right|by left].
        intros ->. unfold v in *. congruence. }
      unfold before in *. split; [|intros ?; apply Hdom]; lia. }
    destruct (updateDomains_spec s1 i j Hs1 Hi Hj Hnz) as (b0 & s0 & Hud' & HT & HN).
    rewrite Hud in Hud'. injection Hud' as <- <-.
    destruct HT as ([_ Hpr] & Hsame & Hgone).
    assert (before r c i (S j) → sublist (domain (cell s2 r c)) [v]) as Hdom2.
    { intros Hb. destruct (decide ((r, c) = (i, j))) as [[= <- <-]|Hrc].
      - rewrite Hsame by (done || apply peer_irrefl). rewrite cell_upd by done.
        rewrite decide_True by done. simpl. by rewrite Hvr.
      - destruct (Hpr r c Hr Hc) as (_ & _ & _ & n & ->).
        rewrite cell_upd by done. rewrite (decide_False _ _ Hrc).
        etrans; [apply iter_del1_sublist|]. apply Hdom. unfold before in *.
        assert (r ≠ i ∨ c ≠ j) by (destruct (decide (r = i)); [right; congruence|by left]).
        lia. }
    split; [|done]. intros Hb.
    assert (i = r' ∧ j = c') as [-> ->] by (unfold before in *; lia).
    assert (sublist (domain (cell s1 r c)) [v]) as Hsub by (apply Hdom; done).
    assert (domain (cell s2 r c) = []) as Hempty.
    { apply (sublist_singleton_notin _ v); [apply Hdom2; unfold before in *; lia|].
      rewrite <- Heq, <- Hvr'. apply (Hgone r c Hr Hc (peer_sym _ _ _ _ Hp) eq_refl).
      rewrite cell_upd by done. rewrite (decide_False _ _ Hne).
      eapply sublist_NoDup; [apply NoDup_singleton|exact Hsub]. }
    by apply (HN r c Hr Hc (peer_sym _ _ _ _ Hp) I).
  - intros i s1 Hi [Hnb Hdom]. unfold before in *. split; [lia|]. intros ?. apply Hdom. lia.
  - destruct b; [|by exists s']. destruct Hb as [Hnb _]. exfalso. apply Hnb.
    unfold before. lia.
Qed.

(** What the first propagation leaves possible in an empty square, when
    it reports no empty domain: every digit that no peer holds. *)
Lemma updateAllDomains_keeps_free s s' b :
  wf_input s → updateAllDomains s = Some (b, s') →
  ∀ a c d, a < 9 → c < 9 → value (cell s a c) = 0%Z → d ∈ full_domain →
    (∀ a' c', a' < 9 → c' < 9 → peer a c a' c' → value (cell s a' c') ≠ d) →
    d ∈ domain (cell s' a c).
Proof.
  intros Hin Hrun. pose proof (wf_input_board _ Hin) as Hwf.
  set (J := λ s1 : Squares, ∀ a c d, a < 9 → c < 9 → value (cell s a c) = 0%Z →
              d ∈ full_domain →
              (∀ a' c', a' < 9 → c' < 9 → peer a c a' c' → value (cell s a' c') ≠ d) →
              d ∈ domain (cell s1 a c)).
  destruct (updateAllDomains_inv (λ _ _, J) J s Hwf) as (b0 & s0 & Hrun0 & _ & _ & Hb).
  - intros a c d Ha Hc _ Hd _. destruct Hin as [_ Hin]. rewrite all_cells_spec in Hin.
    by destruct (Hin a c Ha Hc) as (_ & _ & _ & ->).
  - intros i j s1 b1 s2 Hi Hj Hwf1 [_ Hfr1] HJ Hud.
    pose proof (wf_board_shape _ Hwf1) as Hs1.
    assert (J s2) as HJ2; [|by destruct b1].
    destruct (decide (value (cell s1 i j) = 0%Z)) as [Hz|Hnz].
    { rewrite updateDomains_zero in Hud by done. by injection Hud as <- <-. }
    destruct (updateDomains_spec s1 i j Hs1 Hi Hj Hnz) as (b0 & s0 & Hud' & HT & _).
    rewrite Hud in Hud'. injection Hud' as <- <-.
    destruct HT as ([_ Hpr] & Hsame & _).
    destruct (Hfr1 i j Hi Hj) as (_ & _ & Hvi).
    intros a c d Ha Hc H0 Hd Hfree.
    assert ((a, c) ≠ (i, j)) as Hne by (intros [= -> ->]; congruence).
    destruct (decide (peer i j a c)) as [Hp|Hnp].
    + destruct (Hpr a c Ha Hc) as (_ & _ & _ & n & ->).
      rewrite cell_upd by done. rewrite (decide_False _ _ Hne).
      apply elem_of_iter_del1_ne; [|by apply HJ].
      rewrite Hvi. intros ->. by apply (Hfree i j Hi Hj (peer_sym _ _ _ _ Hp)).
    + rewrite Hsame by done. rewrite cell_upd by done. rewrite (decide_False _ _ Hne).
      by apply HJ.
  - done.
  - rewrite Hrun in Hrun0. injection Hrun0 as <- <-. by destruct b.
Qed.

(** * The scans *)

Lemma at2_sq_at h b i j s h' : Heap.at2 b i j h = Some (s, h') → sq_at h b i j = Some s.
Proof.
  unfold Heap.at2, Heap.refs_at, Heap.get_refs, Heap.load, Heap.bind, sq_at.
  destruct (h !! b) as [[|rows| |]|]; try done. simpl.
  destruct (rows !! i) as [r|]; [|done]. simpl.
  destruct (h !! r) as [[|cells| |]|]; try done. simpl.
  destruct (cells !! j) as [s'|]; [|done]. by intros [= -> _].
Qed.

(** [getEmptySquare] on the heap hands out the Square object of the
    board itself, or makes a new one when it finds none. *)
Lemma getEmptySquare_run h b B q :
  Heap.read_board h b = Some B → getEmptySquare B = Some q →
  (∃ i j s, Heap.getEmptySquare b h = Some (s, h) ∧ sq_at h b i j = Some s ∧
            at2 B i j = Some q ∧ value q = 0%Z) ∨
  (q = no_square ∧
   Heap.getEmptySquare b h =
     Some (S (length h),
           h ++ [Heap.ONums []; Heap.OSquare (-1) (-1) (-1) (length h)])).
Proof.
  intros HB H. unfold getEmptySquare in H. cbv zeta in H. set (n := length B) in *.
  set (Rel := λ (_ : unit) (h' : list Heap.obj), h' = h).
  set (RelR := λ (x : Square) (y : Heap.loc) (h' : list Heap.obj),
                 h' = h ∧ ∃ i j, Heap.at2 b i j h = Some (y, h) ∧ at2 B i j = Some x ∧
                                 value x = 0%Z).
  assert (∀ (u : unit) h0, Rel u h0 → Heap.refs_length b h0 = Some (n, h0)) as Hbound.
  { intros u h0 ->. by apply read_board_length. }
  pstep H as fl with Hloop. unfold Heap.getEmptySquare.
  match goal with |- context [Heap.for_to ?bound ?bodyH] =>
    match type of Hloop with for_ _ ?bodyP _ = _ =>
      destruct (for_to_sim Rel RelR bodyP bodyH bound n) with (s := ()) (h := h) (fl := fl)
        as (fl' & h2 & Hrun & Hrel)
    end
  end.
  { done. }
  { intros i s0 h0 fl0 _ HR Hb.
    match goal with |- context [Heap.for_to ?bound ?bodyH] =>
      match type of Hb with for_ _ ?bodyP _ = _ =>
        apply (for_to_sim Rel RelR bodyP bodyH bound n) with (s := s0); [done| |done..]
      end
    end.
    clear dependent s0 h0 fl0. intros j s0 h0 fl0 _ -> Hb.
    pstep Hb as q0 with Hq.
    destruct (read_board_at2 _ _ _ _ _ _ HB Hq) as (s & d & Hat & Es & Ed).
    hstep Hat. hstep (run_sq_value _ _ _ _ _ _ Es).
    destruct (Z.eqb_spec (value q0) 0); injection Hb as <-; [|by exists (Next ()), h].
    hstep Hat. exists (Return s), h. split; [done|]. split; [done|]. by exists i, j. }
  { done. }
  { done. }
  destruct fl as [[]|x], fl' as [[]|y]; try done.
  - right. injection H as <-. split; [done|]. rewrite Hrel in Hrun.
    rewrite (bind_run _ _ _ _ _ Hrun). hstep (run_alloc (Heap.ONums []) h).
    rewrite run_alloc, length_app, <- (assoc_L (++)). simpl. by rewrite Nat.add_1_r.
  - left. destruct Hrel as (-> & i & j & Hat & Hq & H0). injection H as <-.
    exists i, j, y. split_and!; [by rewrite (bind_run _ _ _ _ _ Hrun)| |done..].
    by eapply at2_sq_at.
Qed.

Lemma getEmptySquare_full s : shape9 s → full s → getEmptySquare s = Some no_square.
Proof.
  intros Hs Hfull. unfold getEmptySquare. replace (length s) with 9 by (symmetry; apply Hs).
  pose proof (scan_spec (λ q, q) s Hs) as H. cbv beta zeta in H.
  destruct H as [[-> _]|(i & j & Hi & Hj & _ & Hv & _)]; [done|].
  by apply full_not_empty in Hv.
Qed.

(** X1. [isFull] returns [true] exactly when no square of a 9x9 board
    has the value 0.  On the heap it returns the same answer and leaves
    the heap as it is. *)
Theorem isFull_decides s :
  shape9 s →
  isFull s = Some (bool_decide (full s)) ∧
  ∀ h b, Heap.read_board h b = Some s →
         Heap.isFull b h = Some (bool_decide (full s), h).
Proof.
  intros Hs.
  assert (isFull s = Some (bool_decide (full s))) as H.
  { destruct (isFull_spec s Hs) as [[-> Hf]|[-> (i & j & Hi & Hj & H0)]].
    - by rewrite (bool_decide_eq_true_2 _ Hf).
    - by rewrite (bool_decide_eq_false_2 _ (not_full_intro s i j Hi Hj H0)). }
  split; [done|]. intros h b Hread. by apply (isFull_sim h b s).
Qed.

Lemma isFull_decides_witness :
  isFull (mkBoard open_grid) = Some (bool_decide (full (mkBoard open_grid))) ∧
  ∀ h b, Heap.read_board h b = Some (mkBoard open_grid) →
         Heap.isFull b h = Some (bool_decide (full (mkBoard open_grid)), h).
Proof.
  apply (isFull_decides (mkBoard open_grid)).
  apply (bool_decide_unpack _). vm_compute. reflexivity.
Defined.

(** X2. On a 9x9 board [getEmptySquare] returns the first square with the
    value 0 in the order of its two loops (row by row, left to right);
    when the board has no such square it returns the square
    [(-1, -1, -1, [])], which is no square of the board. *)
Theorem getEmptySquare_first s :
  shape9 s →
  (full s ∧ getEmptySquare s = Some no_square) ∨
  (∃ i j, i < 9 ∧ j < 9 ∧ getEmptySquare s = Some (cell s i j) ∧
          value (cell s i j) = 0%Z ∧
          ∀ a b, a < 9 → b < 9 → before a b i j → value (cell s a b) ≠ 0%Z).
Proof.
  intros Hs. unfold getEmptySquare. replace (length s) with 9 by (symmetry; apply Hs).
  pose proof (scan_spec (λ q, q) s Hs) as H. cbv beta zeta in H.
  destruct H as [[-> Hfull]|(i & j & Hi & Hj & -> & Hv & Hfirst)].
  - left. by split.
  - right. exists i, j. split_and!; try done.
Qed.

Lemma getEmptySquare_first_witness :
  (full (mkBoard open_grid) ∧ getEmptySquare (mkBoard open_grid) = Some no_square) ∨
  (∃ i j, i < 9 ∧ j < 9 ∧
          getEmptySquare (mkBoard open_grid) = Some (cell (mkBoard open_grid) i j) ∧
          value (cell (mkBoard open_grid) i j) = 0%Z ∧
          ∀ a b, a < 9 → b < 9 → before a b i j →
                 value (cell (mkBoard open_grid) a b) ≠ 0%Z).
Proof.
  apply (getEmptySquare_first (mkBoard open_grid)).
  apply (bool_decide_unpack _). vm_compute. reflexivity.
Defined.

(** X3. On the heap, [getEmptySquare] on a board in play that is not full
    returns the Square object the board itself holds at the first empty
    position (a reference, not a copy) and writes nothing; on a full
    board it allocates a new empty array and a new Square
    [(-1, -1, -1, [])] and returns that. *)
Theorem getEmptySquare_own_square h b B :
  Heap.read_board h b = Some B → wf_board B →
  (¬ full B →
     ∃ i j s, i < 9 ∧ j < 9 ∧ Heap.getEmptySquare b h = Some (s, h) ∧
       sq_at h b i j = Some s ∧ value (cell B i j) = 0%Z ∧
       ∀ a c, a < 9 → c < 9 → before a c i j → value (cell B a c) ≠ 0%Z) ∧
  (full B →
     Heap.getEmptySquare b h =
       Some (S (length h),
             h ++ [Heap.ONums []; Heap.OSquare (-1) (-1) (-1) (length h)])).
Proof.
  intros Hread Hwf. pose proof (wf_board_shape _ Hwf) as Hs. split.
  - intros Hnf.
    destruct (getEmptySquare_spec B Hs Hnf) as (i & j & Hi & Hj & Hget & H0 & Hfirst).
    destruct (getEmptySquare_run h b B _ Hread Hget)
      as [(i' & j' & s & Hrun & Hat & Hq & _)|[Hq _]].
    + exists i, j, s. split_and!; try done.
      assert (i' < 9 ∧ j' < 9) as [Hi' Hj'].
      { apply at2_inv in Hq as (R & HR & Hq). destruct Hs as [Hn Hrows].
        rewrite Forall_forall in Hrows.
        pose proof (Hrows R (list_elem_of_lookup_2 _ _ _ HR)).
        apply lookup_lt_Some in HR, Hq. lia. }
      rewrite shape9_at2 in Hq by done. injection Hq as Hq.
      destruct (wf_board_cell B i j Hwf Hi Hj) as (Hr & Hc & _).
      destruct (wf_board_cell B i' j' Hwf Hi' Hj') as (Hr' & Hc' & _).
      rewrite Hq in Hr', Hc'. by replace i with i' by lia; replace j with j' by lia.
    + destruct (wf_board_cell B i j Hwf Hi Hj) as (Hr & _). rewrite Hq in Hr.
      simpl in Hr. lia.
  - intros Hfull.
    pose proof (getEmptySquare_full B Hs Hfull) as Hget.
    by destruct (getEmptySquare_run h b B _ Hread Hget)
      as [(i' & j' & s & _ & _ & Hq & Hv)|[_ Hrun]].
Qed.

Lemma getEmptySquare_own_square_witness :
  ∃ b h, Heap.page_board open_grid [] = Some (b, h) ∧
    (¬ full (mkBoard open_grid) →
       ∃ i j s, i < 9 ∧ j < 9 ∧ Heap.getEmptySquare b h = Some (s, h) ∧
         sq_at h b i j = Some s ∧ value (cell (mkBoard open_grid) i j) = 0%Z ∧
         ∀ a c, a < 9 → c < 9 → before a c i j →
                value (cell (mkBoard open_grid) a c) ≠ 0%Z) ∧
    (full (mkBoard open_grid) →
       Heap.getEmptySquare b h =
         Some (S (length h),
               h ++ [Heap.ONums []; Heap.OSquare (-1) (-1) (-1) (length h)])).
Proof.
  eexists _, _. split; [vm_compute; reflexivity|].
  apply (getEmptySquare_own_square _ _ (mkBoard open_grid)).
  - vm_compute. reflexivity.
  - apply (bool_decide_unpack _). vm_compute. reflexivity.
Defined.

(** * copySquares on boards that are not square *)

Lemma copySquares_row (s : Squares) n i r :
  s !! i = Some r → n ≤ length r →
  mapM (λ j, q ← at2 s i j; Some (copySquare q)) (seq 0 n) = Some (take n r).
Proof.
  intros Hr Hn. apply mapM_Some_2, Forall2_same_length_lookup_2.
  { rewrite length_seq, length_take. lia. }
  intros j j' q [-> Hj]%lookup_seq Hq. change (0 + j) with j.
  rewrite lookup_take_lt in Hq by done.
  unfold at2. rewrite Hr. simpl. rewrite Hq. simpl. by rewrite copySquare_id.
Qed.

(** X4. [copySquares] runs both of its loops up to the number of rows.
    A board whose rows all have at least that many squares is copied
    with every row cut to that length (a square board comes back whole);
    a board with a shorter row makes it read a property of [undefined]:
    it throws. *)
Theorem copySquares_shape (s : Squares) :
  (Forall (λ r : list Square, length s ≤ length r) s →
     copySquares s = Some (take (length s) <$> s)) ∧
  (Exists (λ r : list Square, length r < length s) s → copySquares s = None).
Proof.
  unfold copySquares. cbv zeta. set (n := length s). split.
  - intros Hall. rewrite Forall_lookup in Hall.
    apply mapM_Some_2, Forall2_same_length_lookup_2.
    { by rewrite length_seq, length_fmap. }
    intros i i' R [-> Hi]%lookup_seq HR. change (0 + i) with i.
    rewrite list_lookup_fmap in HR.
    destruct (s !! i) as [r|] eqn:Hr; [|done]. injection HR as <-.
    apply (copySquares_row s n i r Hr). by apply (Hall i r).
  - intros Hex. apply Exists_exists in Hex as (r & Hr & Hlen).
    apply list_elem_of_lookup_1 in Hr as [i Hi].
    apply mapM_None_2, Exists_exists. exists i. split.
    { apply elem_of_seq. apply lookup_lt_Some in Hi. fold n in Hi. lia. }
    apply mapM_None_2, Exists_exists. exists (length r). split.
    { apply elem_of_seq. lia. }
    unfold at2. rewrite Hi. simpl. by rewrite lookup_ge_None_2.
Qed.

Lemma copySquares_shape_witness :
  copySquares wide_board = Some (take 2 <$> wide_board) ∧
  copySquares ragged_board = None.
Proof.
  split.
  - apply (proj1 (copySquares_shape wide_board)).
    apply (bool_decide_unpack _). vm_compute. reflexivity.
  - apply (proj2 (copySquares_shape ragged_board)).
    apply (bool_decide_unpack _). vm_compute. reflexivity.
Defined.

(** * One propagation *)

Lemma square_ext (q q' : Square) :
  row q = row q' → col q = col q' → value q = value q' → domain q = domain q' → q = q'.
Proof. destruct q, q'. simpl. by intros -> -> -> ->. Qed.

(** X5. [updateDomains] on a 9x9 board changes domains only: the board
    stays 9x9 and every square keeps its row, column and value.  A
    square that is neither [(r,c)] nor one of its peers is untouched.
    The domain of a peer loses occurrences of the value of [(r,c)] and
    nothing else, and stays in the same order. *)
Theorem updateDomains_frame s r c b s' :
  shape9 s → r < 9 → c < 9 → updateDomains s r c = Some (b, s') →
  shape9 s' ∧
  ∀ a c', a < 9 → c' < 9 →
    row (cell s' a c') = row (cell s a c') ∧
    col (cell s' a c') = col (cell s a c') ∧
    value (cell s' a c') = value (cell s a c') ∧
    (¬ peer r c a c' → (a ≠ r ∨ c' ≠ c) → cell s' a c' = cell s a c') ∧
    (peer r c a c' →
       sublist (domain (cell s' a c')) (domain (cell s a c')) ∧
       ∀ d, d ≠ value (cell s r c) →
            (d ∈ domain (cell s' a c') ↔ d ∈ domain (cell s a c'))).
Proof.
  intros Hs Hr Hc Hrun.
  destruct (decide (value (cell s r c) = 0%Z)) as [Hz|Hnz].
  { rewrite updateDomains_zero in Hrun by done. injection Hrun as <- <-.
    split; [done|]. intros a c' Ha Hc'. split_and!; try done. }
  destruct (updateDomains_spec s r c Hs Hr Hc Hnz) as (b0 & s0 & Hrun0 & HT & _).
  rewrite Hrun in Hrun0. injection Hrun0 as <- <-.
  destruct HT as ([Hs' Hpr] & Hsame & _). split; [done|].
  intros a c' Ha Hc'. destruct (Hpr a c' Ha Hc') as (Hrow & Hcol & Hval & n & Hdom).
  rewrite cell_upd in Hrow, Hcol, Hval, Hdom by done.
  split_and!.
  - rewrite Hrow. by case_decide as E; [injection E as -> ->|].
  - rewrite Hcol. by case_decide as E; [injection E as -> ->|].
  - rewrite Hval. by case_decide as E; [injection E as -> ->|].
  - intros Hnp Hne. rewrite Hsame by done. rewrite cell_upd by done.
    rewrite decide_False; [done|]. intros [= -> ->]. lia.
  - intros Hp.
    assert ((a, c') ≠ (r, c)) as Hne by (intros [= -> ->]; by apply peer_irrefl in Hp).
    rewrite (decide_False _ _ Hne) in Hdom. rewrite Hdom. split.
    + apply iter_del1_sublist.
    + intros d Hd. by apply elem_of_iter_del1_ne.
Qed.

Lemma updateDomains_frame_witness :
  ∃ b s', updateDomains (mkBoard dup_grid) 0 0 = Some (b, s') ∧
  shape9 s' ∧
  ∀ a c', a < 9 → c' < 9 →
    row (cell s' a c') = row (cell (mkBoard dup_grid) a c') ∧
    col (cell s' a c') = col (cell (mkBoard dup_grid) a c') ∧
    value (cell s' a c') = value (cell (mkBoard dup_grid) a c') ∧
    (¬ peer 0 0 a c' → (a ≠ 0 ∨ c' ≠ 0) → cell s' a c' = cell (mkBoard dup_grid) a c') ∧
    (peer 0 0 a c' →
       sublist (domain (cell s' a c')) (domain (cell (mkBoard dup_grid) a c')) ∧
       ∀ d, d ≠ value (cell (mkBoard dup_grid) 0 0) →
            (d ∈ domain (cell s' a c') ↔ d ∈ domain (cell (mkBoard dup_grid) a c'))).
Proof.
  eexists _, _. split; [vm_compute; reflexivity|].
  apply (updateDomains_frame (mkBoard dup_grid) 0 0 true).
  - apply (bool_decide_unpack _). vm_compute. reflexivity.
  - lia.
  - lia.
  - vm_compute. reflexivity.
Defined.

(** X6. A propagation that succeeded has nothing left to do: on a 9x9
    board whose domains hold no digit twice, when [updateDomains]
    returns [true], calling it again for the same square returns [true]
    and leaves the board as it is. *)
Theorem updateDomains_idempotent s r c s' :
  shape9 s → nodup_domains s → r < 9 → c < 9 →
  updateDomains s r c = Some (true, s') →
  updateDomains s' r c = Some (true, s').
Proof.
  intros Hs Hnd Hr Hc Hrun.
  destruct (decide (value (cell s r c) = 0%Z)) as [Hz|Hnz].
  { pose proof Hrun as Hrun'. rewrite updateDomains_zero in Hrun' by done.
    injection Hrun' as <-. done. }
  destruct (updateDomains_spec s r c Hs Hr Hc Hnz) as (b0 & s0 & Hrun0 & HT & HN).
  rewrite Hrun in Hrun0. injection Hrun0 as <- <-.
  destruct HT as ([Hs' Hpr] & Hsame & Hgone).
  set (v := value (cell s r c)) in *.
  assert (cell s' r c = with_domain [v] (cell s r c)) as Hself.
  { rewrite Hsame by (done || apply peer_irrefl). rewrite cell_upd by done.
    by rewrite decide_True. }
  assert (value (cell s' r c) = v) as Hv' by by rewrite Hself.
  assert (∀ a b, a < 9 → b < 9 → peer r c a b → v ∉ domain (cell s' a b)) as Hout.
  { intros a b Ha Hb Hp. apply Hgone; [done..|].
    rewrite cell_upd by done. rewrite decide_False.
    - unfold nodup_domains in Hnd. rewrite all_cells_spec in Hnd. by apply Hnd.
    - intros [= -> ->]. by apply peer_irrefl in Hp. }
  destruct (updateDomains_spec s' r c Hs' Hr Hc) as (b2 & s2 & Hrun2 & HT2 & HN2).
  { rewrite Hv'. done. }
  rewrite Hv' in HT2.
  assert (upd s' r c (with_domain [v]) = s') as Hid.
  { apply upd_id; [done..|]. rewrite Hself. done. }
  rewrite Hid in HT2. destruct HT2 as ([Hs2 Hpr2] & Hsame2 & _).
  assert (s2 = s') as ->.
  { apply board_ext; [done..|]. intros a b Ha Hb.
    destruct (decide (peer r c a b)) as [Hp|Hnp]; [|by apply Hsame2].
    destruct (Hpr2 a b Ha Hb) as (Hrow & Hcol & Hval & n & Hdom).
    apply square_ext; [done..|]. rewrite Hdom. by apply iter_del1_notin, Hout. }
  rewrite Hrun2. destruct b2; [done|].
  destruct HN2 as (a & b & Ha & Hb & Hp & He). by destruct (HN a b Ha Hb Hp I).
Qed.

Lemma updateDomains_idempotent_witness :
  ∃ s', updateDomains (mkBoard dup_grid) 0 0 = Some (true, s') ∧
        updateDomains s' 0 0 = Some (true, s').
Proof.
  eexists. split; [vm_compute; reflexivity|].
  apply (updateDomains_idempotent (mkBoard dup_grid) 0 0).
  - apply (bool_decide_unpack _). vm_compute. reflexivity.
  - apply (bool_decide_unpack _). vm_compute. reflexivity.
  - lia.
  - lia.
  - vm_compute. reflexivity.
Defined.

(** * Duplicates, dead ends and full boards *)

Lemma before_total r c r' c' : r ≠ r' ∨ c ≠ c' → before r c r' c' ∨ before r' c' r c.
Proof. unfold before. lia. Qed.

Lemma digit_full_domain d : (1 ≤ d ≤ 9)%Z → d ∈ full_domain.
Proof.
  intros Hd. assert (d = 1 ∨ d = 2 ∨ d = 3 ∨ d = 4 ∨ d = 5 ∨ d = 6 ∨ d = 7 ∨ d = 8 ∨ d = 9)%Z
    as Hc by lia.
  unfold full_domain. rewrite !elem_of_cons. lia.
Qed.

Lemma solve_failure_unsolvable s fuel res :
  wf_input s → solve fuel s = Some res → failure res = true → ¬ ∃ t, solution_of s t.
Proof.
  intros Hin Hrun Hf [t Ht].
  destruct (solve_finds s t 82 Hin Ht) as (res' & Hrun' & Hok & _); [lia|].
  destruct (solve_unfold fuel s Hin) as (b & s1 & Hu & _ & _ & Hs).
  destruct (solve_unfold 82 s Hin) as (b' & s1' & Hu' & _ & _ & Hs').
  rewrite Hu in Hu'. injection Hu' as <- <-.
  rewrite Hs in Hrun. rewrite Hs' in Hrun'.
  pose proof (backtrack_mono_le fuel (fuel + 82) _ _ ltac:(lia) Hrun) as H1.
  pose proof (backtrack_mono_le 82 (fuel + 82) _ _ ltac:(lia) Hrun') as H2.
  rewrite H1 in H2. injection H2 as <-. congruence.
Qed.

(** X7. [updateAllDomains] finds every duplicate: on a board of the page
    where two peers hold the same digit, whichever comes first, its
    verdict is [false]. *)
Theorem updateAllDomains_detects_duplicate s r c r' c' :
  wf_input s → duplicate_at s r c r' c' →
  ∃ s', updateAllDomains s = Some (false, s').
Proof.
  intros Hin (Hr & Hc & Hr' & Hc' & Hp & Hv & Heq).
  destruct (before_total r c r' c' (proj1 Hp)) as [Hb|Hb].
  - by apply (updateAllDomains_second s r c r' c').
  - apply (updateAllDomains_second s r' c' r c); try done.
    + by apply peer_sym.
    + by rewrite <- Heq.
Qed.

Lemma updateAllDomains_detects_duplicate_witness :
  duplicate_at (mkBoard dup_grid) 0 1 0 0 ∧
  ∃ s', updateAllDomains (mkBoard dup_grid) = Some (false, s').
Proof.
  assert (duplicate_at (mkBoard dup_grid) 0 1 0 0) as Hd.
  { apply (bool_decide_unpack _). vm_compute. reflexivity. }
  split; [exact Hd|].
  apply (updateAllDomains_detects_duplicate (mkBoard dup_grid) 0 1 0 0); [|exact Hd].
  apply (bool_decide_unpack _). vm_compute. reflexivity.
Defined.

(** X8. What [updateAllDomains] leaves when its verdict is [true], on a
    board of the page: the values are as before, the domain of a filled
    square is its value alone, and the domain of an empty square holds
    exactly the digits 1..9 that none of its peers has as value. *)
Theorem updateAllDomains_domains s s' :
  wf_input s → updateAllDomains s = Some (true, s') →
  ∀ a c, a < 9 → c < 9 →
    value (cell s' a c) = value (cell s a c) ∧
    (value (cell s a c) ≠ 0%Z → domain (cell s' a c) = [value (cell s a c)]) ∧
    (value (cell s a c) = 0%Z →
     ∀ d, d ∈ domain (cell s' a c) ↔
          d ∈ full_domain ∧
          ∀ a' c', a' < 9 → c' < 9 → peer a c a' c' → value (cell s a' c') ≠ d).
Proof.
  intros Hin Hrun a c Ha Hc.
  pose proof (wf_input_board s Hin) as Hwf.
  destruct (updateAllDomains_wf s Hwf) as (b & s1 & Hrun1 & Hwf' & Hfr).
  rewrite Hrun in Hrun1. injection Hrun1 as <- <-.
  destruct (updateAllDomains_consistent s s' Hwf Hrun) as [_ Hset].
  destruct Hfr as [_ Hfr].
  destruct (Hfr a c Ha Hc) as (_ & _ & Hv). split_and!; [done| |].
  - intros Hne. rewrite <- Hv in *. by destruct (Hset a c Ha Hc Hne).
  - intros H0 d. split.
    + intros Hd.
      destruct (wf_board_cell s' a c Hwf' Ha Hc) as (_ & _ & _ & _ & Hdig).
      rewrite Forall_forall in Hdig. pose proof (Hdig d Hd) as Hd19.
      split; [by apply digit_full_domain|].
      intros a' c' Ha' Hc' Hp Heq.
      destruct (Hfr a' c' Ha' Hc') as (_ & _ & Hv').
      assert (value (cell s' a' c') ≠ 0%Z) as Hne by lia.
      destruct (Hset a' c' Ha' Hc' Hne) as [_ Hnot].
      apply (Hnot a c Ha Hc (peer_sym _ _ _ _ Hp)). by rewrite Hv', Heq.
    + intros [Hd Hfree]. by eapply updateAllDomains_keeps_free.
Qed.

Lemma updateAllDomains_domains_witness :
  ∃ s', updateAllDomains (mkBoard open_grid) = Some (true, s') ∧
    value (cell s' 0 2) = value (cell (mkBoard open_grid) 0 2) ∧
    (value (cell (mkBoard open_grid) 0 2) ≠ 0%Z →
     domain (cell s' 0 2) = [value (cell (mkBoard open_grid) 0 2)]) ∧
    (value (cell (mkBoard open_grid) 0 2) = 0%Z →
     ∀ d, d ∈ domain (cell s' 0 2) ↔
          d ∈ full_domain ∧
          ∀ a' c', a' < 9 → c' < 9 → peer 0 2 a' c' →
                   value (cell (mkBoard open_grid) a' c') ≠ d).
Proof.
  eexists. split; [vm_compute; reflexivity|].
  apply (updateAllDomains_domains (mkBoard open_grid)); [|vm_compute; reflexivity|lia|lia].
  apply (bool_decide_unpack _). vm_compute. reflexivity.
Defined.

(** X9. The verdict [false] of [updateAllDomains] on a board of the page
    is never wrong: such a board has no solution. *)
Theorem updateAllDomains_false_unsolvable s s' :
  wf_input s → updateAllDomains s = Some (false, s') → ¬ ∃ t, solution_of s t.
Proof.
  intros Hin Hrun [t Ht].
  destruct (updateAllDomains_keeps_solution s t Hin Ht) as (s1 & Hrun1 & _).
  congruence.
Qed.

Lemma updateAllDomains_false_unsolvable_witness :
  no_duplicate (mkBoard stuck_grid) ∧
  (∃ s', updateAllDomains (mkBoard stuck_grid) = Some (false, s')) ∧
  ¬ ∃ t, solution_of (mkBoard stuck_grid) t.
Proof.
  split; [apply (bool_decide_unpack _); vm_compute; reflexivity|].
  split; [eexists; vm_compute; reflexivity|].
  eapply (updateAllDomains_false_unsolvable (mkBoard stuck_grid)).
  - apply (bool_decide_unpack _). vm_compute. reflexivity.
  - vm_compute. reflexivity.
Defined.

(** X11. [solve] is complete on the boards of the page.  If the grid has
    a solution, [solve] returns with [failure = false] and a solved board
    that keeps the givens; and whenever [solve] returns with
    [failure = true], the grid has no solution. *)
Theorem solve_complete s :
  wf_input s →
  (∀ t, solution_of s t → ∀ fuel, 81 < fuel →
     ∃ res, solve fuel s = Some res ∧ failure res = false ∧
            solved (squares res) ∧ keeps_givens s (squares res)) ∧
  (∀ fuel res, solve fuel s = Some res → failure res = true →
     ¬ ∃ t, solution_of s t).
Proof.
  intros Hin. split.
  - intros t Ht fuel Hfuel. by apply (solve_finds s t).
  - intros fuel res. by apply solve_failure_unsolvable.
Qed.

Lemma solve_complete_witness :
  (∃ res, solve 82 (mkBoard open_grid) = Some res ∧ failure res = false ∧
          solved (squares res) ∧ keeps_givens (mkBoard open_grid) (squares res)) ∧
  (∃ res, solve 82 (mkBoard stuck_grid) = Some res ∧ failure res = true) ∧
  ¬ ∃ t, solution_of (mkBoard stuck_grid) t.
Proof.
  split; [|split].
  - apply (proj1 (solve_complete (mkBoard open_grid)
             ltac:(apply (bool_decide_unpack _); vm_compute; reflexivity))
             (mkBoard solved_grid)); [|lia].
    apply (bool_decide_unpack _). vm_compute. reflexivity.
  - eexists. split; vm_compute; reflexivity.
  - eapply (proj2 (solve_complete (mkBoard stuck_grid)
             ltac:(apply (bool_decide_unpack _); vm_compute; reflexivity)) 82).
    + vm_compute. reflexivity.
    + reflexivity.
Defined.

(** X12. On a full board [backtrack] returns the very SudokuCSP it was
    given, not a copy, and writes nothing, whatever the failure flag and
    the values are. *)
Theorem backtrack_full_returns_argument fuel sudoku h b f B :
  h !! sudoku = Some (Heap.OCSP b f) → Heap.read_board h b = Some B →
  shape9 B → full B →
  Heap.backtrack (S fuel) sudoku h = Some (sudoku, h).
Proof.
  intros Hs Hread Hshape Hfull.
  assert (isFull B = Some true) as Hf.
  { destruct (isFull_spec B Hshape) as [[? _]|[_ (i & j & Hi & Hj & H0)]]; [done|].
    by destruct (full_not_empty B i j Hfull Hi Hj). }
  cbn [Heap.backtrack]. unfold Heap.bind at 1.
  rewrite (run_csp_squares h sudoku b f Hs).
  unfold Heap.bind at 1. by rewrite (isFull_sim h b B true Hread Hf).
Qed.

Lemma backtrack_full_returns_argument_witness :
  ∃ sudoku h, full_dup_heap = Some (sudoku, h) ∧
    Heap.backtrack 1 sudoku h = Some (sudoku, h).
Proof.
  eexists _, _. split; [vm_compute; reflexivity|].
  eapply (backtrack_full_returns_argument 0 _ _ _ true (mkBoard full_dup_grid)).
  - vm_compute. reflexivity.
  - vm_compute. reflexivity.
  - apply (bool_decide_unpack _). vm_compute. reflexivity.
  - apply (bool_decide_unpack _). vm_compute. reflexivity.
Defined.

(** * The board of the page *)

Lemma square_locs_prefix h h' s :
  h `prefix_of` h' → Forall (λ l, l < length h) (Heap.square_locs h s) →
  Heap.square_locs h' s = Heap.square_locs h s.
Proof. intros Hpre Hlt. by apply agree_square, prefix_agree. Qed.

Lemma row_locs_prefix h h' r :
  h `prefix_of` h' → Forall (λ l, l < length h) (Heap.row_locs h r) →
  Heap.row_locs h' r = Heap.row_locs h r.
Proof. intros Hpre Hlt. by apply agree_row, prefix_agree. Qed.

Lemma bind_locs_prefix (locs : list Heap.obj → nat → list nat) h h' xs :
  (∀ x, Forall (λ l, l < length h) (locs h x) → locs h' x = locs h x) →
  Forall (λ l, l < length h) (xs ≫= locs h) →
  xs ≫= locs h' = xs ≫= locs h.
Proof.
  intros Hloc Hlt. apply bind_ext_in. intros x Hx. apply Hloc.
  rewrite Forall_forall in Hlt. apply Forall_forall. intros l Hl. apply Hlt.
  apply list_elem_of_bind. by exists x.
Qed.

(** The squares of a row of the page and their domain arrays are new
    and pairwise distinct. *)
Lemma page_row_locs i vs : ∀ j h,
  ∃ ss h', Heap.page_row i j vs h = Some (ss, h') ∧ h `prefix_of` h' ∧
    Forall (λ l, length h ≤ l < length h') (ss ≫= Heap.square_locs h') ∧
    NoDup (ss ≫= Heap.square_locs h').
Proof.
  induction vs as [|v vs IH]; intros j h; cbn [Heap.page_row].
  { exists [], h. split_and!; [done..|constructor|constructor]. }
  hstep (page_square_run i j v h).
  set (h2 := h ++ [Heap.ONums full_domain;
                   Heap.OSquare (Z.of_nat i) (Z.of_nat j) v (length h)]).
  destruct (IH (S j) h2) as (ss & h' & Hrun & Hpre & Hin & Hnd).
  hstep Hrun. exists (S (length h) :: ss), h'.
  assert (length h2 = S (S (length h))) as Hlen2.
  { unfold h2. rewrite length_app. simpl. lia. }
  pose proof (prefix_length _ _ Hpre) as Hle.
  assert (Heap.square_locs h' (S (length h)) = [S (length h); length h]) as Hsq.
  { unfold Heap.square_locs.
    by rewrite (prefix_lookup_Some _ _ _ _ (lookup_two_1 h _ _) Hpre). }
  rewrite bind_cons, Hsq. rewrite Forall_forall in Hin.
  split_and!; [done|etrans; [|done]; by apply prefix_app_r| |].
  - apply Forall_app. split.
    + repeat constructor; lia.
    + apply Forall_forall. intros l Hl. specialize (Hin l Hl). lia.
  - cbn [app]. apply NoDup_cons. split.
    + intros [Heq|Hl]%elem_of_cons; [lia|]. specialize (Hin _ Hl). lia.
    + apply NoDup_cons. split; [|done]. intros Hl. specialize (Hin _ Hl). lia.
Qed.

Lemma page_rows_locs g : ∀ i h,
  ∃ rs h', Heap.page_rows i g h = Some (rs, h') ∧ h `prefix_of` h' ∧
    Forall (λ l, length h ≤ l < length h') (rs ≫= Heap.row_locs h') ∧
    NoDup (rs ≫= Heap.row_locs h').
Proof.
  induction g as [|vs g IH]; intros i h; cbn [Heap.page_rows].
  { exists [], h. split_and!; [done..|constructor|constructor]. }
  destruct (page_row_locs i vs 0 h) as (ss & h1 & Hrun1 & Hpre1 & Hin1 & Hnd1).
  hstep Hrun1. hstep (run_alloc (Heap.ORefs ss) h1).
  set (h2 := h1 ++ [Heap.ORefs ss]).
  destruct (IH (S i) h2) as (rs & h' & Hrun & Hpre & Hin & Hnd).
  hstep Hrun. exists (length h1 :: rs), h'.
  assert (length h2 = S (length h1)) as Hlen2.
  { unfold h2. rewrite length_app. simpl. lia. }
  pose proof (prefix_length _ _ Hpre1) as Hle1.
  pose proof (prefix_length _ _ Hpre) as Hle.
  assert (h1 `prefix_of` h') as Hpre1'.
  { etrans; [|done]. by apply prefix_app_r. }
  assert (Heap.row_locs h' (length h1) = length h1 :: (ss ≫= Heap.square_locs h1)) as Hrow.
  { unfold Heap.row_locs.
    assert (h2 !! length h1 = Some (Heap.ORefs ss)) as E.
    { unfold h2. rewrite lookup_app_r by done. by rewrite Nat.sub_diag. }
    rewrite (prefix_lookup_Some _ _ _ _ E Hpre). f_equal.
    apply (bind_locs_prefix Heap.square_locs h1 h').
    - intros s. by apply square_locs_prefix.
    - eapply Forall_impl; [exact Hin1|]. simpl. lia. }
  rewrite bind_cons, Hrow. rewrite Forall_forall in Hin, Hin1.
  split_and!; [done|by etrans| |].
  - apply Forall_app. split.
    + apply Forall_cons. split; [lia|]. apply Forall_forall. intros l Hl.
      specialize (Hin1 l Hl). lia.
    + apply Forall_forall. intros l Hl. specialize (Hin l Hl). lia.
  - apply NoDup_app. split_and!.
    + apply NoDup_cons. split; [|done]. intros Hl. specialize (Hin1 _ Hl). lia.
    + intros l [->|Hl]%elem_of_cons Hl'; specialize (Hin _ Hl'); [lia|].
      specialize (Hin1 _ Hl). lia.
    + done.
Qed.

Lemma page_board_locs g h :
  ∃ b h', Heap.page_board g h = Some (b, h') ∧ h `prefix_of` h' ∧
    Forall (λ l, length h ≤ l < length h') (Heap.footprint h' b) ∧
    NoDup (Heap.footprint h' b).
Proof.
  destruct (page_rows_locs g 0 h) as (rs & h1 & Hrun & Hpre & Hin & Hnd).
  unfold Heap.page_board. hstep Hrun.
  exists (length h1), (h1 ++ [Heap.ORefs rs]).
  pose proof (prefix_length _ _ Hpre) as Hle.
  assert (Heap.footprint (h1 ++ [Heap.ORefs rs]) (length h1) =
            length h1 :: (rs ≫= Heap.row_locs h1)) as Hfp.
  { unfold Heap.footprint. rewrite lookup_app_r by done. rewrite Nat.sub_diag. simpl.
    f_equal. apply (bind_locs_prefix Heap.row_locs h1).
    - intros r. apply row_locs_prefix. by apply prefix_app_r.
    - eapply Forall_impl; [exact Hin|]. simpl. lia. }
  rewrite Hfp, length_app. simpl. rewrite Forall_forall in Hin.
  split_and!; [apply run_alloc|etrans; [done|]; by apply prefix_app_r| |].
  - apply Forall_cons. split; [lia|]. apply Forall_forall. intros l Hl.
    specialize (Hin l Hl). lia.
  - apply NoDup_cons. split; [|done]. intros Hl. specialize (Hin _ Hl). lia.
Qed.

(** X13. The board the page builds: for every grid [g] of the form it
    stands for [mkBoard g] (each square at its position, with the domain
    1..9 in order), it is made of objects that did not exist before, and
    no row, Square or domain array is shared between two places of the
    board.  For a 9x9 grid of digits it is a board as [solve] expects. *)
Theorem page_board_separate g h :
  ∃ b h', Heap.page_board g h = Some (b, h') ∧
    h `prefix_of` h' ∧
    Heap.read_board h' b = Some (mkBoard g) ∧
    Forall (λ l, length h ≤ l < length h') (Heap.footprint h' b) ∧
    NoDup (Heap.footprint h' b) ∧
    (wf_grid g → wf_input (mkBoard g)).
Proof.
  destruct (page_board_run g h) as (b & h' & Hrun & Hpre & Hread).
  destruct (page_board_locs g h) as (b2 & h2 & Hrun2 & _ & Hin & Hnd).
  rewrite Hrun in Hrun2. injection Hrun2 as <- <-.
  exists b, h'. split_and!; [done..|]. apply wf_input_mkBoard.
Qed.

(** * The click on Solve *)

Lemma grid_ext {A} (s s' : list (list A)) n :
  length s = n → length s' = n →
  Forall (λ r, length r = n) s → Forall (λ r, length r = n) s' →
  (∀ i j, i < n → j < n → s !! i ≫= (.!! j) = s' !! i ≫= (.!! j)) → s = s'.
Proof.
  intros Hl Hl' Hr Hr' Heq. apply list_eq. intros i.
  destruct (decide (i < n)) as [Hi|Hi].
  - destruct (lookup_lt_is_Some_2 s i) as [r Er]; [lia|].
    destruct (lookup_lt_is_Some_2 s' i) as [r' Er']; [lia|].
    rewrite Er, Er'. f_equal. rewrite Forall_lookup in Hr, Hr'.
    pose proof (Hr _ _ Er). pose proof (Hr' _ _ Er').
    apply list_eq. intros j. destruct (decide (j < n)) as [Hj|Hj].
    + specialize (Heq i j Hi Hj). by rewrite Er, Er' in Heq.
    + by rewrite !lookup_ge_None_2 by lia.
  - by rewrite !lookup_ge_None_2 by lia.
Qed.

(** *** Writing a value keeps the places of a board *)

Lemma square_locs_set_value h s r c v d v' x :
  h !! s = Some (Heap.OSquare r c v d) →
  Heap.square_locs (<[s := Heap.OSquare r c v' d]> h) x = Heap.square_locs h x.
Proof.
  intros E. unfold Heap.square_locs. destruct (decide (x = s)) as [->|Hne].
  - rewrite list_lookup_insert_eq by (by eapply lookup_lt_Some). by rewrite E.
  - by rewrite list_lookup_insert_ne.
Qed.

Lemma row_locs_set_value h s r c v d v' x :
  h !! s = Some (Heap.OSquare r c v d) →
  Heap.row_locs (<[s := Heap.OSquare r c v' d]> h) x = Heap.row_locs h x.
Proof.
  intros E. unfold Heap.row_locs. destruct (decide (x = s)) as [->|Hne].
  - rewrite list_lookup_insert_eq by (by eapply lookup_lt_Some). by rewrite E.
  - rewrite list_lookup_insert_ne by done.
    destruct (h !! x) as [[|cells| |]|]; try done. f_equal.
    apply bind_ext_in. intros y _. by eapply square_locs_set_value.
Qed.

Lemma footprint_set_value h s r c v d v' x :
  h !! s = Some (Heap.OSquare r c v d) →
  Heap.footprint (<[s := Heap.OSquare r c v' d]> h) x = Heap.footprint h x.
Proof.
  intros E. unfold Heap.footprint. destruct (decide (x = s)) as [->|Hne].
  - rewrite list_lookup_insert_eq by (by eapply lookup_lt_Some). by rewrite E.
  - rewrite list_lookup_insert_ne by done.
    destruct (h !! x) as [[|rows| |]|]; try done. f_equal.
    apply bind_ext_in. intros y _. by eapply row_locs_set_value.
Qed.

Lemma with_value_twice v w q : with_value v (with_value w q) = with_value v q.
Proof. done. Qed.

Lemma number_lookup f i j :
  length f = 9 → Forall (λ r : list Z, length r = 9) f → i < 9 → j < 9 →
  f !! i ≫= (.!! j) = Some (number f i j).
Proof.
  intros Hl Hr Hi Hj. unfold number.
  destruct (lookup_lt_is_Some_2 f i) as [r Er]; [lia|]. rewrite Er. simpl.
  rewrite Forall_lookup in Hr. specialize (Hr _ _ Er).
  destruct (lookup_lt_is_Some_2 r j) as [v Ev]; [lia|]. by rewrite Ev.
Qed.

(** *** The squares take the numbers of the form *)

Lemma set_row_run f b i :
  length f = 9 → Forall (λ r : list Z, length r = 9) f → i < 9 →
  ∀ js h B, Forall (λ j, j < 9) js → is_board 9 h b B →
  ∃ h' B',
    Heap.for_in js (λ j,
      Heap.bind (Page.field f i j) (λ value,
        Heap.bind (Heap.at2 b i j) (λ s,
          Heap.bind (Heap.set_sq_value s value) (λ _,
            Heap.ret (Next (St := unit) (R := unit) ()))))) h = Some (Next (), h') ∧
    is_board 9 h' b B' ∧ length h' = length h ∧
    (∀ x, Heap.footprint h' x = Heap.footprint h x) ∧
    ∀ a c, a < 9 → c < 9 →
      cell B' a c = if decide (a = i ∧ c ∈ js) then with_value (number f a c) (cell B a c)
                    else cell B a c.
Proof.
  intros Hl Hr Hi. induction js as [|j js IH]; intros h B Hjs HB.
  { exists h, B. rewrite for_in_nil. split_and!; [done..|]. intros a c _ _.
    rewrite decide_False; [done|]. intros [_ H]. by apply not_elem_of_nil in H. }
  apply Forall_cons in Hjs as [Hj Hjs].
  pose proof (proj1 HB) as Hshape.
  pose proof (shape9_at2 B i j Hshape Hi Hj) as Hq.
  destruct (is_board_at2 _ _ _ _ _ _ _ HB Hq) as (s & d & Hat & Hs & Es & Ed).
  assert (set_value B i j (number f i j) = Some (upd B i j (with_value (number f i j)))) as Hset.
  { unfold set_value. by rewrite Hq. }
  destruct (set_value_sim 9 h b B i j _ _ HB Hset) as (s' & h1 & Hat' & Hrun1 & HB1).
  rewrite Hat in Hat'. injection Hat' as <-.
  pose proof (run_set_sq_value h s _ _ _ _ (number f i j) Es) as Hrun1'.
  rewrite Hrun1 in Hrun1'. injection Hrun1' as ->.
  destruct (IH _ _ Hjs HB1) as (h' & B' & Hrun & HB' & Hlen & Hfp & Hcells).
  exists h', B'. rewrite for_in_cons. cbv beta.
  assert (Page.field f i j h = Some (number f i j, h)) as Hfield.
  { unfold Page.field. by rewrite (number_lookup f i j Hl Hr Hi Hj). }
  rewrite (bind_run _ _ _ (Next ()) (<[s:=Heap.OSquare (row (cell B i j)) (col (cell B i j))
                                        (number f i j) d]> h)).
  2:{ hstep Hfield. hstep Hat. by hstep Hrun1. }
  split_and!; [done|done| | |].
  - by rewrite Hlen, length_insert.
  - intros x. rewrite Hfp. by eapply footprint_set_value.
  - intros a c Ha Hc. rewrite (Hcells a c Ha Hc), !(cell_upd B i j _ _ _ Hshape Hi Hj).
    destruct (decide ((a, c) = (i, j))) as [[= -> ->]|Hne].
    + rewrite (decide_True (P := i = i ∧ j ∈ j :: js)) by (split; [done|by left]).
      by destruct (decide (i = i ∧ j ∈ js)).
    + destruct (decide (a = i ∧ c ∈ js)) as [[-> Hin]|Hn].
      * by rewrite decide_True by (split; [done|by right]).
      * rewrite decide_False; [done|]. intros [-> [->|Hin]%elem_of_cons]; [done|].
        by apply Hn.
Qed.

Lemma set_form_run f b :
  length f = 9 → Forall (λ r : list Z, length r = 9) f →
  ∀ ixs h B, Forall (λ i, i < 9) ixs → is_board 9 h b B →
  ∃ h' B',
    Heap.for_in ixs (λ i, Heap.for_in (seq 0 9) (λ j,
      Heap.bind (Page.field f i j) (λ value,
        Heap.bind (Heap.at2 b i j) (λ s,
          Heap.bind (Heap.set_sq_value s value) (λ _,
            Heap.ret (Next (St := unit) (R := unit) ())))))) h = Some (Next (), h') ∧
    is_board 9 h' b B' ∧ length h' = length h ∧
    (∀ x, Heap.footprint h' x = Heap.footprint h x) ∧
    ∀ a c, a < 9 → c < 9 →
      cell B' a c = if decide (a ∈ ixs) then with_value (number f a c) (cell B a c)
                    else cell B a c.
Proof.
  intros Hl Hr. induction ixs as [|i ixs IH]; intros h B Hixs HB.
  { exists h, B. rewrite for_in_nil. split_and!; [done..|]. intros a c _ _.
    rewrite decide_False; [done|]. by intros H%not_elem_of_nil. }
  apply Forall_cons in Hixs as [Hi Hixs].
  destruct (set_row_run f b i Hl Hr Hi (seq 0 9) h B) as (h1 & B1 & Hrun1 & HB1 & Hlen1 & Hfp1 & Hc1);
    [|done|].
  { apply Forall_forall. intros j [_ Hj]%elem_of_seq. lia. }
  destruct (IH _ _ Hixs HB1) as (h' & B' & Hrun & HB' & Hlen & Hfp & Hcells).
  exists h', B'. rewrite for_in_cons. cbv beta. hstep Hrun1.
  split_and!; [done|done|lia| |].
  - intros x. by rewrite Hfp, Hfp1.
  - intros a c Ha Hc. rewrite (Hcells a c Ha Hc), !(Hc1 a c Ha Hc).
    assert (c ∈ seq 0 9) as Hcs by (apply elem_of_seq; lia).
    destruct (decide (a = i)) as [->|Hne].
    + rewrite (decide_True (P := i = i ∧ c ∈ seq 0 9)) by done.
      rewrite (decide_True (P := i ∈ i :: ixs)) by by left.
      by destruct (decide (i ∈ ixs)).
    + rewrite (decide_False (P := a = i ∧ c ∈ seq 0 9)) by (by intros [? _]).
      destruct (decide (a ∈ ixs)) as [Hin|Hn].
      * by rewrite decide_True by by right.
      * rewrite decide_False; [done|]. by intros [->|Hin]%elem_of_cons.
Qed.

(** After the first loop of the click the squares of the page stand for
    the form. *)
Lemma set_form_board f b h :
  length f = 9 → Forall (λ r : list Z, length r = 9) f → page_ready h b →
  ∃ h',
    Heap.for_in (seq 0 9) (λ i, Heap.for_in (seq 0 9) (λ j,
      Heap.bind (Page.field f i j) (λ value,
        Heap.bind (Heap.at2 b i j) (λ s,
          Heap.bind (Heap.set_sq_value s value) (λ _,
            Heap.ret (Next (St := unit) (R := unit) ())))))) h = Some (Next (), h') ∧
    Heap.read_board h' b = Some (mkBoard f) ∧ length h' = length h ∧
    Heap.footprint h' b = Heap.footprint h b.
Proof.
  intros Hl Hr [(g & Hread & Hgl & Hgr) Hnd].
  assert (shape9 (mkBoard g)) as Hshape.
  { split; [unfold mkBoard; by rewrite length_imap|].
    apply Forall_lookup. intros i R HR. unfold mkBoard in HR.
    rewrite list_lookup_imap in HR. destruct (g !! i) as [r|] eqn:Er; [|done].
    injection HR as <-. rewrite length_imap. rewrite Forall_lookup in Hgr. by eapply Hgr. }
  pose proof (is_board_intro 9 h b _ Hread Hnd Hshape) as HB.
  assert (Forall (λ i, i < 9) (seq 0 9)) as Hseq.
  { apply Forall_forall. intros j [_ Hj]%elem_of_seq. lia. }
  destruct (set_form_run f b Hl Hr (seq 0 9) h _ Hseq HB)
    as (h' & B' & Hrun & HB' & Hlen & Hfp & Hcells).
  exists h'. split_and!; [done| |done|done].
  rewrite (is_board_read _ _ _ _ HB'). f_equal.
  assert (shape9 (mkBoard f)) as Hshape'.
  { split; [unfold mkBoard; by rewrite length_imap|].
    apply Forall_lookup. intros i R HR. unfold mkBoard in HR.
    rewrite list_lookup_imap in HR. destruct (f !! i) as [r|] eqn:Er; [|done].
    injection HR as <-. rewrite length_imap. rewrite Forall_lookup in Hr. by eapply Hr. }
  pose proof (proj1 HB') as Hshape1.
  apply (grid_ext _ _ 9); [apply Hshape1|apply Hshape'|apply Hshape1|apply Hshape'|].
  intros i j Hi Hj.
  change (at2 B' i j = at2 (mkBoard f) i j).
  rewrite (shape9_at2 _ _ _ Hshape1 Hi Hj), (shape9_at2 _ _ _ Hshape' Hi Hj). f_equal.
  rewrite (Hcells i j Hi Hj), decide_True by (apply elem_of_seq; lia).
  destruct (lookup_lt_is_Some_2 g i) as [r Er]; [lia|].
  rewrite Forall_lookup in Hgr. pose proof (Hgr _ _ Er) as Hrl.
  destruct (lookup_lt_is_Some_2 r j) as [v Ev]; [lia|].
  rewrite (cell_mkBoard g i j r v Er Ev).
  destruct (lookup_lt_is_Some_2 f i) as [r' Er']; [lia|].
  rewrite Forall_lookup in Hr. pose proof (Hr _ _ Er') as Hrl'.
  destruct (lookup_lt_is_Some_2 r' j) as [v' Ev']; [lia|].
  rewrite (cell_mkBoard f i j r' v' Er' Ev'). unfold with_value, number. simpl.
  by rewrite Er'; simpl; rewrite Ev'.
Qed.

(** *** The form takes the values of the result *)

Lemma number_alter f i j v a c :
  length f = 9 → Forall (λ r : list Z, length r = 9) f → i < 9 → j < 9 →
  number (alter (<[j := v]>) i f) a c =
    if decide ((a, c) = (i, j)) then v else number f a c.
Proof.
  intros Hl Hr Hi Hj. unfold number.
  destruct (lookup_lt_is_Some_2 f i) as [r Er]; [lia|].
  rewrite Forall_lookup in Hr. pose proof (Hr _ _ Er) as Hrl.
  destruct (decide (a = i)) as [->|Hne].
  - rewrite list_lookup_alter_eq, Er. simpl.
    destruct (decide (c = j)) as [->|Hne].
    + rewrite list_lookup_insert_eq by lia. by rewrite decide_True.
    + rewrite list_lookup_insert_ne by done. by rewrite decide_False by congruence.
  - rewrite list_lookup_alter_ne by done. by rewrite decide_False by congruence.
Qed.

Lemma grid9_alter (f : list (list Z)) i j v :
  length f = 9 → Forall (λ r : list Z, length r = 9) f →
  length (alter (<[j := v]>) i f) = 9 ∧
  Forall (λ r : list Z, length r = 9) (alter (<[j := v]>) i f).
Proof.
  intros Hl Hr. split; [by rewrite length_alter|].
  rewrite Forall_lookup in Hr |- *. intros k r.
  destruct (decide (k = i)) as [->|Hne].
  - rewrite list_lookup_alter_eq. destruct (f !! i) as [r0|] eqn:E; simpl; [|done].
    intros [= <-]. rewrite length_insert. by eapply Hr.
  - rewrite list_lookup_alter_ne by done. apply Hr.
Qed.

Lemma show_row_run h r b' fl R i :
  h !! r = Some (Heap.OCSP b' fl) → Heap.read_board h b' = Some R → shape9 R → i < 9 →
  ∀ js f0, Forall (λ j, j < 9) js →
  length f0 = 9 → Forall (λ r : list Z, length r = 9) f0 →
  ∃ f',
    Page.for_form js (λ j f,
      Heap.bind (Heap.csp_squares r) (λ rs,
        Heap.bind (Heap.at2 rs i j) (λ s,
          Heap.bind (Heap.sq_value s) (λ value, Page.set_field f i j value)))) f0 h
      = Some (f', h) ∧
    length f' = 9 ∧ Forall (λ r : list Z, length r = 9) f' ∧
    ∀ a c, a < 9 → c < 9 →
      number f' a c = if decide (a = i ∧ c ∈ js) then value (cell R a c) else number f0 a c.
Proof.
  intros Er Hread Hshape Hi. induction js as [|j js IH]; intros f0 Hjs Hl Hr.
  { exists f0. split_and!; [done..|]. intros a c _ _.
    rewrite decide_False; [done|]. intros [_ H]. by apply not_elem_of_nil in H. }
  apply Forall_cons in Hjs as [Hj Hjs].
  pose proof (shape9_at2 R i j Hshape Hi Hj) as Hq.
  destruct (read_board_at2 h b' R i j _ Hread Hq) as (s & d & Hat & Es & _).
  set (f1 := alter (<[j := value (cell R i j)]>) i f0).
  destruct (grid9_alter f0 i j (value (cell R i j)) Hl Hr) as [Hl1 Hr1].
  destruct (IH f1 Hjs Hl1 Hr1) as (f' & Hrun & Hl' & Hr' & Hnum).
  exists f'. cbn [Page.for_form].
  rewrite (bind_run _ _ _ f1 h).
  2:{ hstep (run_csp_squares h r b' fl Er). hstep Hat.
      hstep (run_sq_value h s _ _ _ _ Es). unfold Page.set_field.
      by rewrite (number_lookup f0 i j Hl Hr Hi Hj). }
  split_and!; [done..|].
  intros a c Ha Hc. rewrite (Hnum a c Ha Hc). unfold f1.
  rewrite (number_alter f0 i j _ a c Hl Hr Hi Hj).
  destruct (decide ((a, c) = (i, j))) as [[= -> ->]|Hne].
  - rewrite (decide_True (P := i = i ∧ j ∈ j :: js)) by (split; [done|by left]).
    by destruct (decide (i = i ∧ j ∈ js)).
  - destruct (decide (a = i ∧ c ∈ js)) as [[-> Hin]|Hn].
    + by rewrite decide_True by (split; [done|by right]).
    + rewrite decide_False; [done|]. intros [-> [->|Hin]%elem_of_cons]; [done|].
      by apply Hn.
Qed.

Lemma show_form_run h r b' fl R :
  h !! r = Some (Heap.OCSP b' fl) → Heap.read_board h b' = Some R → shape9 R →
  ∀ ixs f0, Forall (λ i, i < 9) ixs →
  length f0 = 9 → Forall (λ r : list Z, length r = 9) f0 →
  ∃ f',
    Page.for_form ixs (λ i f, Page.for_form (seq 0 9) (λ j f,
      Heap.bind (Heap.csp_squares r) (λ rs,
        Heap.bind (Heap.at2 rs i j) (λ s,
          Heap.bind (Heap.sq_value s) (λ value, Page.set_field f i j value)))) f) f0 h
      = Some (f', h) ∧
    length f' = 9 ∧ Forall (λ r : list Z, length r = 9) f' ∧
    ∀ a c, a < 9 → c < 9 →
      number f' a c = if decide (a ∈ ixs) then value (cell R a c) else number f0 a c.
Proof.
  intros Er Hread Hshape. induction ixs as [|i ixs IH]; intros f0 Hixs Hl Hr.
  { exists f0. split_and!; [done..|]. intros a c _ _.
    rewrite decide_False; [done|]. by intros H%not_elem_of_nil. }
  apply Forall_cons in Hixs as [Hi Hixs].
  assert (Forall (λ i, i < 9) (seq 0 9)) as Hseq.
  { apply Forall_forall. intros j [_ Hj]%elem_of_seq. lia. }
  destruct (show_row_run h r b' fl R i Er Hread Hshape Hi (seq 0 9) f0 Hseq Hl Hr)
    as (f1 & Hrun1 & Hl1 & Hr1 & Hnum1).
  destruct (IH f1 Hixs Hl1 Hr1) as (f' & Hrun & Hl' & Hr' & Hnum).
  exists f'. cbn [Page.for_form]. hstep Hrun1.
  split_and!; [done..|].
  intros a c Ha Hc. rewrite (Hnum a c Ha Hc), (Hnum1 a c Ha Hc).
  assert (c ∈ seq 0 9) as Hcs by (apply elem_of_seq; lia).
  destruct (decide (a = i)) as [->|Hne].
  - rewrite (decide_True (P := i = i ∧ c ∈ seq 0 9)) by done.
    rewrite (decide_True (P := i ∈ i :: ixs)) by by left.
    by destruct (decide (i ∈ ixs)).
  - rewrite (decide_False (P := a = i ∧ c ∈ seq 0 9)) by (by intros [? _]).
    destruct (decide (a ∈ ixs)) as [Hin|Hn].
    + by rewrite decide_True by by right.
    + rewrite decide_False; [done|]. by intros [->|Hin]%elem_of_cons.
Qed.

Lemma values_lookup R i j :
  shape9 R → i < 9 → j < 9 → values R !! i ≫= (.!! j) = Some (value (cell R i j)).
Proof.
  intros Hshape Hi Hj. pose proof (shape9_at2 R i j Hshape Hi Hj) as Hq.
  unfold at2 in Hq. unfold values. rewrite list_lookup_fmap.
  destruct (R !! i) as [r|]; [simpl in *|done]. rewrite list_lookup_fmap.
  by rewrite Hq.
Qed.

(** What [solve] returns on a board of the page is a board of digits. *)
Lemma solve_wf s fuel res : wf_input s → solve fuel s = Some res → wf_board (squares res).
Proof.
  intros Hin Hrun.
  destruct (solve_unfold fuel s Hin) as (b & s1 & Hu & Hwf1 & Hfr & Hs).
  rewrite Hs in Hrun.
  destruct (backtrack_inv wf_board) with (fuel := fuel + 82) (csp := mkCSP s1 false)
    as (res' & Hres & Hcases); [done| |done| |].
  - intros x i j v s' Hx Hi Hj H0 _ Hv Ht.
    destruct (trial_wf x i j v Hx Hi Hj H0 Hv) as (b' & s'' & Ht' & Hwf' & _).
    rewrite Ht in Ht'. by injection Ht' as <- <-.
  - simpl. pose proof (count_empty_le s1). lia.
  - rewrite (backtrack_mono_le fuel (fuel + 82) _ _ ltac:(lia) Hrun) in Hres.
    injection Hres as <-.
    destruct Hcases as [[_ ->]|[_ [->|(_ & _ & Hwf)]]]; done.
Qed.

(** The click, step by step. *)
Lemma click_run h b f :
  page_ready h b → wf_grid f →
  ∃ res h',
    solve 82 (mkBoard f) = Some res ∧
    Page.solveButtonClick 82 b f h =
      Some (if failure res then (f, "No solution exists!" : string)
            else (values (squares res), "Success!" : string), h') ∧
    Heap.read_board h' b = Some (mkBoard f) ∧
    Heap.footprint h' b = Heap.footprint h b.
Proof.
  intros Hready Hf. pose proof (wf_input_mkBoard f Hf) as Hin.
  destruct Hf as [Hl Hrows].
  assert (Forall (λ r : list Z, length r = 9) f) as Hr.
  { eapply Forall_impl; [exact Hrows|]. by intros r [? _]. }
  destruct (set_form_board f b h Hl Hr Hready) as (h1 & Hrun1 & Hread1 & Hlen1 & Hfp1).
  destruct (solve_returns (mkBoard f) 82 Hin) as [res Hres]; [lia|].
  destruct (solve_sim 82 b h1 (mkBoard f) res Hread1 (proj1 Hin) Hres)
    as (r & h' & b' & Hrun & Hpre & Er & Hread').
  assert (Heap.read_board h' b = Some (mkBoard f) ∧
          Heap.footprint h' b = Heap.footprint h b) as [Hread Hfp].
  { destruct (agree_board h1 h' b) as [Hrd Hft].
    - apply prefix_agree; [done|]. by eapply read_board_alloc.
    - by rewrite Hrd, Hft. }
  exists res. unfold Page.solveButtonClick. hstep Hrun1. hstep Hrun.
  hstep (run_csp_failure h' r b' _ Er).
  destruct (failure res) eqn:Hfail; cbn [negb].
  { by exists h'. }
  pose proof (wf_board_shape _ (solve_wf _ _ _ Hin Hres)) as Hshape.
  assert (Forall (λ i, i < 9) (seq 0 9)) as Hseq.
  { apply Forall_forall. intros j [_ Hj]%elem_of_seq. lia. }
  destruct (show_form_run h' r b' _ (squares res) Er Hread' Hshape (seq 0 9) f Hseq Hl Hr)
    as (f' & Hshow & Hl' & Hr' & Hnum).
  exists h'. hstep Hshow. split_and!; [done| |done..].
  unfold Heap.ret. do 3 f_equal.
  destruct Hshape as [HRl HRr].
  apply (grid_ext _ _ 9); [done| |done| |].
  - unfold values. by rewrite length_map.
  - unfold values. apply Forall_fmap. eapply Forall_impl; [exact HRr|].
    intros x Hx. simpl. by rewrite length_map.
  - intros i j Hi Hj. rewrite (number_lookup f' i j Hl' Hr' Hi Hj).
    rewrite (values_lookup (squares res) i j (conj HRl HRr) Hi Hj). f_equal.
    rewrite (Hnum i j Hi Hj), decide_True; [done|]. apply elem_of_seq. lia.
Qed.

Lemma solve_success_solution s fuel res :
  wf_input s → no_duplicate s → solve fuel s = Some res → failure res = false →
  solution_of s (squares res).
Proof.
  intros Hin Hnd Hrun Hok.
  pose proof (wf_board_shape _ (solve_wf _ _ _ Hin Hrun)) as Hshape.
  destruct (solve_unfold fuel s Hin) as (b & s1 & Hu & Hwf1 & Hfr & Hs).
  destruct b.
  - destruct (solve_sound_propagated s s1 Hin Hu fuel res Hrun Hok) as (? & _ & ?).
    by split_and!.
  - rewrite Hs in Hrun.
    destruct (updateAllDomains_dead s s1 Hin Hnd Hu) as (a & b & Hdead).
    rewrite (backtrack_dead a b fuel (mkCSP s1 false) res Hwf1 Hdead Hrun) in Hok. done.
Qed.

(** X14. What the page answers to a click on Solve, for a form of digits
    (0 for an empty field).  The click ends, with one of the two texts.
    'No solution exists!' is shown only when the grid of the form has no
    solution, and the form is then left as it was.  When the grid has a
    solution, the text is 'Success!' and the form shows a solution that
    keeps the numbers typed in.  When the text is 'Success!' and no two
    peers of the form hold the same digit, the form shows such a
    solution. *)
Theorem solveButtonClick_answer h b f :
  page_ready h b → wf_grid f →
  ∃ f' msg h', Page.solveButtonClick 82 b f h = Some ((f', msg), h') ∧
    (msg = "Success!" ∨ msg = "No solution exists!") ∧
    (msg = "No solution exists!" → f' = f ∧ ¬ ∃ t, solution_of (mkBoard f) t) ∧
    ((∃ t, solution_of (mkBoard f) t) →
     msg = "Success!" ∧ ∃ t, solution_of (mkBoard f) t ∧ f' = values t) ∧
    (msg = "Success!" → no_duplicate (mkBoard f) →
     ∃ t, solution_of (mkBoard f) t ∧ f' = values t).
Proof.
  intros Hready Hf. pose proof (wf_input_mkBoard f Hf) as Hin.
  destruct (click_run h b f Hready Hf) as (res & h' & Hres & Hrun & _).
  destruct (failure res) eqn:Hfail.
  - exists f, "No solution exists!", h'. split_and!; [done|by right| | |done].
    + intros _. split; [done|]. by apply (solve_failure_unsolvable _ 82 res).
    + intros Hsol. by destruct (solve_failure_unsolvable _ 82 res Hin Hres Hfail).
  - exists (values (squares res)), "Success!", h'. split_and!; [done|by left|done| |].
    + intros [t Ht]. split; [done|]. exists (squares res). split; [|done].
      destruct (solve_finds _ t 82 Hin Ht) as (res' & Hres' & _ & Hsolved & Hkeeps); [lia|].
      rewrite Hres in Hres'. injection Hres' as <-.
      split_and!; [|done..]. by eapply wf_board_shape, solve_wf.
    + intros _ Hnd. exists (squares res). split; [|done].
      by apply (solve_success_solution _ 82).
Qed.

Lemma solveButtonClick_answer_witness :
  ∃ b h, Heap.page_board empty_grid [] = Some (b, h) ∧ page_ready h b ∧
    wf_grid open_grid ∧
    ∃ f' msg h', Page.solveButtonClick 82 b open_grid h = Some ((f', msg), h') ∧
      (msg = "Success!" ∨ msg = "No solution exists!") ∧
      (msg = "No solution exists!" →
       f' = open_grid ∧ ¬ ∃ t, solution_of (mkBoard open_grid) t) ∧
      ((∃ t, solution_of (mkBoard open_grid) t) →
       msg = "Success!" ∧ ∃ t, solution_of (mkBoard open_grid) t ∧ f' = values t) ∧
      (msg = "Success!" → no_duplicate (mkBoard open_grid) →
       ∃ t, solution_of (mkBoard open_grid) t ∧ f' = values t).
Proof.
  eexists _, _. split; [vm_compute; reflexivity|].
  match goal with |- ?P ∧ ?Q ∧ _ => assert P as Hready; [|assert Q as Hf] end.
  - split.
    + exists empty_grid. split; [vm_compute; reflexivity|].
      split; [reflexivity|]. apply (bool_decide_unpack _). vm_compute. reflexivity.
    + apply (bool_decide_unpack _). vm_compute. reflexivity.
  - apply (bool_decide_unpack _). vm_compute. reflexivity.
  - split; [exact Hready|]. split; [exact Hf|].
    exact (solveButtonClick_answer _ _ open_grid Hready Hf).
Defined.

(** X15. A click on Solve leaves the page ready for the next one: the
    squares of the page then hold the numbers of the form, every one of
    them still with the domain 1..9 that the search pruned in its copies
    only, and the board is made of the same objects as before, each in
    one place. *)
Theorem solveButtonClick_again h b f :
  page_ready h b → wf_grid f →
  ∃ out h', Page.solveButtonClick 82 b f h = Some (out, h') ∧
    Heap.read_board h' b = Some (mkBoard f) ∧
    Heap.footprint h' b = Heap.footprint h b ∧
    page_ready h' b.
Proof.
  intros Hready Hf.
  destruct (click_run h b f Hready Hf) as (res & h' & Hres & Hrun & Hread & Hfp).
  eexists _, h'. split_and!; [done..|].
  destruct Hf as [Hl Hrows]. split.
  - exists f. split_and!; [done..|].
    eapply Forall_impl; [exact Hrows|]. by intros r [? _].
  - rewrite Hfp. apply Hready.
Qed.

Lemma solveButtonClick_again_witness :
  ∃ b h, Heap.page_board empty_grid [] = Some (b, h) ∧ page_ready h b ∧
    wf_grid stuck_grid ∧
    ∃ out h', Page.solveButtonClick 82 b stuck_grid h = Some (out, h') ∧
      Heap.read_board h' b = Some (mkBoard stuck_grid) ∧
      Heap.footprint h' b = Heap.footprint h b ∧
      page_ready h' b.
Proof.
  eexists _, _. split; [vm_compute; reflexivity|].
  match goal with |- ?P ∧ ?Q ∧ _ => assert P as Hready; [|assert Q as Hf] end.
  - split.
    + exists empty_grid. split; [vm_compute; reflexivity|].
      split; [reflexivity|]. apply (bool_decide_unpack _). vm_compute. reflexivity.
    + apply (bool_decide_unpack _). vm_compute. reflexivity.
  - apply (bool_decide_unpack _). vm_compute. reflexivity.
  - split; [exact Hready|]. split; [exact Hf|].
    exact (solveButtonClick_again _ _ stuck_grid Hready Hf).
Defined.

(** * The solution that [solve] returns *)












(** * Propagation works in place *)

(** X18. [updateAllDomains] returns a verdict only; the pruning is done
    in the board it is given.  On a board of digits whose rows, squares
    and domain arrays are not shared, the call returns the verdict of
    the state-passing [updateAllDomains], and afterwards the caller's
    own array reads as the pruned board. *)
Theorem updateAllDomains_in_place h b B :
  Heap.read_board h b = Some B → NoDup (Heap.footprint h b) → wf_board B →
  ∃ ok B' h', updateAllDomains B = Some (ok, B') ∧
    Heap.updateAllDomains b h = Some (ok, h') ∧
    Heap.read_board h' b = Some B'.
Proof.
  intros Hread Hnd Hwf.
  destruct (updateAllDomains_wf B Hwf) as (ok & B' & Hrun & _).
  pose proof (is_board_intro 9 h b B Hread Hnd (wf_board_shape _ Hwf)) as HB.
  destruct (updateAllDomains_sim 9 h b B ok B' HB Hrun) as (h' & Hrun' & HB').
  exists ok, B', h'. split_and!; [done..|]. by eapply is_board_read.
Qed.

Lemma updateAllDomains_in_place_witness :
  ∃ b h, Heap.page_board open_grid [] = Some (b, h) ∧
    ∃ ok B' h', updateAllDomains (mkBoard open_grid) = Some (ok, B') ∧
      Heap.updateAllDomains b h = Some (ok, h') ∧
      Heap.read_board h' b = Some B'.
Proof.
  eexists _, _. split; [vm_compute; reflexivity|].
  apply (updateAllDomains_in_place _ _ (mkBoard open_grid)).
  - vm_compute. reflexivity.
  - apply (bool_decide_unpack _). vm_compute. reflexivity.
  - apply (bool_decide_unpack _). vm_compute. reflexivity.
Defined.
